(** * Markdown export pipeline of [current_main.py]

    A shallow embedding of the sanitizer, the inline cleaner, the line
    parser and the two renderers (HTML for the PDF path, python-docx calls
    for the word-processor path), of the Markdown regenerator of the
    template path and of the table helpers of [pdf_generator.py],
    followed by the properties checked against them.

    Python [str] values are sequences of Unicode code points, so a
    character is a code point ([N]) and a string a list of them.  The
    regular expressions of the source are written as values of a small
    regex syntax and run by a backtracking matcher that follows the
    priority order of Python's [re] module. *)

From Stdlib Require Import String Ascii DecimalString DecimalN.
From Stdlib Require Import List Bool NArith ZArith Arith Lia.
Import ListNotations.

Local Open Scope N_scope.

(** ** Characters and strings *)

Abbreviation char := N (only parsing).
Abbreviation str := (list N) (only parsing).

Definition lit (s : string) : str :=
  List.map N_of_ascii (list_ascii_of_string s).
Arguments lit s%_string.

Definition chr (s : string) : char :=
  match lit s with
  | c :: _ => c
  | [] => 0
  end.
Arguments chr s%_string.

Definition LF : char := 10.

(** ** Exceptions

    The exceptions the modelled code can raise: the [TypeError] of
    [len(None)] in [replace_bold]; the [ValueError] and [KeyError] of the
    python-docx calls of the document renderer; the [OverflowError] of a
    float that is too large and of a repetition count that does not fit a
    machine index; the [MemoryError] of a string that cannot be
    allocated. *)

Inductive exn := TypeError | ValueError | KeyError | OverflowError | MemoryError.

Inductive result (A : Type) :=
| Ok (a : A)
| Raise (e : exn).
Arguments Ok {A} a.
Arguments Raise {A} e.

Definition bind {A B} (m : result A) (f : A -> result B) : result B :=
  match m with
  | Ok a => f a
  | Raise e => Raise e
  end.

Notation "x <- m ;; k" := (bind m (fun x => k))
  (at level 61, m at next level, right associativity).

Fixpoint mapM {A B} (f : A -> result B) (l : list A) : result (list B) :=
  match l with
  | [] => Ok []
  | a :: l' => b <- f a ;; bs <- mapM f l' ;; Ok (b :: bs)
  end.

(** ** Python string primitives *)

Module Py.

(** [str.isspace] on one character, which is also the class [\s] of [re]
    on [str] patterns. *)
Definition isspace (c : char) : bool :=
  ((9 <=? c) && (c <=? 13)) || ((28 <=? c) && (c <=? 32))
  || (c =? 133) || (c =? 160) || (c =? 5760)
  || ((8192 <=? c) && (c <=? 8202))
  || (c =? 8232) || (c =? 8233) || (c =? 8239) || (c =? 8287)
  || (c =? 12288).

(** The class [\d] of [re] on [str] patterns is the Unicode category Nd;
    its members come in blocks of ten consecutive code points valued 0..9
    (table of Unicode 14, the one of CPython 3.11). *)
Definition nd_starts : list N :=
  [48; 1632; 1776; 1984; 2406; 2534; 2662; 2790; 2918; 3046; 3174; 3302; 3430;
   3558; 3664; 3792; 3872; 4160; 4240; 6112; 6160; 6470; 6608; 6784; 6800;
   6992; 7088; 7232; 7248; 42528; 43216; 43264; 43472; 43504; 43600; 44016;
   65296; 66720; 68912; 69734; 69872; 69942; 70096; 70384; 70736; 70864; 71248;
   71360; 71472; 71904; 72016; 72784; 73040; 73120; 92768; 92864; 93008;
   120782; 120792; 120802; 120812; 120822; 123200; 123632; 125264; 130032].

Definition digit_value (c : char) : option N :=
  match find (fun s => (s <=? c) && (c <? s + 10)) nd_starts with
  | Some s => Some (c - s)
  | None => None
  end.

Definition isdigit (c : char) : bool :=
  match digit_value c with Some _ => true | None => false end.

(** [int(s)] on a string of decimal digits ([s] comes from a [\d+] group).
    The result is unbounded, as in Python. *)
Fixpoint int_acc (acc : N) (s : str) : N :=
  match s with
  | [] => acc
  | c :: s' =>
      int_acc (10 * acc + match digit_value c with Some v => v | None => 0 end) s'
  end.

Definition int (s : str) : N := int_acc 0 s.

(** [str(n)] / [f"{n}"] for a non-negative integer. *)
Definition str_of_N (n : N) : str :=
  lit (NilZero.string_of_uint (N.to_uint n)).

Fixpoint lstrip (s : str) : str :=
  match s with
  | c :: s' => if isspace c then lstrip s' else s
  | [] => []
  end.

Definition rstrip (s : str) : str := rev (lstrip (rev s)).

Definition strip (s : str) : str := rstrip (lstrip s).

Fixpoint startswith (s p : str) {struct p} : bool :=
  match p with
  | [] => true
  | a :: p' =>
      match s with
      | [] => false
      | b :: s' => (b =? a) && startswith s' p'
      end
  end.

Definition endswith (s p : str) : bool := startswith (rev s) (rev p).

Definition str_eqb (a b : str) : bool :=
  (length a =? length b)%nat && startswith a b.

(** [p in s] *)
Fixpoint contains (s p : str) : bool :=
  startswith s p ||
  match s with
  | [] => false
  | _ :: s' => contains s' p
  end.

(** [s.split(sep)] for a one-character separator. *)
Fixpoint split (sep : char) (s : str) : list str :=
  match s with
  | [] => [[]]
  | c :: s' =>
      if c =? sep then [] :: split sep s'
      else match split sep s' with
           | w :: ws => (c :: w) :: ws
           | [] => [[c]]
           end
  end.

(** [sep.join(l)] *)
Fixpoint join (sep : str) (l : list str) : str :=
  match l with
  | [] => []
  | [a] => a
  | a :: l' => a ++ sep ++ join sep l'
  end.

(** [s.replace(old, new)] for a non-empty [old]: occurrences are replaced
    left to right without overlap.  [skip] counts the characters of an
    occurrence still to be passed over. *)
Fixpoint replace_go (old new : str) (skip : nat) (s : str) : str :=
  match s with
  | [] => []
  | c :: s' =>
      match skip with
      | S n => replace_go old new n s'
      | O =>
          if startswith s old
          then new ++ replace_go old new (length old - 1) s'
          else c :: replace_go old new 0 s'
      end
  end.

Definition replace (old new s : str) : str := replace_go old new 0 s.

(** [s[n:]] for [n >= 0] and [s[1:-1]] *)
Definition slice_from (n : nat) (s : str) : str := skipn n s.
Definition slice_1_m1 (s : str) : str := removelast (skipn 1 s).

(** [html.escape(s)] with its default [quote=True]. *)
Definition escape_char (c : char) : str :=
  if c =? chr "&" then lit "&amp;"
  else if c =? chr "<" then lit "&lt;"
  else if c =? chr ">" then lit "&gt;"
  else if c =? 34 then lit "&quot;"
  else if c =? 39 then lit "&#x27;"
  else [c].

Definition escape (s : str) : str := flat_map escape_char s.

(** Python floats are IEEE doubles.  [round53 n] is the integer nearest
    to [n] with at most 53 significant bits, ties going to the even one:
    the value of [float(n)] when that is finite. *)
Definition round53 (n : N) : N :=
  let bits := N.size n in
  if bits <=? 53 then n
  else
    let sh := bits - 53 in
    let q := N.shiftr n sh in
    let r := N.land n (N.ones sh) in
    let half := N.shiftl 1 (sh - 1) in
    let q' := if (half <? r) || ((r =? half) && N.odd q) then q + 1 else q in
    N.shiftl q' sh.

(** The finite doubles lie below [2 ^ 1024]. *)
Definition finite (x : N) : bool := x <? 2 ^ 1024.

(** [float(n)], as in [0.5 * n]: [OverflowError] when [n] is too large. *)
Definition float_of_int (n : N) : result N :=
  if finite (round53 n) then Ok (round53 n) else Raise OverflowError.

(** [c * n] for a one-character string [c] and [n >= 0].  The count is
    a number read from the text, so the result is not bounded by the size
    of the input: the count must fit a machine index ([OverflowError] from
    [2 ^ 63] on) and the result must fit in memory ([MemoryError]), where
    [max_alloc] is the largest count the interpreter can carry out. *)
Definition char_repeat (max_alloc : N) (c : char) (n : N) : result str :=
  if 2 ^ 63 <=? n then Raise OverflowError
  else if max_alloc <? n then Raise MemoryError
  else Ok (repeat c (N.to_nat n)).

End Py.

(** ** Regular expressions

    The fragment of Python's [re] syntax that the source uses.  Every
    repetition in the source's patterns ranges over a single character
    class, so [Star] and [StarLazy] take a class.  [x+] is [x x*] and
    [x{3,}] is [x x x x*].  Where a comment quotes a pattern of the source,
    a star that is followed by a closing parenthesis is separated from it
    by a space, which is not part of the pattern. *)

Module Re.

Inductive regex :=
| Eps
| Chr (p : char -> bool)              (* one character of a class *)
| Seq (r1 r2 : regex)
| Alt (r1 r2 : regex)                 (* r1|r2, r1 tried first *)
| Star (p : char -> bool)             (* greedy  [p]*  *)
| StarLazy (p : char -> bool)         (* lazy    [p]*? *)
| Group (n : nat) (r : regex)         (* capturing group number n *)
| NotBehind (p : char -> bool)        (* (?<!p) *)
| NotAhead (p : char -> bool)         (* (?!p) *)
| Bol (multiline : bool)              (* ^ *)
| Eol (multiline : bool).             (* $ *)

(** Captures: group number to captured text; a group that took no part in
    the match has no entry ([None] in Python). *)
Definition captures := list (nat * str).

Fixpoint group (n : nat) (caps : captures) : option str :=
  match caps with
  | [] => None
  | (m, s) :: caps' => if (m =? n)%nat then Some s else group n caps'
  end.

Section Matcher.
Variable A : Type.

(** A continuation receives the reversed text before the current
    position, the text after it, and the captures so far. *)
Definition cont := str -> str -> captures -> option A.

Fixpoint star_greedy (p : char -> bool) (k : str -> str -> option A)
                     (pre rest : str) : option A :=
  match rest with
  | c :: rest' =>
      if p c then
        match star_greedy p k (c :: pre) rest' with
        | Some r => Some r
        | None => k pre rest
        end
      else k pre rest
  | [] => k pre rest
  end.

Fixpoint star_lazy (p : char -> bool) (k : str -> str -> option A)
                   (pre rest : str) : option A :=
  match k pre rest with
  | Some r => Some r
  | None =>
      match rest with
      | c :: rest' => if p c then star_lazy p k (c :: pre) rest' else None
      | [] => None
      end
  end.

Fixpoint rmatch (r : regex) (pre rest : str) (caps : captures)
                (k : cont) : option A :=
  match r with
  | Eps => k pre rest caps
  | Chr p =>
      match rest with
      | c :: rest' => if p c then k (c :: pre) rest' caps else None
      | [] => None
      end
  | Seq r1 r2 =>
      rmatch r1 pre rest caps
        (fun pre' rest' caps' => rmatch r2 pre' rest' caps' k)
  | Alt r1 r2 =>
      match rmatch r1 pre rest caps k with
      | Some x => Some x
      | None => rmatch r2 pre rest caps k
      end
  | Star p => star_greedy p (fun pre' rest' => k pre' rest' caps) pre rest
  | StarLazy p => star_lazy p (fun pre' rest' => k pre' rest' caps) pre rest
  | Group n r =>
      rmatch r pre rest caps
        (fun pre' rest' caps' =>
           k pre' rest'
             ((n, rev (firstn (length pre' - length pre) pre')) :: caps'))
  | NotBehind p =>
      match pre with
      | c :: _ => if p c then None else k pre rest caps
      | [] => k pre rest caps
      end
  | NotAhead p =>
      match rest with
      | c :: _ => if p c then None else k pre rest caps
      | [] => k pre rest caps
      end
  | Bol ml =>
      match pre with
      | [] => k pre rest caps
      | c :: _ => if ml && (c =? LF) then k pre rest caps else None
      end
  | Eol ml =>
      match rest with
      | [] => k pre rest caps
      | c :: rest' =>
          if (c =? LF) && (ml || match rest' with [] => true | _ => false end)
          then k pre rest caps
          else None
      end
  end.
End Matcher.

Arguments star_greedy {A} p k pre rest.
Arguments star_lazy {A} p k pre rest.
Arguments rmatch {A} r pre rest caps k.

(** A match object: the matched text, the text after it and the groups. *)
Record mobj := { m_text : str; m_after : str; m_groups : captures }.

(** The pattern tried at one position ([pre] is the reversed text before
    that position). *)
Definition match_at (r : regex) (pre rest : str) : option mobj :=
  rmatch r pre rest []
    (fun pre' rest' caps =>
       Some {| m_text := rev (firstn (length pre' - length pre) pre');
               m_after := rest';
               m_groups := caps |}).

(** [re.match(r, s)] *)
Definition re_match (r : regex) (s : str) : option mobj := match_at r [] s.

(** [re.search(r, s)]: the leftmost match, returned with [s[m.start():]]. *)
Fixpoint search_go (r : regex) (pre rest : str) : option (mobj * str) :=
  match match_at r pre rest with
  | Some m => Some (m, rest)
  | None =>
      match rest with
      | c :: rest' => search_go r (c :: pre) rest'
      | [] => None
      end
  end.

Definition re_search (r : regex) (s : str) : option (mobj * str) :=
  search_go r [] s.

(** [re.sub(r, f, s)] with a replacement function that may raise.  The
    scan goes left to right over the original string; after a match of
    [n > 0] characters the next [n - 1] positions are passed over
    ([skip]); an empty match is replaced and the character after it is
    copied (Python 3.7 and later). *)
Fixpoint sub_go (r : regex) (f : mobj -> result str)
                (pre rest : str) (skip : nat) : result str :=
  match rest with
  | [] =>
      match skip, match_at r pre [] with
      | O, Some m => f m
      | _, _ => Ok []
      end
  | c :: rest' =>
      match skip with
      | S n => sub_go r f (c :: pre) rest' n
      | O =>
          match match_at r pre rest with
          | Some m =>
              repl <- f m ;;
              match m_text m with
              | [] => tail <- sub_go r f (c :: pre) rest' 0 ;;
                      Ok (repl ++ c :: tail)
              | _ :: t => tail <- sub_go r f (c :: pre) rest' (length t) ;;
                          Ok (repl ++ tail)
              end
          | None => tail <- sub_go r f (c :: pre) rest' 0 ;; Ok (c :: tail)
          end
      end
  end.

Definition re_sub_f (r : regex) (f : mobj -> result str) (s : str) : result str :=
  sub_go r f [] s 0.

(** [re.sub(r, repl, s)] with a replacement that cannot raise. *)
Fixpoint sub_pure (r : regex) (f : mobj -> str)
                  (pre rest : str) (skip : nat) : str :=
  match rest with
  | [] =>
      match skip, match_at r pre [] with
      | O, Some m => f m
      | _, _ => []
      end
  | c :: rest' =>
      match skip with
      | S n => sub_pure r f (c :: pre) rest' n
      | O =>
          match match_at r pre rest with
          | Some m =>
              match m_text m with
              | [] => f m ++ c :: sub_pure r f (c :: pre) rest' 0
              | _ :: t => f m ++ sub_pure r f (c :: pre) rest' (length t)
              end
          | None => c :: sub_pure r f (c :: pre) rest' 0
          end
      end
  end.

Definition re_sub (r : regex) (f : mobj -> str) (s : str) : str :=
  sub_pure r f [] s 0.

(** Pattern builders. *)
Definition one (c : char) : char -> bool := fun x => x =? c.
Definition any_but_newline : char -> bool := fun x => negb (x =? LF).

Fixpoint seqs (l : list regex) : regex :=
  match l with
  | [] => Eps
  | [r] => r
  | r :: l' => Seq r (seqs l')
  end.

Definition Lit (s : str) : regex := seqs (List.map (fun c => Chr (one c)) s).
Definition Plus (p : char -> bool) : regex := Seq (Chr p) (Star p).

End Re.

Import Py Re.

(** The value of a group that takes part in every match of its pattern. *)
Definition grp (n : nat) (m : mobj) : str :=
  match group n (m_groups m) with
  | Some s => s
  | None => []
  end.

(** Python's [a or b] on two optional strings: [a] when it is neither
    [None] nor empty, [b] otherwise. *)
Definition py_or (a b : option str) : option str :=
  match a with
  | Some (_ :: _) => a
  | _ => b
  end.

(** ** Artifact sanitizer: [_remove_ai_artifacts] *)

(** Pattern: ^Thought for \d+ seconds\n *)
Definition thought_re : regex :=
  seqs [Bol false; Lit (lit "Thought for "); Plus isdigit;
        Lit (lit " seconds"); Chr (one LF)].

(** Pattern: ^#+\s*.*$ with [re.MULTILINE] *)
Definition first_heading_re : regex :=
  seqs [Bol true; Plus (one (chr "#")); Star isspace;
        Star any_but_newline; Eol true].

(** The [replacements] dict, in insertion order.  The first key is the
    three characters U+00E2 U+2013 U+00A0 of the source file. *)
Definition replacements : list (str * str) :=
  [ ([226; 8211; 160], lit "-");
    ([8209], lit "-");
    ([8210], lit "-");
    ([173], lit "-");
    ([8211], lit "-");
    ([8212], lit "-") ].

(** Pattern: [\u200b-\u200d\ufeff] *)
Definition zero_width_re : regex :=
  Chr (fun c => ((8203 <=? c) && (c <=? 8205)) || (c =? 65279)).

Definition cut_to_first_heading (text : str) : str :=
  match re_search first_heading_re text with
  | Some (_, from_start) => from_start
  | None => text
  end.

Definition _remove_ai_artifacts (text : str) : str :=
  let text := re_sub thought_re (fun _ => []) (strip text) in
  let text := cut_to_first_heading text in
  let text := fold_left (fun t kv => replace (fst kv) (snd kv) t)
                        replacements text in
  let text := re_sub zero_width_re (fun _ => []) text in
  strip text.

(** ** Inline cleaner: [_clean_inline_markdown] *)

Definition star : char := chr "*".
Definition underscore : char := chr "_".
Definition tilde : char := chr "~".
Definition backtick : char := chr "`".
Definition backslash : char := chr "\".

(** Pattern: \*\*(.*?)\*\*|__(.*?)__ *)
Definition bold_re : regex :=
  Alt (seqs [Chr (one star); Chr (one star);
             Group 1 (StarLazy any_but_newline);
             Chr (one star); Chr (one star)])
      (seqs [Chr (one underscore); Chr (one underscore);
             Group 2 (StarLazy any_but_newline);
             Chr (one underscore); Chr (one underscore)]).

(** [content = match.group(1) or match.group(2)], then [len(content)],
    which raises [TypeError] when [content] is [None]; the entry appended
    to [formatting_info] is never read. *)
Definition replace_bold (m : mobj) : result str :=
  match py_or (group 1 (m_groups m)) (group 2 (m_groups m)) with
  | Some content => Ok content
  | None => Raise TypeError
  end.

(** Classes [^*\s] and [^_\s] *)
Definition not_star_space (c : char) : bool := negb (c =? star) && negb (isspace c).
Definition not_us_space (c : char) : bool := negb (c =? underscore) && negb (isspace c).

(** Pattern: (?<!\* )\*([^*\s].*?[^*\s])\*(?!\* )|(?<!_)_([^_\s].*?[^_\s])_(?!_) *)
Definition italic_re : regex :=
  Alt (seqs [NotBehind (one star); Chr (one star);
             Group 1 (seqs [Chr not_star_space; StarLazy any_but_newline;
                            Chr not_star_space]);
             Chr (one star); NotAhead (one star)])
      (seqs [NotBehind (one underscore); Chr (one underscore);
             Group 2 (seqs [Chr not_us_space; StarLazy any_but_newline;
                            Chr not_us_space]);
             Chr (one underscore); NotAhead (one underscore)]).

Definition replace_italic (m : mobj) : result str :=
  match py_or (group 1 (m_groups m)) (group 2 (m_groups m)) with
  | Some content => Ok content
  | None => Raise TypeError
  end.

(** Pattern: ~~(.*?)~~ *)
Definition strike_re : regex :=
  seqs [Chr (one tilde); Chr (one tilde);
        Group 1 (StarLazy any_but_newline);
        Chr (one tilde); Chr (one tilde)].

(** Pattern: `([^`]+)` *)
Definition code_re : regex :=
  seqs [Chr (one backtick);
        Group 1 (Plus (fun c => negb (c =? backtick)));
        Chr (one backtick)].

(** Pattern: \[([^\]]+)\]\(([^)]+)\) *)
Definition link_re : regex :=
  seqs [Chr (one (chr "["));
        Group 1 (Plus (fun c => negb (c =? chr "]")));
        Chr (one (chr "]")); Chr (one (chr "("));
        Group 2 (Plus (fun c => negb (c =? chr ")")));
        Chr (one (chr ")"))].

(** [f"{text_part} ({url_part})"] *)
Definition replace_links (m : mobj) : str :=
  grp 1 m ++ lit " (" ++ grp 2 m ++ lit ")".

(** Patterns: [<>] and \\\* and \\_ and \s+ *)
Definition angle_re : regex := Chr (fun c => (c =? chr "<") || (c =? chr ">")).
Definition esc_star_re : regex := Seq (Chr (one backslash)) (Chr (one star)).
Definition esc_us_re : regex := Seq (Chr (one backslash)) (Chr (one underscore)).
Definition spaces_re : regex := Plus isspace.

Definition _clean_inline_markdown (text : str) : result str :=
  text <- re_sub_f bold_re replace_bold text ;;
  text <- re_sub_f italic_re replace_italic text ;;
  let text := re_sub strike_re (grp 1) text in
  let text := re_sub code_re (grp 1) text in
  let text := re_sub link_re replace_links text in
  let text := re_sub angle_re (fun _ => []) text in
  let text := re_sub esc_star_re (fun _ => lit "*") text in
  let text := re_sub esc_us_re (fun _ => lit "_") text in
  Ok (strip (re_sub spaces_re (fun _ => lit " ") text)).

(** ** Structural parser *)

(** [_process_table_line] *)
Definition pop_first_if_empty (cells : list str) : list str :=
  match cells with
  | [] :: rest => rest
  | _ => cells
  end.

Definition pop_last_if_empty (cells : list str) : list str :=
  match rev cells with
  | [] :: _ => removelast cells
  | _ => cells
  end.

Definition _process_table_line (line : str) : result str :=
  if contains line (lit "---") then Ok (lit "[TABLE_SEPARATOR]")
  else
    let cells := List.map strip (split (chr "|") line) in
    let cells := pop_first_if_empty cells in
    let cells := pop_last_if_empty cells in
    clean_cells <- mapM _clean_inline_markdown cells ;;
    Ok (lit "[TABLE_ROW]" ++ join (lit "|") clean_cells).

(** Pattern: ^(#+)\s*(.* ) *)
Definition heading_re : regex :=
  seqs [Bol false; Group 1 (Plus (one (chr "#"))); Star isspace;
        Group 2 (Star any_but_newline)].

(** Pattern: ^[-*_]{3,}$ *)
Definition rule_char (c : char) : bool :=
  (c =? chr "-") || (c =? star) || (c =? underscore).
Definition rule_re : regex :=
  seqs [Bol false; Chr rule_char; Chr rule_char; Chr rule_char;
        Star rule_char; Eol false].

(** Pattern: ^(\s* )([*+-]|\d+\.)\s+(.+) *)
Definition bullet_char (c : char) : bool :=
  (c =? star) || (c =? chr "+") || (c =? chr "-").
Definition list_re : regex :=
  seqs [Bol false; Group 1 (Star isspace);
        Group 2 (Alt (Chr bullet_char)
                     (Seq (Plus isdigit) (Chr (one (chr ".")))));
        Plus isspace; Group 3 (Plus any_but_newline)].

(** Pattern: ^>\s* *)
Definition quote_re : regex :=
  seqs [Bol false; Chr (one (chr ">")); Star isspace].

Definition str_of_nat (n : nat) : str := str_of_N (N.of_nat n).

(** [_process_markdown_line].  The Python function returns a string on
    every path that returns (the empty string for a blank line). *)
Definition _process_markdown_line (line : str) : result str :=
  match strip line with
  | [] => Ok []
  | _ =>
  match re_match heading_re line with
  | Some m =>
      let level := length (grp 1 m) in
      let title := strip (grp 2 m) in
      clean_title <- _clean_inline_markdown title ;;
      Ok (lit "[HEADING_" ++ str_of_nat level ++ lit "]" ++ clean_title)
  | None =>
  match re_match rule_re (strip line) with
  | Some _ => Ok (lit "[HORIZONTAL_RULE]")
  | None =>
  match re_match list_re line with
  | Some m =>
      let indent := grp 1 m in
      let marker := grp 2 m in
      let content := grp 3 m in
      let level := Nat.div (length indent) 2 in
      let is_numbered := endswith marker (lit ".") in
      clean_content <- _clean_inline_markdown content ;;
      let list_type := if is_numbered then lit "NUMBERED" else lit "BULLET" in
      Ok (lit "[LIST_" ++ list_type ++ lit "_" ++ str_of_nat level ++ lit "]"
          ++ clean_content)
  | None =>
  if startswith line (lit ">") then
    let quote_text := re_sub quote_re (fun _ => []) line in
    clean_quote <- _clean_inline_markdown quote_text ;;
    Ok (lit "[BLOCKQUOTE]" ++ clean_quote)
  else if contains line (lit "|") && startswith (strip line) (lit "|") then
    _process_table_line line
  else
    clean_line <- _clean_inline_markdown line ;;
    Ok (lit "[PARAGRAPH]" ++ clean_line)
  end end end end.

(** [_parse_markdown_structure]: the loop state and one iteration. *)
Module Parser.
Record state := mk {
  structured_lines : list str;
  in_code_block : bool;
  code_block_content : list str
}.

Definition init : state := mk [] false [].

Definition emit_code_block (st : state) : list str :=
  structured_lines st ++ [lit "[CODE_BLOCK_START]"]
    ++ code_block_content st ++ [lit "[CODE_BLOCK_END]"].

Definition step (st : state) (line0 : str) : result state :=
  let line := rstrip line0 in
  if startswith line (lit "```") then
    if in_code_block st then
      Ok (mk (match code_block_content st with
              | [] => structured_lines st
              | _ => emit_code_block st
              end) false [])
    else Ok (mk (structured_lines st) true (code_block_content st))
  else if in_code_block st then
    Ok (mk (structured_lines st) true (code_block_content st ++ [line]))
  else
    processed_line <- _process_markdown_line line ;;
    Ok (mk (structured_lines st ++ [processed_line])
           (in_code_block st) (code_block_content st)).

Fixpoint loop (lines : list str) (st : state) : result state :=
  match lines with
  | [] => Ok st
  | line :: lines' => st' <- step st line ;; loop lines' st'
  end.

Definition finish (st : state) : list str :=
  if in_code_block st &&
     match code_block_content st with [] => false | _ => true end
  then emit_code_block st
  else structured_lines st.
End Parser.

Definition parse_lines (lines : list str) : result (list str) :=
  st <- Parser.loop lines Parser.init ;; Ok (Parser.finish st).

Definition _parse_markdown_structure (text : str) : result str :=
  ls <- parse_lines (split LF text) ;; Ok (join [LF] ls).

Definition _sanitize_and_parse_markdown (text : str) : result str :=
  _parse_markdown_structure (_remove_ai_artifacts text).

(** ** Patterns shared by the two renderers *)

(** Pattern: \[HEADING_(\d+)\](.* ) *)
Definition heading_line_re : regex :=
  seqs [Lit (lit "[HEADING_"); Group 1 (Plus isdigit); Chr (one (chr "]"));
        Group 2 (Star any_but_newline)].

(** Pattern: \[LIST_(BULLET|NUMBERED)_(\d+)\](.* ) *)
Definition list_line_re : regex :=
  seqs [Lit (lit "[LIST_");
        Group 1 (Alt (Lit (lit "BULLET")) (Lit (lit "NUMBERED")));
        Chr (one (chr "_")); Group 2 (Plus isdigit); Chr (one (chr "]"));
        Group 3 (Star any_but_newline)].

(** [content.strip().split("\n")], the first statement of both renderers. *)
Definition content_lines (content : str) : list str :=
  split LF (strip content).

(** [not s.strip()] *)
Definition blank (s : str) : bool :=
  match strip s with [] => true | _ => false end.

(** ** Page renderer: [_convert_structured_content_to_html] *)

Module Html.

(** [_finalize_html_table] *)
Definition row_cells (tag : str) (row : list str) : str :=
  flat_map (fun cell => lit "<" ++ tag ++ lit ">" ++ cell
                        ++ lit "</" ++ tag ++ lit ">") row.

Definition _finalize_html_table (table_rows : list (list str)) : str :=
  match table_rows with
  | [] => []
  | header :: body =>
      lit "<table><thead><tr>" ++ row_cells (lit "th") header
      ++ lit "</tr></thead><tbody>"
      ++ flat_map (fun row => lit "<tr>" ++ row_cells (lit "td") row
                              ++ lit "</tr>") body
      ++ lit "</tbody></table>"
  end.

(** The value of [in_list]: [None], ["ul"] or ["ol"]. *)
Inductive list_tag := UL | OL.

Definition tag_name (t : list_tag) : str :=
  match t with UL => lit "ul" | OL => lit "ol" end.

Definition tag_eqb (a b : list_tag) : bool :=
  match a, b with UL, UL | OL, OL => true | _, _ => false end.

Record state := mk {
  html_lines : list str;
  in_list : option list_tag;
  list_level : Z;
  in_table : bool;
  table_rows : list (list str);
  in_code_block : bool;
  code_lines : list str
}.

Definition init : state := mk [] None (-1)%Z false [] false [].

(** [<pre><code>...</code></pre>] for the buffered code lines *)
Definition pre_code (lines : list str) : str :=
  lit "<pre><code>" ++ escape (join [LF] lines) ++ lit "</code></pre>".

(** [if in_list: html_lines.append(f"</{in_list}>"); in_list = None] *)
Definition close_list (st : state) : state :=
  match in_list st with
  | Some t =>
      mk (html_lines st ++ [lit "</" ++ tag_name t ++ lit ">"]) None
         (list_level st) (in_table st) (table_rows st)
         (in_code_block st) (code_lines st)
  | None => st
  end.

(** [if in_table: html_lines.append(self._finalize_html_table(table_rows));
    in_table = False; table_rows = []] *)
Definition flush_table (st : state) : state :=
  if in_table st then
    mk (html_lines st ++ [_finalize_html_table (table_rows st)]) (in_list st)
       (list_level st) false [] (in_code_block st) (code_lines st)
  else st.

Definition append (st : state) (l : str) : state :=
  mk (html_lines st ++ [l]) (in_list st) (list_level st) (in_table st)
     (table_rows st) (in_code_block st) (code_lines st).

Definition level_differs (level : N) (l : Z) : bool :=
  negb (Z.of_N level =? l)%Z.

Definition tag_differs (cur : option list_tag) (t : list_tag) : bool :=
  match cur with
  | Some c => negb (tag_eqb c t)
  | None => true
  end.

(** One iteration of the [for line in lines] loop. *)
Definition step (st : state) (line : str) : state :=
  if str_eqb line (lit "[CODE_BLOCK_START]") then
    mk (html_lines st) (in_list st) (list_level st) (in_table st)
       (table_rows st) true []
  else if str_eqb line (lit "[CODE_BLOCK_END]") then
    mk (match code_lines st with
        | [] => html_lines st
        | _ => html_lines st ++ [pre_code (code_lines st)]
        end)
       (in_list st) (list_level st) (in_table st) (table_rows st) false []
  else if in_code_block st then
    mk (html_lines st) (in_list st) (list_level st) (in_table st)
       (table_rows st) true (code_lines st ++ [line])
  else if startswith line (lit "[HEADING_") then
    let st := flush_table (close_list st) in
    match re_match heading_line_re line with
    | Some m =>
        let level := int (grp 1 m) in
        let text := grp 2 m in
        let h := str_of_N (N.min level 6) in
        append st (lit "<h" ++ h ++ lit ">" ++ escape text
                   ++ lit "</h" ++ h ++ lit ">")
    | None => st
    end
  else if str_eqb line (lit "[HORIZONTAL_RULE]") then
    append (flush_table (close_list st)) (lit "<hr>")
  else if startswith line (lit "[LIST_") then
    let st := flush_table st in
    match re_match list_line_re line with
    | Some m =>
        let list_type := grp 1 m in
        let level := int (grp 2 m) in
        let text := grp 3 m in
        let new_list_tag := if str_eqb list_type (lit "BULLET") then UL else OL in
        let st :=
          if tag_differs (in_list st) new_list_tag
             || level_differs level (list_level st)
          then
            let st := close_list st in
            mk (html_lines st ++ [lit "<" ++ tag_name new_list_tag ++ lit ">"])
               (Some new_list_tag) (Z.of_N level) (in_table st) (table_rows st)
               (in_code_block st) (code_lines st)
          else st in
        append st (lit "<li>" ++ escape text ++ lit "</li>")
    | None => st
    end
  else if startswith line (lit "[BLOCKQUOTE]") then
    let st := flush_table (close_list st) in
    let text := slice_from 12 line in
    append st (lit "<blockquote><p>" ++ escape text ++ lit "</p></blockquote>")
  else if startswith line (lit "[TABLE_") then
    let st := close_list st in
    if str_eqb line (lit "[TABLE_SEPARATOR]") then st
    else if startswith line (lit "[TABLE_ROW]") then
      let rows := if in_table st then table_rows st else [] in
      let row_content := slice_from 11 line in
      let cells := split (chr "|") row_content in
      mk (html_lines st) (in_list st) (list_level st) true
         (rows ++ [List.map (fun cell => escape (strip cell)) cells])
         (in_code_block st) (code_lines st)
    else st
  else if startswith line (lit "[PARAGRAPH]") then
    let st := flush_table (close_list st) in
    let text := slice_from 11 line in
    if blank text then st
    else append st (lit "<p>" ++ escape text ++ lit "</p>")
  else st.

Definition loop (lines : list str) (st : state) : state :=
  fold_left step lines st.

(** The statements after the loop ("Close any remaining open tags"). *)
Definition finish (st : state) : list str :=
  let out := html_lines st in
  let out := match in_list st with
             | Some t => out ++ [lit "</" ++ tag_name t ++ lit ">"]
             | None => out
             end in
  let out := if in_table st
             then out ++ [_finalize_html_table (table_rows st)]
             else out in
  if in_code_block st && match code_lines st with [] => false | _ => true end
  then out ++ [pre_code (code_lines st)]
  else out.

Definition render_lines (lines : list str) : list str :=
  finish (loop lines init).

End Html.

Definition _convert_structured_content_to_html (content : str) : str :=
  join [LF] (Html.render_lines (content_lines content)).

(** ** Document renderer: [_add_structured_content_to_docx]

    The python-docx document is modelled by the styles it defines, each
    under the name by which [doc.styles] finds it, and by the ordered
    elements added to its body; an element records its text and the part
    of the formatting set by the source that the properties speak of.
    The document is one a word processor or python-docx wrote, with the
    page layout python-docx reads when it adds a table.  The calls into
    python-docx can raise, and an exception leaves the renderer at once:
    - assigning a style by name raises [KeyError] when the document has no
      style of that name and [ValueError] when the style is of another
      type;
    - the text of a run or of a table cell is stored through lxml, which
      raises [ValueError] on a character XML cannot hold.  Which
      characters those are is lxml's decision, not this program's: the
      renderer takes it as the parameter [xml_char].  python-docx itself
      turns a tab into a tab element and a newline or carriage return
      into a break, so these three never reach lxml. *)

Module Docx.

Inductive alignment := LEFT | CENTER.

Inductive style_type := PARAGRAPH | CHARACTER | TABLE | LIST.

Definition style_type_eqb (a b : style_type) : bool :=
  match a, b with
  | PARAGRAPH, PARAGRAPH | CHARACTER, CHARACTER
  | TABLE, TABLE | LIST, LIST => true
  | _, _ => false
  end.

Record cell := mkcell {
  cell_text : str;
  cell_bold : bool;
  cell_fill : option str
}.

Inductive element :=
| Heading (style_level : N) (text : str) (bold : bool)
          (size_pt : N) (space_before_pt : N)
| Paragraph (text : str) (italic : bool) (align : alignment)
| ListItem (style : str) (text : str) (left_indent_emu : option N)
| Blockquote (text : str) (italic : bool)
| CodeBlock (content : str) (font : str)
| Rule (text : str) (align : alignment)
| Table (rows : list (list cell)).

Record document := mkdoc {
  styles : list (str * style_type);
  body : list element
}.

Definition add (doc : document) (e : element) : document :=
  mkdoc (styles doc) (body doc ++ [e]).

(** [name in doc.styles] *)
Definition has_style (doc : document) (name : str) : bool :=
  existsb (fun s => str_eqb (fst s) name) (styles doc).

(** [paragraph.style = name] and [table.style = name] *)
Definition use_style (doc : document) (name : str) (t : style_type)
  : result unit :=
  match find (fun s => str_eqb (fst s) name) (styles doc) with
  | None => Raise KeyError
  | Some s => if style_type_eqb (snd s) t then Ok tt else Raise ValueError
  end.

(** [font_sizes.get(level, 10)] with
    [font_sizes = {1: 18, 2: 16, 3: 14, 4: 12, 5: 11, 6: 10}] *)
Definition font_size (level : N) : N :=
  match level with
  | 1 => 18 | 2 => 16 | 3 => 14 | 4 => 12 | 5 => 11 | 6 => 10
  | _ => 10
  end.

(** The style [doc.add_heading(level=k)] assigns. *)
Definition heading_style (k : N) : str :=
  if k =? 0 then lit "Title" else lit "Heading " ++ str_of_N k.

(** [Inches(0.5 * (level + 1))], in English Metric Units: the level is
    converted to a float, halved (exactly), multiplied by the 914400 EMU
    of an inch and truncated to an integer.  The conversion raises
    [OverflowError] when the level is too large for a float, and so does
    the truncation when the product is infinite. *)
Definition list_indent (level : N) : result N :=
  f <- float_of_int (level + 1) ;;
  let emu := round53 (f * 457200) in
  if finite emu then Ok emu else Raise OverflowError.

Section Library.

(** The characters lxml accepts in element text. *)
Variable xml_char : char -> bool.

(** [paragraph.add_run(text)] and [cell.text = text] succeed. *)
Definition run_text_ok (text : str) : bool :=
  forallb (fun c => (c =? 9) || (c =? LF) || (c =? 13) || xml_char c) text.

(** The element [e], whose run holds [text], is added unless the run is
    refused. *)
Definition add_with_run (doc : document) (text : str) (e : element)
  : result document :=
  if run_text_ok text then Ok (add doc e) else Raise ValueError.

Definition _add_heading_to_docx (doc : document) (level : N) (text : str)
  : result document :=
  let k := N.min level 6 in
  _ <- use_style doc (heading_style k) PARAGRAPH ;;
  add_with_run doc (strip text)
    (Heading k (strip text) true (font_size level)
             (if level =? 1 then 12 else 6)).

Definition _add_clean_paragraph_to_docx (doc : document) (text : str)
  : result document :=
  let clean_text := strip text in
  if startswith clean_text (lit "_") && endswith clean_text (lit "_")
     && (2 <? length clean_text)%nat
  then add_with_run doc (slice_1_m1 clean_text)
         (Paragraph (slice_1_m1 clean_text) true LEFT)
  else add_with_run doc clean_text (Paragraph clean_text false LEFT).

Definition _add_list_item_to_docx (doc : document) (text : str)
                                  (is_numbered : bool) (level : N)
  : result document :=
  let style_name := if is_numbered then lit "List Number"
                    else lit "List Bullet" in
  let style_name := if has_style doc style_name
                    then style_name else lit "Normal" in
  _ <- use_style doc style_name PARAGRAPH ;;
  _ <- (if run_text_ok (strip text) then Ok tt else Raise ValueError) ;;
  left_indent <- (if 0 <? level
                  then emu <- list_indent level ;; Ok (Some emu)
                  else Ok None) ;;
  Ok (add doc (ListItem style_name (strip text) left_indent)).

Definition _add_blockquote_to_docx (doc : document) (text : str)
  : result document :=
  add_with_run doc (strip text) (Blockquote (strip text) true).

Definition _add_code_block_to_docx (doc : document) (code_content : str)
  : result document :=
  add_with_run doc code_content (CodeBlock code_content (lit "Courier New")).

(** The rule is fifty copies of the three characters U+00E2 U+201D U+20AC
    of the source file. *)
Definition rule_text : str := concat (repeat [226; 8221; 8364] 50).

Definition _add_horizontal_rule (doc : document) : result document :=
  add_with_run doc rule_text (Rule rule_text CENTER).

(** [_finalize_docx_table].  The header row has exactly [num_cols] cells;
    a body row is created with [num_cols] empty cells, of which the first
    [len(row_data)] are filled. *)
Definition header_cells (row : list str) : list cell :=
  List.map (fun t => mkcell (strip t) true (Some (lit "D9E2F3"))) row.

Fixpoint body_cells (num_cols : nat) (shaded : bool) (row : list str)
  : list cell :=
  match num_cols with
  | O => []
  | S n =>
      match row with
      | [] => mkcell [] false None :: body_cells n shaded []
      | t :: row' =>
          mkcell (strip t) false
                 (if shaded then Some (lit "F9F9F9") else None)
          :: body_cells n shaded row'
      end
  end.

(** Data rows are numbered from 1; the rows with an even number are
    shaded. *)
Fixpoint body_rows (num_cols : nat) (r_idx : nat) (rows : list (list str))
  : list (list cell) :=
  match rows with
  | [] => []
  | row :: rows' =>
      body_cells num_cols (Nat.even r_idx) row
      :: body_rows num_cols (S r_idx) rows'
  end.

(** Every [cell.text = ...] of the table succeeds.  Source cells beyond
    the header width are never assigned, so they are not examined. *)
Definition cells_ok (rows : list (list cell)) : bool :=
  forallb (forallb (fun c => run_text_ok (cell_text c))) rows.

Definition _finalize_docx_table (doc : document) (table_rows : list (list str))
  : result document :=
  match table_rows with
  | [] => Ok doc
  | header :: data =>
      match header with
      | [] => Ok doc
      | _ =>
          _ <- use_style doc (lit "Table Grid") TABLE ;;
          let rows := header_cells header
                      :: body_rows (length header) 1 data in
          if cells_ok rows then Ok (add doc (Table rows))
          else Raise ValueError
      end
  end.

Inductive list_kind := BULLET | NUMBERED.

Definition kind_eqb (a b : list_kind) : bool :=
  match a, b with BULLET, BULLET | NUMBERED, NUMBERED => true | _, _ => false end.

Record state := mk {
  doc : document;
  current_list_type : option list_kind;
  list_level : Z;
  in_table : bool;
  table_rows : list (list str);
  in_code_block : bool;
  code_lines : list str
}.

Definition init (d : document) : state := mk d None (-1)%Z false [] false [].

(** [if current_list_type: current_list_type = None] *)
Definition close_list (st : state) : state :=
  mk (doc st) None (list_level st) (in_table st) (table_rows st)
     (in_code_block st) (code_lines st).

Definition with_doc (st : state) (d : document) : state :=
  mk d (current_list_type st) (list_level st) (in_table st) (table_rows st)
     (in_code_block st) (code_lines st).

(** [if in_table: self._finalize_docx_table(doc, table_rows);
    in_table = False; table_rows = []] *)
Definition flush_table (st : state) : result state :=
  if in_table st then
    d <- _finalize_docx_table (doc st) (table_rows st) ;;
    Ok (mk d (current_list_type st) (list_level st) false []
           (in_code_block st) (code_lines st))
  else Ok st.

Definition kind_differs (cur : option list_kind) (k : list_kind) : bool :=
  match cur with
  | Some c => negb (kind_eqb c k)
  | None => true
  end.

(** One iteration of the [for line in lines] loop. *)
Definition step (st : state) (line : str) : result state :=
  if str_eqb line (lit "[CODE_BLOCK_START]") then
    Ok (mk (doc st) (current_list_type st) (list_level st) (in_table st)
           (table_rows st) true [])
  else if str_eqb line (lit "[CODE_BLOCK_END]") then
    d <- match code_lines st with
         | [] => Ok (doc st)
         | _ => _add_code_block_to_docx (doc st) (join [LF] (code_lines st))
         end ;;
    Ok (mk d (current_list_type st) (list_level st) (in_table st)
           (table_rows st) false [])
  else if in_code_block st then
    Ok (mk (doc st) (current_list_type st) (list_level st) (in_table st)
           (table_rows st) true (code_lines st ++ [line]))
  else if startswith line (lit "[HEADING_") then
    st <- flush_table (close_list st) ;;
    match re_match heading_line_re line with
    | Some m =>
        d <- _add_heading_to_docx (doc st) (int (grp 1 m)) (grp 2 m) ;;
        Ok (with_doc st d)
    | None => Ok st
    end
  else if str_eqb line (lit "[HORIZONTAL_RULE]") then
    st <- flush_table (close_list st) ;;
    d <- _add_horizontal_rule (doc st) ;;
    Ok (with_doc st d)
  else if startswith line (lit "[LIST_") then
    st <- flush_table st ;;
    match re_match list_line_re line with
    | Some m =>
        let list_type := if str_eqb (grp 1 m) (lit "NUMBERED")
                         then NUMBERED else BULLET in
        let level := int (grp 2 m) in
        let text := grp 3 m in
        let is_numbered := kind_eqb list_type NUMBERED in
        let st :=
          if kind_differs (current_list_type st) list_type
             || negb (Z.of_N level =? list_level st)%Z
          then mk (doc st) (Some list_type) (Z.of_N level) (in_table st)
                  (table_rows st) (in_code_block st) (code_lines st)
          else st in
        d <- _add_list_item_to_docx (doc st) text is_numbered level ;;
        Ok (with_doc st d)
    | None => Ok st
    end
  else if startswith line (lit "[BLOCKQUOTE]") then
    st <- flush_table (close_list st) ;;
    d <- _add_blockquote_to_docx (doc st) (slice_from 12 line) ;;
    Ok (with_doc st d)
  else if startswith line (lit "[TABLE_") then
    let st := close_list st in
    if str_eqb line (lit "[TABLE_SEPARATOR]") then Ok st
    else if startswith line (lit "[TABLE_ROW]") then
      let rows := if in_table st then table_rows st else [] in
      let row_content := slice_from 11 line in
      let cells := List.map strip (split (chr "|") row_content) in
      Ok (mk (doc st) (current_list_type st) (list_level st) true
             (rows ++ [cells]) (in_code_block st) (code_lines st))
    else Ok st
  else if startswith line (lit "[PARAGRAPH]") then
    st <- flush_table (close_list st) ;;
    let text := slice_from 11 line in
    if blank text then Ok st
    else
      d <- _add_clean_paragraph_to_docx (doc st) text ;;
      Ok (with_doc st d)
  else Ok st.

Fixpoint loop (lines : list str) (st : state) : result state :=
  match lines with
  | [] => Ok st
  | line :: lines' => st' <- step st line ;; loop lines' st'
  end.

(** The statements after the loop ("Close any remaining open elements"). *)
Definition finish (st : state) : result document :=
  d <- (if in_table st
        then _finalize_docx_table (doc st) (table_rows st)
        else Ok (doc st)) ;;
  if in_code_block st && match code_lines st with [] => false | _ => true end
  then _add_code_block_to_docx d (join [LF] (code_lines st))
  else Ok d.

Definition render_lines (d : document) (lines : list str) : result document :=
  st <- loop lines (init d) ;; finish st.

End Library.

End Docx.

Definition _add_structured_content_to_docx (xml_char : char -> bool)
    (doc : Docx.document) (content : str) : result Docx.document :=
  Docx.render_lines xml_char doc (content_lines content).

(** ** The export path

    [action] sanitizes and parses the assistant message once and hands the
    result to each renderer. *)

Definition html_of_text (raw_content : str) : result str :=
  content <- _sanitize_and_parse_markdown raw_content ;;
  Ok (_convert_structured_content_to_html content).

Definition docx_of_text (xml_char : char -> bool) (doc : Docx.document)
    (raw_content : str) : result Docx.document :=
  content <- _sanitize_and_parse_markdown raw_content ;;
  _add_structured_content_to_docx xml_char doc content.

(** The check lxml applies to element text: no control character below
    U+0020 other than tab, newline and carriage return, no surrogate, and
    neither U+FFFE nor U+FFFF. *)
Definition lxml_char (c : char) : bool :=
  ((c =? 9) || (c =? LF) || (c =? 13) || (32 <=? c))
  && negb ((55296 <=? c) && (c <=? 57343))
  && negb ((c =? 65534) || (c =? 65535)).

(** A fresh python-docx document: of the styles of its default template,
    those the renderer asks for. *)
Definition new_document : Docx.document :=
  Docx.mkdoc
    [ (lit "Normal", Docx.PARAGRAPH); (lit "Title", Docx.PARAGRAPH);
      (lit "Heading 1", Docx.PARAGRAPH); (lit "Heading 2", Docx.PARAGRAPH);
      (lit "Heading 3", Docx.PARAGRAPH); (lit "Heading 4", Docx.PARAGRAPH);
      (lit "Heading 5", Docx.PARAGRAPH); (lit "Heading 6", Docx.PARAGRAPH);
      (lit "List Bullet", Docx.PARAGRAPH); (lit "List Number", Docx.PARAGRAPH);
      (lit "Table Grid", Docx.TABLE) ]
    [].

(** ** Vocabulary of the properties *)

(** A text given by its lines: ["\n".join(lines)]. *)
Definition unlines (lines : list str) : str := join [LF] lines.

(** The marker lines of the structured format. *)
Definition CODE_START : str := lit "[CODE_BLOCK_START]".
Definition CODE_END : str := lit "[CODE_BLOCK_END]".
Definition SEPARATOR : str := lit "[TABLE_SEPARATOR]".
Definition FENCE : str := lit "```".

(** The structured lines of the block kinds that end a table run in both
    renderers: heading, rule, list item, blockquote and paragraph. *)
Definition closes_table (line : str) : bool :=
  startswith line (lit "[HEADING_")
  || str_eqb line (lit "[HORIZONTAL_RULE]")
  || startswith line (lit "[LIST_")
  || startswith line (lit "[BLOCKQUOTE]")
  || startswith line (lit "[PARAGRAPH]").

(** The closing tag the page renderer emits for an open list. *)
Definition closing_tag (t : Html.list_tag) : str :=
  lit "</" ++ Html.tag_name t ++ lit ">".
Definition opening_tag (t : Html.list_tag) : str :=
  lit "<" ++ Html.tag_name t ++ lit ">".

Definition is_list_open (l : str) : bool :=
  str_eqb l (lit "<ul>") || str_eqb l (lit "<ol>").
Definition is_list_close (l : str) : bool :=
  str_eqb l (lit "</ul>") || str_eqb l (lit "</ol>").

Definition count (f : str -> bool) (l : list str) : nat :=
  length (filter f l).

(** The page renderer, reading [line] in state [st], emits the accumulated
    rows of [st] as one table -- after the closing tag of a list that was
    still open, before anything [line] itself produces -- and leaves no
    table open. *)
Definition html_flushes_table (st : Html.state) (line : str) : Prop :=
  exists before after,
    Html.html_lines (Html.step st line)
    = Html.html_lines st ++ before
      ++ [Html._finalize_html_table (Html.table_rows st)] ++ after
    /\ (before = []
        \/ exists t, Html.in_list st = Some t /\ before = [closing_tag t])
    /\ Html.in_table (Html.step st line) = false
    /\ Html.table_rows (Html.step st line) = [].

(** The state of the document renderer once the accumulated rows are in
    the document [d]. *)
Definition docx_flushed (st : Docx.state) (d : Docx.document) : Docx.state :=
  Docx.mk d (Docx.current_list_type st) (Docx.list_level st) false []
          (Docx.in_code_block st) (Docx.code_lines st).

(** The same for the document renderer.  Reading [line] in state [st]
    starts by finalizing the accumulated rows.  When python-docx refuses
    the table (no table style, a cell text it cannot store) the renderer
    raises that exception.  Otherwise the table is added and [line] is
    processed as if no table had been open: whenever the renderer gets
    past [line], the table precedes anything [line] itself adds and no
    table is left open. *)
Definition docx_flushes_table (xml_char : char -> bool) (st : Docx.state)
    (line : str) : Prop :=
  match Docx._finalize_docx_table xml_char (Docx.doc st) (Docx.table_rows st)
  with
  | Raise e => Docx.step xml_char st line = Raise e
  | Ok d =>
      Docx.step xml_char st line = Docx.step xml_char (docx_flushed st d) line
      /\ forall st',
           Docx.step xml_char st line = Ok st' ->
           (exists after,
              Docx.body (Docx.doc st') = Docx.body d ++ after)
           /\ Docx.in_table st' = false
           /\ Docx.table_rows st' = []
  end.

(** Concrete renderer states used to instantiate the properties: one table
    row has been read and its table is still open. *)
Definition html_row_open : Html.state :=
  Html.step Html.init (lit "[TABLE_ROW]A|B").
Definition docx_row_open : Docx.state :=
  match Docx.step lxml_char (Docx.init new_document) (lit "[TABLE_ROW]A|B")
  with
  | Ok st => st
  | Raise _ => Docx.init new_document
  end.

(** The claim's words for the underscore convention: the text is one
    leading underscore, a non-empty inner text (so the whole is longer than
    two characters) and one trailing underscore. *)
Definition wrapped_in_underscores (clean inner : str) : Prop :=
  clean = lit "_" ++ inner ++ lit "_" /\ inner <> [].

(** A buffered code line that is not one of the two code markers. *)
Definition not_code_marker (l : str) : bool :=
  negb (str_eqb l CODE_START) && negb (str_eqb l CODE_END).

(** The list tags of the page renderer's output so far are balanced up to
    the list that is still open. *)
Definition list_tags_pending (lines : list str) (open_list : option Html.list_tag)
  : Prop :=
  count is_list_open lines
  = (count is_list_close lines
     + match open_list with Some _ => 1 | None => 0 end)%nat.

(** A line that is neither an opening nor a closing list tag. *)
Definition neutral (l : str) : Prop :=
  is_list_open l = false /\ is_list_close l = false.

(** The elements [_finalize_docx_table] adds for a run of rows. *)
Definition docx_table_elements (rows : list (list str)) : list Docx.element :=
  match rows with
  | [] => []
  | header :: data =>
      match header with
      | [] => []
      | _ => [Docx.Table (Docx.header_cells header
                          :: Docx.body_rows (length header) 1 data)]
      end
  end.

(** The heading cut on a text given by its lines: the lines from the first
    one that begins with a hash sign, or all of them when there is none. *)
Fixpoint from_first_hash (lines : list str) : list str :=
  match lines with
  | [] => []
  | l :: ls => if startswith l (lit "#") then lines else from_first_hash ls
  end.

Definition cut_lines (lines : list str) : list str :=
  match from_first_hash lines with
  | [] => lines
  | kept => kept
  end.

(** A list of genuine lines: none contains a newline. *)
Definition no_newline (l : str) : bool := forallb (fun c => negb (c =? LF)) l.

(** The heading pattern as the specification words it: one or more hash signs,
    then a space, then some content. *)
Fixpoint after_hashes (s : str) : str :=
  match s with
  | c :: s' => if c =? chr "#" then after_hashes s' else s
  | [] => []
  end.

Definition spec_heading_line (line : str) : bool :=
  startswith line (lit "#")
  && match after_hashes line with
     | c :: _ :: _ => c =? chr " "
     | _ => false
     end.

(** The characters that open an inline construct of the cleaner: the
    emphasis, strikethrough and code markers and the link bracket. *)
Definition md_delim (c : char) : bool :=
  (c =? star) || (c =? underscore) || (c =? tilde) || (c =? backtick)
  || (c =? chr "[").

Definition no_md_delims (s : str) : bool :=
  forallb (fun c => negb (md_delim c)) s.

Definition angle (c : char) : bool := (c =? chr "<") || (c =? chr ">").

(** The whitespace pass in closed form: every maximal run of whitespace
    becomes one space ([in_run] tells that the run has begun). *)
Fixpoint collapse_ws (in_run : bool) (s : str) : str :=
  match s with
  | [] => []
  | c :: s' =>
      if isspace c
      then if in_run then collapse_ws true s' else 32 :: collapse_ws true s'
      else c :: collapse_ws false s'
  end.

(** Length of the whitespace run at the head of a string. *)
Fixpoint ws_run (s : str) : nat :=
  match s with
  | c :: s' => if isspace c then S (ws_run s') else O
  | [] => O
  end.

(** Every whitespace character is a single space that is not followed by
    another whitespace character. *)
Fixpoint collapsed (s : str) : bool :=
  match s with
  | [] => true
  | c :: s' =>
      (if isspace c
       then (c =? 32) && match s' with
                         | d :: _ => negb (isspace d)
                         | [] => true
                         end
       else true)
      && collapsed s'
  end.

(** The two emphasis delimiters, and text without them. *)
Definition emphasis_delim (c : char) : bool :=
  (c =? star) || (c =? underscore).

Definition no_emphasis (s : str) : bool :=
  forallb (fun c => negb (emphasis_delim c)) s.

(** The tails of a text [a ++ [d; x; d] ++ b] whose only emphasis
    delimiters are the two [d]. *)
Definition span_tail (x d : char) (b rest : str) : Prop :=
  (exists a', no_emphasis a' = true /\ rest = a' ++ d :: x :: d :: b)
  \/ rest = x :: d :: b \/ rest = d :: b \/ no_emphasis rest = true.

(** The characters the passes after the emphasis passes react to, and
    text without them. *)
Definition later_markup (c : char) : bool :=
  (c =? tilde) || (c =? backtick) || (c =? chr "[") || (c =? chr "]")
  || angle c || (c =? backslash).

Definition no_later_markup (s : str) : bool :=
  forallb (fun c => negb (later_markup c)) s.

(** The characters [html.escape] replaces besides the ampersand. *)
Definition html_special (c : char) : bool :=
  (c =? chr "<") || (c =? chr ">") || (c =? 34) || (c =? 39).

(** The zero-width characters and the dash look-alikes the sanitizer
    removes or replaces. *)
Definition zero_width (c : char) : bool :=
  ((8203 <=? c) && (c <=? 8205)) || (c =? 65279).

Definition odd_dash (c : char) : bool :=
  (c =? 8209) || (c =? 8210) || (c =? 173) || (c =? 8211) || (c =? 8212).

(** The two renderers agree on their table and code-block state: same
    flags, same buffered code lines, and the page renderer's rows are the
    document renderer's rows HTML-escaped. *)
Definition containers_in_sync (h : Html.state) (d : Docx.state) : Prop :=
  Html.in_code_block h = Docx.in_code_block d
  /\ Html.code_lines h = Docx.code_lines d
  /\ Html.in_table h = Docx.in_table d
  /\ Html.table_rows h = List.map (List.map escape) (Docx.table_rows d).

(** ** Table helpers of [pdf_generator.py] *)

Module Pdf.

(** [[line.strip() for line in text.split("\n") if line.strip()]] *)
Definition nonblank_lines (text : str) : list str :=
  filter (fun l => match l with [] => false | _ => true end)
         (List.map strip (split LF text)).

Definition is_separator (line : str) : bool :=
  contains line (lit "---") || contains line (lit "===").

(** [_is_markdown_table] *)
Definition _is_markdown_table (text : str) : bool :=
  let lines := nonblank_lines text in
  if (length lines <? 2)%nat then false
  else
    let has_separator :=
      existsb (fun line => contains line (lit "|") && is_separator line) lines in
    let has_pipes :=
      forallb (fun line => contains line (lit "|")) (firstn 3 lines) in
    has_separator && has_pipes.

(** The cells of one line: stripped, the empty ones removed. *)
Definition row_cells (line : str) : list str :=
  filter (fun c => match c with [] => false | _ => true end)
         (List.map strip (split (chr "|") line)).

Fixpoint table_rows (lines : list str) : list (list str) :=
  match lines with
  | [] => []
  | line :: lines' =>
      if is_separator line then table_rows lines'
      else match row_cells line with
           | [] => table_rows lines'
           | cells => cells :: table_rows lines'
           end
  end.

(** [_parse_markdown_table]: [rows if rows else None] *)
Definition _parse_markdown_table (text : str) : option (list (list str)) :=
  match table_rows (nonblank_lines text) with
  | [] => None
  | rows => Some rows
  end.

End Pdf.

(** A well-formed table cell: not empty, stripped, without pipe or
    newline. *)
Definition good_cell (c : str) : Prop :=
  c <> [] /\ strip c = c
  /\ forallb (fun x => negb (x =? chr "|")) c = true
  /\ no_newline c = true.

(** Captures and match objects all of whose characters satisfy [P]. *)
Definition caps_made_of (P : char -> bool) (caps : captures) : Prop :=
  Forall (fun e => forallb P (snd e) = true) caps.

Definition mobj_made_of (P : char -> bool) (m : mobj) : Prop :=
  forallb P (m_text m) = true /\ caps_made_of P (m_groups m).

(** The characters the inline cleaner writes itself. *)
Definition cleaner_writes (P : char -> bool) : Prop :=
  P (chr " ") = true /\ P (chr "(") = true /\ P (chr ")") = true
  /\ P star = true /\ P underscore = true.

(** ** Back to Markdown: [_structured_content_to_markdown]

    The template generator is given Markdown again, rebuilt from the
    structured text line by line. *)

(** Pattern: \[LIST_BULLET_\d+\](.* ) *)
Definition bullet_line_re : regex :=
  seqs [Lit (lit "[LIST_BULLET_"); Plus isdigit; Chr (one (chr "]"));
        Group 1 (Star any_but_newline)].

(** Pattern: \[LIST_NUMBERED_\d+\](.* ) *)
Definition numbered_line_re : regex :=
  seqs [Lit (lit "[LIST_NUMBERED_"); Plus isdigit; Chr (one (chr "]"));
        Group 1 (Star any_but_newline)].

(** One iteration of the loop: the lines appended to [markdown_lines]
    (none for a heading or list marker its pattern does not match).  The
    repetition ["#" * level] can raise: [max_alloc] is the largest count
    the interpreter can carry out.  Every other string built here is at
    most a small multiple of the line in length. *)
Definition markdown_of_line (max_alloc : N) (line : str) : result (list str) :=
  if startswith line (lit "[HEADING_") then
    match re_match heading_line_re line with
    | Some m =>
        let level := int (grp 1 m) in
        let text := grp 2 m in
        hashes <- char_repeat max_alloc (chr "#") level ;;
        Ok [hashes ++ lit " " ++ text]
    | None => Ok []
    end
  else if startswith line (lit "[LIST_BULLET_") then
    match re_match bullet_line_re line with
    | Some m => Ok [lit "- " ++ grp 1 m]
    | None => Ok []
    end
  else if startswith line (lit "[LIST_NUMBERED_") then
    match re_match numbered_line_re line with
    | Some m => Ok [lit "1. " ++ grp 1 m]
    | None => Ok []
    end
  else if startswith line (lit "[PARAGRAPH]") then
    Ok [slice_from 11 line]
  else if startswith line (lit "[TABLE_ROW]") then
    let row_content := slice_from 11 line in
    Ok [lit "| " ++ replace (lit "|") (lit " | ") row_content ++ lit " |"]
  else
    match strip line with
    | [] => Ok [[]]
    | _ => Ok [line]
    end.

Definition _structured_content_to_markdown (max_alloc : N)
    (structured_content : str) : result str :=
  markdown_lines <- mapM (markdown_of_line max_alloc)
                         (split LF structured_content) ;;
  Ok (join [LF] (concat markdown_lines)).

(** The sanitization steps around the heading cut: before it the outer
    whitespace is stripped and a leading "Thought for N seconds" line is
    removed; after it the odd dashes are replaced, the zero-width
    characters are removed and the text is stripped again. *)
Definition before_cut (raw : str) : str :=
  re_sub thought_re (fun _ => []) (strip raw).

Definition after_cut (text : str) : str :=
  strip (re_sub zero_width_re (fun _ => [])
           (fold_left (fun t kv => replace (fst kv) (snd kv) t)
                      replacements text)).

(** * Properties *)

(** ** Strings *)

Lemma str_eqb_refl (a : str) : str_eqb a a = true.
Proof.
  unfold str_eqb. rewrite Nat.eqb_refl. simpl.
  induction a as [|c a IH]; simpl; [reflexivity|].
  now rewrite N.eqb_refl.
Qed.

Lemma startswith_same_length (a b : str) :
  length a = length b -> startswith a b = true -> a = b.
Proof.
  revert a. induction b as [|c b IH]; intros [|d a] Hl H; simpl in *;
    try discriminate; try reflexivity.
  apply andb_true_iff in H as [H1 H2]. apply N.eqb_eq in H1. subst.
  f_equal. apply IH; [lia | assumption].
Qed.

Lemma str_eqb_eq (a b : str) : str_eqb a b = true <-> a = b.
Proof.
  split.
  - unfold str_eqb. intros H. apply andb_true_iff in H as [H1 H2].
    apply Nat.eqb_eq in H1. now apply startswith_same_length.
  - intros ->. apply str_eqb_refl.
Qed.

Lemma str_eqb_neq (a b : str) : str_eqb a b = false <-> a <> b.
Proof.
  split.
  - intros H E. apply str_eqb_eq in E. congruence.
  - intros H. destruct (str_eqb a b) eqn:E; [|reflexivity].
    apply str_eqb_eq in E. contradiction.
Qed.

Lemma startswith_app (p s : str) : startswith (p ++ s) p = true.
Proof.
  induction p as [|c p IH]; simpl; [reflexivity|].
  now rewrite N.eqb_refl.
Qed.

Lemma startswith_inv (s p : str) :
  startswith s p = true -> exists t, s = p ++ t.
Proof.
  revert s. induction p as [|c p IH]; intros s H.
  - now exists s.
  - destruct s as [|d s]; simpl in H; [discriminate|].
    apply andb_true_iff in H as [H1 H2]. apply N.eqb_eq in H1. subst.
    destruct (IH _ H2) as [t ->]. now exists t.
Qed.

(** ** Table runs in the two renderers *)

Lemma closes_table_not_marker (line : str) :
  closes_table line = true ->
  str_eqb line (lit "[CODE_BLOCK_START]") = false
  /\ str_eqb line (lit "[CODE_BLOCK_END]") = false.
Proof.
  intros H. split; apply str_eqb_neq; intros ->; vm_compute in H;
    discriminate.
Qed.

Lemma html_flush_open_table (st : Html.state) :
  Html.in_table st = true ->
  Html.html_lines (Html.flush_table st)
  = Html.html_lines st ++ [Html._finalize_html_table (Html.table_rows st)]
  /\ Html.in_table (Html.flush_table st) = false
  /\ Html.table_rows (Html.flush_table st) = [].
Proof.
  intros H. unfold Html.flush_table. rewrite H. simpl. auto.
Qed.

Lemma html_close_list_lines (st : Html.state) :
  exists before,
    Html.html_lines (Html.close_list st) = Html.html_lines st ++ before
    /\ (before = []
        \/ exists t, Html.in_list st = Some t /\ before = [closing_tag t])
    /\ Html.in_table (Html.close_list st) = Html.in_table st
    /\ Html.table_rows (Html.close_list st) = Html.table_rows st.
Proof.
  unfold Html.close_list. destruct (Html.in_list st) as [t|] eqn:E.
  - exists [closing_tag t]. simpl. repeat split; auto. right. now exists t.
  - exists []. rewrite app_nil_r. auto.
Qed.

(** What every table-closing branch of the page renderer does first. *)
Lemma html_close_then_flush (st : Html.state) :
  Html.in_table st = true ->
  exists before,
    Html.html_lines (Html.flush_table (Html.close_list st))
    = Html.html_lines st ++ before
      ++ [Html._finalize_html_table (Html.table_rows st)]
    /\ (before = []
        \/ exists t, Html.in_list st = Some t /\ before = [closing_tag t])
    /\ Html.in_table (Html.flush_table (Html.close_list st)) = false
    /\ Html.table_rows (Html.flush_table (Html.close_list st)) = [].
Proof.
  intros H. destruct (html_close_list_lines st) as (b & Hl & Hb & Ht & Hr).
  destruct (html_flush_open_table (Html.close_list st)) as (F1 & F2 & F3);
    [congruence|].
  exists b. rewrite F1, Hl, Hr, <- app_assoc. auto.
Qed.

Ltac split_all := repeat split; try reflexivity; try assumption.

Lemma html_step_closes_table (st : Html.state) (line : str) :
  Html.in_code_block st = false ->
  Html.in_table st = true ->
  closes_table line = true ->
  exists before after,
    Html.html_lines (Html.step st line)
    = Html.html_lines st ++ before
      ++ [Html._finalize_html_table (Html.table_rows st)] ++ after
    /\ (before = []
        \/ exists t, Html.in_list st = Some t /\ before = [closing_tag t])
    /\ Html.in_table (Html.step st line) = false
    /\ Html.table_rows (Html.step st line) = [].
Proof.
  intros Hcode Htab Hline.
  destruct (closes_table_not_marker _ Hline) as [M1 M2].
  destruct (html_close_then_flush st Htab) as (b & Hl & Hb & Ht & Hr).
  destruct (html_flush_open_table st Htab) as (F1 & F2 & F3).
  unfold Html.step. rewrite M1, M2, Hcode.
  destruct (startswith line (lit "[HEADING_")) eqn:E1.
  { destruct (re_match heading_line_re line) as [m|].
    - exists b. eexists. simpl. rewrite Hl, <- !app_assoc. split_all.
    - exists b, []. rewrite Hl. split_all. }
  destruct (str_eqb line (lit "[HORIZONTAL_RULE]")) eqn:E2.
  { exists b. eexists. simpl. rewrite Hl, <- !app_assoc. split_all. }
  destruct (startswith line (lit "[LIST_")) eqn:E3.
  { exists []. destruct (re_match list_line_re line) as [m|].
    - match goal with
      | |- context [if ?c then _ else _] => destruct c
      end.
      + unfold Html.close_list.
        destruct (Html.in_list (Html.flush_table st)); simpl;
          rewrite F1, <- !app_assoc; eexists; simpl; split_all; auto.
      + eexists. simpl. rewrite F1, <- !app_assoc. simpl. split_all. auto.
    - exists []. rewrite F1. split_all. auto. }
  destruct (startswith line (lit "[BLOCKQUOTE]")) eqn:E4.
  { exists b. eexists. simpl. rewrite Hl, <- !app_assoc. split_all. }
  unfold closes_table in Hline. rewrite E1, E2, E3, E4 in Hline.
  cbn [orb] in Hline.
  destruct (startswith line (lit "[TABLE_")) eqn:E5.
  { apply startswith_inv in E5 as [t ->]. discriminate. }
  rewrite Hline.
  destruct (blank (slice_from 11 line)).
  - exists b, []. rewrite Hl. split_all.
  - exists b. eexists. simpl. rewrite Hl, <- !app_assoc. split_all.
Qed.

(** What a document-renderer call that returns has done: one element was
    added. *)

Ltac bind_ok H :=
  match type of H with
  | bind ?m _ = Ok _ =>
      let E := fresh "E" in
      destruct m eqn:E; cbn [bind] in H; [|discriminate H]
  end.

Lemma Ok_inj {A} (a b : A) : Ok a = Ok b -> a = b.
Proof. now intros [=]. Qed.

Lemma add_with_run_ok (ok : char -> bool) (doc d : Docx.document)
      (text : str) (e : Docx.element) :
  Docx.add_with_run ok doc text e = Ok d -> d = Docx.add doc e.
Proof.
  unfold Docx.add_with_run. destruct (Docx.run_text_ok ok text);
    [|discriminate]. now intros [=].
Qed.

Lemma add_heading_ok (ok : char -> bool) (doc d : Docx.document)
      (level : N) (text : str) :
  Docx._add_heading_to_docx ok doc level text = Ok d ->
  exists e, d = Docx.add doc e.
Proof.
  unfold Docx._add_heading_to_docx. intros H. bind_ok H.
  apply add_with_run_ok in H. eauto.
Qed.

Lemma add_paragraph_ok (ok : char -> bool) (doc d : Docx.document)
      (text : str) :
  Docx._add_clean_paragraph_to_docx ok doc text = Ok d ->
  exists e, d = Docx.add doc e.
Proof.
  unfold Docx._add_clean_paragraph_to_docx. intros H.
  destruct (_ && _); apply add_with_run_ok in H; eauto.
Qed.

Lemma add_list_item_ok (ok : char -> bool) (doc d : Docx.document)
      (text : str) (is_numbered : bool) (level : N) :
  Docx._add_list_item_to_docx ok doc text is_numbered level = Ok d ->
  exists e, d = Docx.add doc e.
Proof.
  unfold Docx._add_list_item_to_docx. intros H.
  repeat bind_ok H. apply Ok_inj in H. eauto.
Qed.

Lemma finalize_table_ok (ok : char -> bool) (doc d : Docx.document)
      (rows : list (list str)) :
  Docx._finalize_docx_table ok doc rows = Ok d ->
  Docx.body d = Docx.body doc ++ docx_table_elements rows.
Proof.
  unfold Docx._finalize_docx_table, docx_table_elements. intros H.
  destruct rows as [|[|c header] data];
    try (apply Ok_inj in H; subst d; now rewrite app_nil_r).
  bind_ok H. destruct (Docx.cells_ok ok _); [|discriminate].
  apply Ok_inj in H. now subst d.
Qed.

(** Reading a line that closes a table is finalizing the table and then
    reading the line with no table open. *)
Lemma docx_step_flush_first (ok : char -> bool) (st : Docx.state)
      (line : str) :
  Docx.in_code_block st = false ->
  closes_table line = true ->
  Docx.step ok st line
  = (st1 <- Docx.flush_table ok st ;; Docx.step ok st1 line).
Proof.
  intros Hcode Hline.
  destruct (closes_table_not_marker _ Hline) as [M1 M2].
  assert (F : forall s, Docx.in_table s = false ->
                        Docx.flush_table ok s = Ok s)
    by (intros s Hs; unfold Docx.flush_table; now rewrite Hs).
  unfold Docx.flush_table at 1.
  destruct (Docx.in_table st) eqn:T; [|cbn [bind]; reflexivity].
  destruct (Docx._finalize_docx_table ok (Docx.doc st) (Docx.table_rows st))
    as [d|e] eqn:Fin; cbn [bind].
  - unfold Docx.step. rewrite M1, M2, Hcode.
    cbn [Docx.in_code_block].
    unfold closes_table in Hline.
    destruct (startswith line (lit "[HEADING_")).
    { unfold Docx.flush_table, Docx.close_list.
      cbn [Docx.in_table Docx.doc Docx.table_rows Docx.current_list_type
           Docx.list_level Docx.in_code_block Docx.code_lines].
      rewrite T, Fin, ?Hcode. reflexivity. }
    destruct (str_eqb line (lit "[HORIZONTAL_RULE]")).
    { unfold Docx.flush_table, Docx.close_list.
      cbn [Docx.in_table Docx.doc Docx.table_rows Docx.current_list_type
           Docx.list_level Docx.in_code_block Docx.code_lines].
      rewrite T, Fin, ?Hcode. reflexivity. }
    destruct (startswith line (lit "[LIST_")).
    { unfold Docx.flush_table.
      cbn [Docx.in_table Docx.doc Docx.table_rows Docx.current_list_type
           Docx.list_level Docx.in_code_block Docx.code_lines].
      rewrite T, Fin, ?Hcode. reflexivity. }
    destruct (startswith line (lit "[BLOCKQUOTE]")).
    { unfold Docx.flush_table, Docx.close_list.
      cbn [Docx.in_table Docx.doc Docx.table_rows Docx.current_list_type
           Docx.list_level Docx.in_code_block Docx.code_lines].
      rewrite T, Fin, ?Hcode. reflexivity. }
    cbn [orb] in Hline.
    destruct (startswith line (lit "[TABLE_")) eqn:E5.
    { apply startswith_inv in E5 as [t ->]. discriminate. }
    rewrite Hline.
    unfold Docx.flush_table, Docx.close_list.
    cbn [Docx.in_table Docx.doc Docx.table_rows Docx.current_list_type
         Docx.list_level Docx.in_code_block Docx.code_lines].
    rewrite T, Fin, ?Hcode. reflexivity.
  - unfold Docx.step. rewrite M1, M2, Hcode.
    unfold closes_table in Hline.
    unfold Docx.flush_table, Docx.close_list.
    cbn [Docx.in_table Docx.doc Docx.table_rows Docx.current_list_type
         Docx.list_level Docx.in_code_block Docx.code_lines].
    rewrite T, Fin. cbn [bind].
    destruct (startswith line (lit "[HEADING_")); [reflexivity|].
    destruct (str_eqb line (lit "[HORIZONTAL_RULE]")); [reflexivity|].
    destruct (startswith line (lit "[LIST_")); [reflexivity|].
    destruct (startswith line (lit "[BLOCKQUOTE]")); [reflexivity|].
    cbn [orb] in Hline.
    destruct (startswith line (lit "[TABLE_")) eqn:E5.
    { apply startswith_inv in E5 as [t ->]. discriminate. }
    now rewrite Hline.
Qed.

(** With no table open, such a line only adds to the document and opens
    no table. *)
Lemma docx_step_adds (ok : char -> bool) (st st' : Docx.state) (line : str) :
  Docx.in_code_block st = false ->
  Docx.in_table st = false ->
  closes_table line = true ->
  Docx.step ok st line = Ok st' ->
  (exists after,
     Docx.body (Docx.doc st') = Docx.body (Docx.doc st) ++ after)
  /\ Docx.in_table st' = false
  /\ Docx.table_rows st' = Docx.table_rows st.
Proof.
  intros Hcode T Hline H.
  destruct (closes_table_not_marker _ Hline) as [M1 M2].
  unfold Docx.step in H. rewrite M1, M2, Hcode in H.
  unfold Docx.flush_table, Docx.close_list in H.
  cbn [Docx.in_table Docx.doc Docx.table_rows Docx.current_list_type
       Docx.list_level Docx.in_code_block Docx.code_lines] in H.
  rewrite T in H. cbn [bind] in H.
  cbn [Docx.in_table Docx.doc Docx.table_rows Docx.current_list_type
       Docx.list_level Docx.in_code_block Docx.code_lines] in H.
  unfold closes_table in Hline.
  assert (Same : exists after,
             Docx.body (Docx.doc st) = Docx.body (Docx.doc st) ++ after)
    by (exists []; now rewrite app_nil_r).
  destruct (startswith line (lit "[HEADING_")).
  { destruct (re_match heading_line_re line) as [m|].
    - bind_ok H. apply Ok_inj in H. subst st'.
      apply add_heading_ok in E as [e ->]. cbn. rewrite ?T. eauto.
    - apply Ok_inj in H. subst st'. cbn. rewrite ?T. auto. }
  destruct (str_eqb line (lit "[HORIZONTAL_RULE]")).
  { bind_ok H. apply Ok_inj in H. subst st'.
    apply add_with_run_ok in E. subst. cbn. rewrite ?T. eauto. }
  destruct (startswith line (lit "[LIST_")).
  { destruct (re_match list_line_re line) as [m|].
    - bind_ok H. apply Ok_inj in H. subst st'.
      apply add_list_item_ok in E as [e E].
      revert E.
      match goal with
      | |- context [if ?c then _ else _] => destruct c
      end; cbn; intros ->; rewrite ?T; cbn; eauto.
    - apply Ok_inj in H. subst st'. auto. }
  destruct (startswith line (lit "[BLOCKQUOTE]")).
  { bind_ok H. apply Ok_inj in H. subst st'.
    apply add_with_run_ok in E. subst. cbn. rewrite ?T. eauto. }
  cbn [orb] in Hline.
  destruct (startswith line (lit "[TABLE_")) eqn:E5.
  { apply startswith_inv in E5 as [t ->]. discriminate. }
  rewrite Hline in H.
  destruct (blank (slice_from 11 line)).
  - apply Ok_inj in H. subst st'. cbn. rewrite ?T. auto.
  - bind_ok H. apply Ok_inj in H. subst st'.
    apply add_paragraph_ok in E as [e ->]. cbn. rewrite ?T. eauto.
Qed.

Lemma docx_step_closes_table (ok : char -> bool) (st : Docx.state)
      (line : str) :
  Docx.in_code_block st = false ->
  Docx.in_table st = true ->
  closes_table line = true ->
  docx_flushes_table ok st line.
Proof.
  intros Hcode Htab Hline. unfold docx_flushes_table.
  pose proof (docx_step_flush_first ok st line Hcode Hline) as S.
  unfold Docx.flush_table in S. rewrite Htab in S.
  destruct (Docx._finalize_docx_table ok (Docx.doc st) (Docx.table_rows st))
    as [d|e]; cbn [bind] in S; [|exact S].
  fold (docx_flushed st d) in S. split; [exact S|].
  intros st' H. rewrite S in H.
  apply docx_step_adds in H; try reflexivity; assumption.
Qed.

(** Whitespace-only lines. *)

Lemma lstrip_nil (s : str) : lstrip s = [] -> forallb isspace s = true.
Proof.
  induction s as [|c s IH]; simpl; [reflexivity|].
  destruct (isspace c); [assumption | discriminate].
Qed.

Lemma lstrip_head (s : str) (c : char) (t : str) :
  lstrip s = c :: t -> isspace c = false.
Proof.
  induction s as [|d s IH]; simpl; [discriminate|].
  destruct (isspace d) eqn:E; [assumption|].
  intros H. injection H as -> _. assumption.
Qed.

Lemma forallb_rev (f : char -> bool) (s : str) :
  forallb f (rev s) = forallb f s.
Proof.
  induction s as [|c s IH]; simpl; [reflexivity|].
  rewrite forallb_app, IH. simpl. rewrite andb_true_r. apply andb_comm.
Qed.

Lemma rstrip_nil (s : str) : rstrip s = [] -> forallb isspace s = true.
Proof.
  unfold rstrip. intros H.
  assert (E : lstrip (rev s) = []).
  { destruct (lstrip (rev s)) as [|c t]; [reflexivity|].
    simpl in H. destruct (rev t); discriminate. }
  apply lstrip_nil in E. now rewrite forallb_rev in E.
Qed.

Lemma blank_all_space (s : str) : blank s = true -> forallb isspace s = true.
Proof.
  unfold blank, strip. intros H.
  destruct (rstrip (lstrip s)) as [|c t] eqn:E; [|discriminate].
  apply rstrip_nil in E.
  destruct (lstrip s) as [|d u] eqn:E'.
  - now apply lstrip_nil.
  - apply lstrip_head in E'. simpl in E. rewrite E' in E. discriminate.
Qed.

Lemma blank_no_bracket (s : str) :
  blank s = true -> startswith s (lit "[") = false.
Proof.
  intros H. apply blank_all_space in H. destruct s as [|c s]; [reflexivity|].
  simpl in *. apply andb_true_iff in H as [H _].
  destruct (c =? 91) eqn:E; [|reflexivity].
  apply N.eqb_eq in E. subst. discriminate.
Qed.

(** A line that does not begin with a bracket is none of the structured
    lines, so both renderers pass over it. *)
Lemma html_step_no_bracket (st : Html.state) (line : str) :
  Html.in_code_block st = false ->
  startswith line (lit "[") = false ->
  Html.step st line = st.
Proof.
  intros Hc H. unfold Html.step, str_eqb. destruct line as [|c rest].
  - simpl. now rewrite Hc.
  - simpl in H. rewrite andb_true_r in H.
    cbn. rewrite H, Hc. cbn. rewrite !andb_false_r. reflexivity.
Qed.

Lemma docx_step_no_bracket (ok : char -> bool) (st : Docx.state)
      (line : str) :
  Docx.in_code_block st = false ->
  startswith line (lit "[") = false ->
  Docx.step ok st line = Ok st.
Proof.
  intros Hc H. unfold Docx.step, str_eqb. destruct line as [|c rest].
  - simpl. now rewrite Hc.
  - simpl in H. rewrite andb_true_r in H.
    cbn. rewrite H, Hc. cbn. rewrite !andb_false_r. reflexivity.
Qed.

Lemma html_loop_blank (blanks : list str) (st : Html.state) :
  Html.in_code_block st = false ->
  forallb blank blanks = true ->
  Html.loop blanks st = st.
Proof.
  intros Hc. induction blanks as [|l ls IH]; simpl; [reflexivity|].
  intros H. apply andb_true_iff in H as [H1 H2].
  rewrite html_step_no_bracket by auto using blank_no_bracket. auto.
Qed.

Lemma docx_loop_blank (ok : char -> bool) (blanks : list str)
      (st : Docx.state) :
  Docx.in_code_block st = false ->
  forallb blank blanks = true ->
  Docx.loop ok blanks st = Ok st.
Proof.
  intros Hc. induction blanks as [|l ls IH]; simpl; [reflexivity|].
  intros H. apply andb_true_iff in H as [H1 H2].
  rewrite docx_step_no_bracket by auto using blank_no_bracket.
  cbn [bind]. auto.
Qed.

(** C1, as amended.  In both renderers a heading, rule, list item,
    blockquote or paragraph line that arrives while table rows are
    accumulated (outside a code block) emits those rows as one table before
    anything the line itself produces, and leaves no table open; in the
    document renderer that holds whenever python-docx accepts what it is
    given, and the exception it raises on the table otherwise is the
    renderer's.  Blank lines are passed over without touching the state,
    so they do not end the run. *)
Theorem table_run_flush
  (xml_char : char -> bool) (hst : Html.state) (dst : Docx.state)
  (line : str) (blanks : list str) :
  Html.in_code_block hst = false -> Html.in_table hst = true ->
  Docx.in_code_block dst = false -> Docx.in_table dst = true ->
  closes_table line = true ->
  forallb blank blanks = true ->
  html_flushes_table hst line
  /\ docx_flushes_table xml_char dst line
  /\ Html.loop blanks hst = hst
  /\ Docx.loop xml_char blanks dst = Ok dst.
Proof.
  intros Hc Ht Dc Dt Hline Hb. repeat split.
  - now apply html_step_closes_table.
  - now apply docx_step_closes_table.
  - now apply html_loop_blank.
  - now apply docx_loop_blank.
Qed.

Lemma table_run_flush_witness :
  (Html.in_code_block html_row_open = false
   /\ Html.in_table html_row_open = true
   /\ Docx.in_code_block docx_row_open = false
   /\ Docx.in_table docx_row_open = true
   /\ closes_table (lit "[PARAGRAPH]after") = true
   /\ forallb blank [[]; lit "  "] = true)
  /\ html_flushes_table html_row_open (lit "[PARAGRAPH]after")
  /\ docx_flushes_table lxml_char docx_row_open (lit "[PARAGRAPH]after")
  /\ Html.loop [[]; lit "  "] html_row_open = html_row_open
  /\ Docx.loop lxml_char [[]; lit "  "] docx_row_open = Ok docx_row_open.
Proof.
  split; [repeat split; reflexivity |].
  apply (table_run_flush lxml_char html_row_open docx_row_open
           (lit "[PARAGRAPH]after") [[]; lit "  "]); reflexivity.
Defined.

(** The two outcomes on a concrete input.  A paragraph line after one
    accumulated row adds the table and then the paragraph; in a document
    without the style [Table Grid] the same line raises [KeyError] and
    nothing further is rendered. *)
Example table_then_paragraph :
  Docx.step lxml_char docx_row_open (lit "[PARAGRAPH]after")
  = Ok (Docx.init
          (Docx.mkdoc (Docx.styles new_document)
             [Docx.Table
                [[Docx.mkcell (lit "A") true (Some (lit "D9E2F3"));
                  Docx.mkcell (lit "B") true (Some (lit "D9E2F3"))]];
              Docx.Paragraph (lit "after") false Docx.LEFT]))
  /\ Docx.render_lines lxml_char
       (Docx.mkdoc [(lit "Normal", Docx.PARAGRAPH)] [])
       [lit "[TABLE_ROW]A|B"; lit "[PARAGRAPH]after"]
     = Raise KeyError.
Proof. split; vm_compute; reflexivity. Qed.

(** C1, as stated, fails: two table rows separated by a blank line are
    rendered as a single table (header [A], body row [B]) by both
    renderers. *)
Lemma blank_line_merges_table_rows :
  html_of_text (unlines [lit "| A |"; []; lit "| B |"])
  = Ok (lit "<table><thead><tr><th>A</th></tr></thead><tbody><tr><td>B</td></tr></tbody></table>")
  /\ docx_of_text lxml_char new_document
       (unlines [lit "| A |"; []; lit "| B |"])
     = Ok (Docx.mkdoc (Docx.styles new_document)
             [Docx.Table
                [[Docx.mkcell (lit "A") true (Some (lit "D9E2F3"))];
                 [Docx.mkcell (lit "B") false None]]]).
Proof. split; vm_compute; reflexivity. Qed.

(** ** Worked inputs *)

(** C6.  The lines [- a], [- b], [1. c] parse to two bullet items and one
    numbered item, all at level 0, and the page renderer closes the bullet
    container before it opens the numbered one: two separate containers,
    neither nested in the other. *)
Theorem list_grouping :
  _parse_markdown_structure (unlines [lit "- a"; lit "- b"; lit "1. c"])
  = Ok (unlines [lit "[LIST_BULLET_0]a"; lit "[LIST_BULLET_0]b";
                 lit "[LIST_NUMBERED_0]c"])
  /\ Html.render_lines [lit "[LIST_BULLET_0]a"; lit "[LIST_BULLET_0]b";
                        lit "[LIST_NUMBERED_0]c"]
     = [lit "<ul>"; lit "<li>a</li>"; lit "<li>b</li>"; lit "</ul>";
        lit "<ol>"; lit "<li>c</li>"; lit "</ol>"]
  /\ html_of_text (unlines [lit "- a"; lit "- b"; lit "1. c"])
     = Ok (unlines [lit "<ul>"; lit "<li>a</li>"; lit "<li>b</li>";
                    lit "</ul>"; lit "<ol>"; lit "<li>c</li>"; lit "</ol>"]).
Proof. repeat split; vm_compute; reflexivity. Qed.

(** C2 fails on the code: a paragraph line with an empty bold span makes
    [replace_bold] take [len(None)], and the [TypeError] leaves the inline
    cleaner, the line processor, the parser and the sanitize-and-parse
    entry point. *)
Theorem empty_bold_raises :
  _clean_inline_markdown (lit "a****") = Raise TypeError
  /\ _process_markdown_line (lit "a****") = Raise TypeError
  /\ _parse_markdown_structure (lit "a****") = Raise TypeError
  /\ _sanitize_and_parse_markdown (lit "a****") = Raise TypeError.
Proof. repeat split; vm_compute; reflexivity. Qed.

(** ** Paragraphs in the document renderer *)

Lemma endswith_inv (s : str) (c : char) :
  endswith s [c] = true -> exists u, s = u ++ [c].
Proof.
  unfold endswith. simpl. intros H.
  destruct (rev s) as [|d t] eqn:E; [discriminate|].
  rewrite andb_true_r in H. apply N.eqb_eq in H. subst d.
  exists (rev t). rewrite <- (rev_involutive s), E. reflexivity.
Qed.

Lemma endswith_snoc (u : str) (c : char) : endswith (u ++ [c]) [c] = true.
Proof.
  unfold endswith. rewrite rev_app_distr. simpl. now rewrite N.eqb_refl.
Qed.

Lemma slice_wrapped (c : char) (inner : str) :
  slice_1_m1 (c :: inner ++ [c]) = inner.
Proof. unfold slice_1_m1. simpl. apply removelast_last. Qed.

(** The test of [_add_clean_paragraph_to_docx] holds exactly for the texts
    wrapped in underscores. *)
Lemma underscore_test_spec (clean : str) :
  startswith clean (lit "_") && endswith clean (lit "_")
    && (2 <? length clean)%nat = true
  <-> exists inner, wrapped_in_underscores clean inner.
Proof.
  unfold wrapped_in_underscores. split.
  - intros H. apply andb_true_iff in H as [H H3].
    apply andb_true_iff in H as [H1 H2].
    apply Nat.ltb_lt in H3.
    apply startswith_inv in H1 as [t ->].
    apply endswith_inv in H2 as [u Hu].
    destruct u as [|d u]; simpl in Hu.
    + injection Hu as Hu. subst t. simpl in H3. lia.
    + injection Hu as Hd Hu. subst t. exists u. split; [reflexivity|].
      intros ->. simpl in H3. lia.
  - intros (inner & -> & Hne).
    change (lit "_" ++ inner ++ lit "_") with (95 :: inner ++ [95]).
    change (lit "_") with [95].
    change (95 :: inner ++ [95]) with ((95 :: inner) ++ [95]).
    rewrite (endswith_snoc (95 :: inner) 95). simpl.
    destruct inner; [contradiction|]. simpl. rewrite length_app. simpl.
    apply Nat.ltb_lt. lia.
Qed.

Lemma wrapped_inner_unique (clean a b : str) :
  wrapped_in_underscores clean a -> wrapped_in_underscores clean b -> a = b.
Proof.
  intros [Ha _] [Hb _]. rewrite Ha in Hb.
  apply app_inv_head in Hb. now apply app_inv_tail in Hb.
Qed.

Lemma clean_paragraph_element (ok : char -> bool) (doc : Docx.document)
      (text : str) :
  exists shown italic,
    ((wrapped_in_underscores (strip text) shown /\ italic = true)
     \/ ((forall inner, ~ wrapped_in_underscores (strip text) inner)
         /\ shown = strip text /\ italic = false))
    /\ Docx._add_clean_paragraph_to_docx ok doc text
       = if Docx.run_text_ok ok shown
         then Ok (Docx.add doc (Docx.Paragraph shown italic Docx.LEFT))
         else Raise ValueError.
Proof.
  unfold Docx._add_clean_paragraph_to_docx, Docx.add_with_run.
  destruct (startswith (strip text) (lit "_") && endswith (strip text) (lit "_")
            && (2 <? length (strip text))%nat) eqn:E.
  - apply underscore_test_spec in E as [inner Hw].
    exists inner, true. split; [left; auto|].
    destruct Hw as [E _]. rewrite E.
    change (lit "_" ++ inner ++ lit "_") with (95 :: inner ++ [95]).
    now rewrite (slice_wrapped 95).
  - exists (strip text), false. split; [|reflexivity].
    right. split; [|auto]. intros inner Hw.
    assert (T : startswith (strip text) (lit "_")
                && endswith (strip text) (lit "_")
                && (2 <? length (strip text))%nat = true)
      by (apply underscore_test_spec; eauto).
    congruence.
Qed.

Lemma docx_step_paragraph (ok : char -> bool) (st : Docx.state) (text : str) :
  Docx.in_code_block st = false ->
  Docx.step ok st (lit "[PARAGRAPH]" ++ text)
  = (st' <- Docx.flush_table ok (Docx.close_list st) ;;
     if blank text then Ok st'
     else d <- Docx._add_clean_paragraph_to_docx ok (Docx.doc st') text ;;
          Ok (Docx.with_doc st' d)).
Proof.
  intros Hc. unfold Docx.step.
  replace (str_eqb (lit "[PARAGRAPH]" ++ text) (lit "[CODE_BLOCK_START]"))
    with false by (symmetry; apply str_eqb_neq; discriminate).
  replace (str_eqb (lit "[PARAGRAPH]" ++ text) (lit "[CODE_BLOCK_END]"))
    with false by (symmetry; apply str_eqb_neq; discriminate).
  replace (str_eqb (lit "[PARAGRAPH]" ++ text) (lit "[HORIZONTAL_RULE]"))
    with false by (symmetry; apply str_eqb_neq; discriminate).
  rewrite Hc. reflexivity.
Qed.

(** C9, as amended.  A paragraph line is read outside a code block, once
    the pending table, if any, is in the document.  It adds nothing when
    its text is blank.  Otherwise the text to show is the stripped text,
    or what lies between the two underscores when the stripped text is
    wrapped in underscores: when python-docx accepts that text the line
    adds exactly one left-aligned paragraph element holding it, italic in
    the wrapped case and plain otherwise; when it does not, the renderer
    raises [ValueError]. *)
Theorem paragraph_element
  (xml_char : char -> bool) (st st1 : Docx.state) (text : str) :
  Docx.in_code_block st = false ->
  Docx.flush_table xml_char (Docx.close_list st) = Ok st1 ->
  (blank text = true
   /\ Docx.step xml_char st (lit "[PARAGRAPH]" ++ text) = Ok st1)
  \/ (blank text = false
      /\ exists shown italic,
           ((wrapped_in_underscores (strip text) shown /\ italic = true)
            \/ ((forall inner, ~ wrapped_in_underscores (strip text) inner)
                /\ shown = strip text /\ italic = false))
           /\ Docx.step xml_char st (lit "[PARAGRAPH]" ++ text)
              = if Docx.run_text_ok xml_char shown
                then Ok (Docx.with_doc st1
                           (Docx.add (Docx.doc st1)
                              (Docx.Paragraph shown italic Docx.LEFT)))
                else Raise ValueError).
Proof.
  intros Hc F. rewrite docx_step_paragraph by assumption.
  rewrite F. cbn [bind].
  destruct (blank text) eqn:B; [left; auto|].
  right. split; [reflexivity|].
  destruct (clean_paragraph_element xml_char (Docx.doc st1) text)
    as (shown & italic & Hs & He).
  exists shown, italic. split; [exact Hs|]. rewrite He.
  now destruct (Docx.run_text_ok xml_char shown).
Qed.

Lemma paragraph_element_witness :
  (Docx.in_code_block (Docx.init new_document) = false
   /\ Docx.flush_table lxml_char (Docx.close_list (Docx.init new_document))
      = Ok (Docx.init new_document))
  /\ Docx.step lxml_char (Docx.init new_document) (lit "[PARAGRAPH]_intro_")
     = Ok (Docx.with_doc (Docx.init new_document)
             (Docx.add new_document
                (Docx.Paragraph (lit "intro") true Docx.LEFT))).
Proof.
  split; [split; reflexivity|].
  destruct (paragraph_element lxml_char (Docx.init new_document)
              (Docx.init new_document) (lit "_intro_") eq_refl eq_refl)
    as [[B _] | (_ & shown & italic & [[Hw ->] | (Hn & _)] & He)].
  - discriminate B.
  - assert (W : wrapped_in_underscores (strip (lit "_intro_")) (lit "intro"))
      by (split; [reflexivity | discriminate]).
    rewrite (wrapped_inner_unique _ _ _ Hw W) in He. exact He.
  - exfalso. apply (Hn (lit "intro")). split; [reflexivity | discriminate].
Defined.

(** C9, as stated, fails: the source line [<>] parses to a Paragraph block
    whose text is empty, and the document renderer adds no element for
    it. *)
Lemma blank_paragraph_renders_nothing :
  _sanitize_and_parse_markdown (lit "<>") = Ok (lit "[PARAGRAPH]")
  /\ _add_structured_content_to_docx lxml_char new_document
       (lit "[PARAGRAPH]")
     = Ok new_document.
Proof. split; vm_compute; reflexivity. Qed.

(** A control character survives sanitizer, cleaner and parser, and the
    document renderer raises on the paragraph that holds it. *)
Example control_character_raises :
  _sanitize_and_parse_markdown [97; 1; 98] = Ok (lit "[PARAGRAPH]" ++ [97; 1; 98])
  /\ docx_of_text lxml_char new_document [97; 1; 98] = Raise ValueError.
Proof. split; vm_compute; reflexivity. Qed.

(** ** Separator rows *)

Lemma html_step_separator (st : Html.state) :
  Html.in_code_block st = false ->
  Html.step st SEPARATOR = Html.close_list st.
Proof. intros Hc. unfold Html.step. rewrite Hc. reflexivity. Qed.

Lemma docx_step_separator (ok : char -> bool) (st : Docx.state) :
  Docx.in_code_block st = false ->
  Docx.step ok st SEPARATOR = Ok (Docx.close_list st).
Proof. intros Hc. unfold Docx.step. rewrite Hc. reflexivity. Qed.

Lemma html_step_row (st : Html.state) (t : str) :
  Html.in_code_block st = false ->
  Html.step st (lit "[TABLE_ROW]" ++ t)
  = Html.mk (Html.html_lines (Html.close_list st)) None (Html.list_level st)
      true
      ((if Html.in_table st then Html.table_rows st else [])
         ++ [List.map (fun cell => escape (strip cell)) (split (chr "|") t)])
      false (Html.code_lines st).
Proof.
  intros Hc. unfold Html.step.
  replace (str_eqb (lit "[TABLE_ROW]" ++ t) (lit "[CODE_BLOCK_START]"))
    with false by (symmetry; apply str_eqb_neq; discriminate).
  replace (str_eqb (lit "[TABLE_ROW]" ++ t) (lit "[CODE_BLOCK_END]"))
    with false by (symmetry; apply str_eqb_neq; discriminate).
  replace (str_eqb (lit "[TABLE_ROW]" ++ t) (lit "[HORIZONTAL_RULE]"))
    with false by (symmetry; apply str_eqb_neq; discriminate).
  replace (str_eqb (lit "[TABLE_ROW]" ++ t) (lit "[TABLE_SEPARATOR]"))
    with false by (symmetry; apply str_eqb_neq; discriminate).
  rewrite Hc. cbn -[split strip escape].
  unfold Html.close_list. destruct (Html.in_list st) eqn:E; cbn;
    rewrite ?Hc, ?E; reflexivity.
Qed.

Lemma docx_step_row (ok : char -> bool) (st : Docx.state) (t : str) :
  Docx.in_code_block st = false ->
  Docx.step ok st (lit "[TABLE_ROW]" ++ t)
  = Ok (Docx.mk (Docx.doc st) None (Docx.list_level st) true
          ((if Docx.in_table st then Docx.table_rows st else [])
             ++ [List.map strip (split (chr "|") t)])
          false (Docx.code_lines st)).
Proof.
  intros Hc. unfold Docx.step.
  replace (str_eqb (lit "[TABLE_ROW]" ++ t) (lit "[CODE_BLOCK_START]"))
    with false by (symmetry; apply str_eqb_neq; discriminate).
  replace (str_eqb (lit "[TABLE_ROW]" ++ t) (lit "[CODE_BLOCK_END]"))
    with false by (symmetry; apply str_eqb_neq; discriminate).
  replace (str_eqb (lit "[TABLE_ROW]" ++ t) (lit "[HORIZONTAL_RULE]"))
    with false by (symmetry; apply str_eqb_neq; discriminate).
  replace (str_eqb (lit "[TABLE_ROW]" ++ t) (lit "[TABLE_SEPARATOR]"))
    with false by (symmetry; apply str_eqb_neq; discriminate).
  rewrite Hc. cbn -[split strip]. rewrite Hc. reflexivity.
Qed.

(** A separator line that follows a table row changes nothing in either
    renderer. *)
Lemma html_separator_after_row (st : Html.state) (row : str) :
  Html.in_code_block st = false ->
  startswith row (lit "[TABLE_ROW]") = true ->
  Html.step (Html.step st row) SEPARATOR = Html.step st row.
Proof.
  intros Hc H. apply startswith_inv in H as [t ->].
  rewrite html_step_row by assumption.
  rewrite html_step_separator by reflexivity. reflexivity.
Qed.

Lemma docx_separator_after_row (ok : char -> bool) (st : Docx.state)
      (row : str) :
  Docx.in_code_block st = false ->
  startswith row (lit "[TABLE_ROW]") = true ->
  (st1 <- Docx.step ok st row ;; Docx.step ok st1 SEPARATOR)
  = Docx.step ok st row.
Proof.
  intros Hc H. apply startswith_inv in H as [t ->].
  rewrite docx_step_row by assumption. cbn [bind].
  rewrite docx_step_separator by reflexivity. reflexivity.
Qed.

Lemma html_render_without_separator (pre post : list str) (row : str) :
  Html.in_code_block (Html.loop pre Html.init) = false ->
  startswith row (lit "[TABLE_ROW]") = true ->
  Html.render_lines (pre ++ row :: SEPARATOR :: post)
  = Html.render_lines (pre ++ row :: post).
Proof.
  intros Hc H. unfold Html.render_lines, Html.loop in *.
  rewrite !fold_left_app. cbn [fold_left].
  now rewrite html_separator_after_row.
Qed.

Lemma docx_loop_app (ok : char -> bool) (a b : list str) (st : Docx.state) :
  Docx.loop ok (a ++ b) st = (st' <- Docx.loop ok a st ;; Docx.loop ok b st').
Proof.
  revert st. induction a as [|l a IH]; intros st; [reflexivity|].
  cbn [app Docx.loop]. destruct (Docx.step ok st l); cbn [bind]; auto.
Qed.

Lemma docx_render_without_separator
  (ok : char -> bool) (d : Docx.document) (pre post : list str) (row : str) :
  (forall st, Docx.loop ok pre (Docx.init d) = Ok st ->
              Docx.in_code_block st = false) ->
  startswith row (lit "[TABLE_ROW]") = true ->
  Docx.render_lines ok d (pre ++ row :: SEPARATOR :: post)
  = Docx.render_lines ok d (pre ++ row :: post).
Proof.
  intros Hc H. unfold Docx.render_lines. rewrite !docx_loop_app.
  destruct (Docx.loop ok pre (Docx.init d)) as [st|e] eqn:L;
    cbn [bind]; [|reflexivity].
  cbn [Docx.loop].
  rewrite <- (docx_separator_after_row ok st row (Hc st eq_refl) H) at 2.
  destruct (Docx.step ok st row); reflexivity.
Qed.

(** ** Line dispatch for table rows *)

Lemma lstrip_split (s : str) :
  exists ws, s = ws ++ lstrip s /\ forallb isspace ws = true.
Proof.
  induction s as [|c s (ws & E & H)]; simpl.
  - now exists [].
  - destruct (isspace c) eqn:Ec.
    + exists (c :: ws). simpl. rewrite Ec, H. split; [now f_equal | reflexivity].
    + now exists [].
Qed.

Lemma rstrip_split (s : str) :
  exists ws, s = rstrip s ++ ws /\ forallb isspace ws = true.
Proof.
  unfold rstrip. destruct (lstrip_split (rev s)) as (ws & E & H).
  exists (rev ws). split.
  - rewrite <- rev_app_distr, <- E. symmetry. apply rev_involutive.
  - now rewrite forallb_rev.
Qed.

(** A line whose stripped form begins with [c] is some whitespace, then
    [c], then the rest. *)
Lemma strip_head_split (s : str) (c : char) :
  startswith (strip s) [c] = true ->
  exists ws rest, s = ws ++ c :: rest /\ forallb isspace ws = true.
Proof.
  intros H. apply startswith_inv in H as [t Ht].
  destruct (lstrip_split s) as (ws & E & Hws).
  destruct (rstrip_split (lstrip s)) as (ws2 & E2 & _).
  unfold strip in Ht. rewrite Ht in E2. rewrite E2 in E.
  exists ws, (t ++ ws2). split; [|assumption].
  exact E.
Qed.

Lemma contains_prefix (s p : str) :
  startswith s p = true -> contains s p = true.
Proof. intros H. destruct s; simpl; rewrite H; reflexivity. Qed.

Lemma contains_app (a p b : str) : contains (a ++ p ++ b) p = true.
Proof.
  induction a as [|c a IH].
  - apply contains_prefix. exact (startswith_app p b).
  - simpl. rewrite IH. apply orb_true_r.
Qed.

Lemma space_not_digit (c : char) : isspace c = true -> isdigit c = false.
Proof.
  intros Hs. unfold isdigit, digit_value.
  destruct (find (fun s => (s <=? c) && (c <? s + 10)) nd_starts) as [s|] eqn:F;
    [exfalso | reflexivity].
  apply find_some in F as [Hin Hr].
  apply andb_true_iff in Hr as [H1 H2].
  apply N.leb_le in H1. apply N.ltb_lt in H2.
  assert (T : forallb (fun s => forallb (fun i => negb (isspace (s + N.of_nat i)))
                                        (seq 0 10)) nd_starts = true)
    by (vm_compute; reflexivity).
  rewrite forallb_forall in T. specialize (T _ Hin).
  rewrite forallb_forall in T. specialize (T (N.to_nat (c - s))).
  replace (s + N.of_nat (N.to_nat (c - s))) with c in T by lia.
  rewrite Hs in T. simpl in T.
  assert (I : In (N.to_nat (c - s)) (seq 0 10)) by (apply in_seq; lia).
  specialize (T I). discriminate.
Qed.

(** Facts about one character known to be whitespace or a given
    non-whitespace character are settled by evaluation. *)
Ltac not_this_char H :=
  match goal with
  | |- (?c =? ?k) = false =>
      destruct (c =? k) eqn:?E; [|reflexivity];
      apply N.eqb_eq in E; subst c; discriminate H
  end.

Lemma space_not_hash (c : char) : isspace c = true -> (c =? chr "#") = false.
Proof. intros H. not_this_char H. Qed.

Lemma space_not_gt (c : char) : isspace c = true -> (c =? chr ">") = false.
Proof. intros H. not_this_char H. Qed.

Lemma space_not_bullet (c : char) : isspace c = true -> bullet_char c = false.
Proof.
  intros H. unfold bullet_char.
  replace (c =? star) with false by (symmetry; not_this_char H).
  replace (c =? chr "+") with false by (symmetry; not_this_char H).
  replace (c =? chr "-") with false by (symmetry; not_this_char H).
  reflexivity.
Qed.

Lemma star_greedy_none (A : Type) (p : char -> bool)
      (k : str -> str -> option A) (Q : str -> Prop) :
  (forall pre rest, Q rest -> k pre rest = None) ->
  (forall c rest, Q (c :: rest) -> p c = true -> Q rest) ->
  forall rest pre, Q rest -> star_greedy p k pre rest = None.
Proof.
  intros Hk Hq. induction rest as [|c rest IH]; intros pre HQ; simpl.
  - now apply Hk.
  - destruct (p c) eqn:E.
    + rewrite IH by (eapply Hq; eassumption). now apply Hk.
    + now apply Hk.
Qed.

(** The first character of a line whose first non-blank character is a
    pipe. *)
Lemma pipe_first_cases (c : char) (r : str) :
  startswith (lstrip (c :: r)) (lit "|") = true ->
  (isspace c = true \/ c = chr "|")
  /\ (c =? chr "#") = false /\ (c =? chr ">") = false
  /\ bullet_char c = false /\ isdigit c = false.
Proof.
  simpl. destruct (isspace c) eqn:E.
  - intros _. split; [now left|].
    auto using space_not_hash, space_not_gt, space_not_bullet, space_not_digit.
  - simpl. rewrite andb_true_r. intros H. apply N.eqb_eq in H. subst c.
    split; [now right|]. repeat split; reflexivity.
Qed.

Lemma strip_pipe_lstrip (line : str) :
  startswith (strip line) (lit "|") = true ->
  startswith (lstrip line) (lit "|") = true.
Proof.
  intros H. apply startswith_inv in H as [t Ht].
  destruct (rstrip_split (lstrip line)) as (ws & E & _).
  unfold strip in Ht. rewrite Ht in E. rewrite E. reflexivity.
Qed.

Lemma heading_no_match (line : str) :
  startswith (lstrip line) (lit "|") = true ->
  re_match heading_re line = None.
Proof.
  intros H. destruct line as [|c r]; [reflexivity|].
  apply pipe_first_cases in H as (_ & H & _).
  unfold re_match, match_at, heading_re. cbn in *. unfold one.
  now rewrite H.
Qed.

Lemma list_no_match (line : str) :
  startswith (lstrip line) (lit "|") = true ->
  re_match list_re line = None.
Proof.
  intros H. unfold re_match, match_at, list_re. cbn.
  apply star_greedy_none
    with (Q := fun rest => startswith (lstrip rest) (lit "|") = true);
    [| |assumption].
  - intros pre [|c r] HQ; [reflexivity|].
    apply pipe_first_cases in HQ as (_ & _ & _ & Hb & Hd).
    now rewrite Hb, Hd.
  - intros c r HQ Hs. simpl in HQ. now rewrite Hs in HQ.
Qed.

(** Precedence of the dispatch: a line whose first non-blank character is
    a pipe is no heading, rule, list item or blockquote, and goes to
    [_process_table_line]. *)
Lemma table_line_dispatch (line : str) :
  startswith (strip line) (lit "|") = true ->
  _process_markdown_line line = _process_table_line line.
Proof.
  intros H. pose proof (strip_pipe_lstrip _ H) as HL.
  unfold _process_markdown_line.
  rewrite heading_no_match, list_no_match by assumption.
  rewrite H.
  destruct (strip_head_split line 124 H) as (ws & rest & E & Hws).
  assert (C : contains line (lit "|") = true).
  { rewrite E. exact (contains_app ws [124] rest). }
  rewrite C.
  assert (G : startswith line (lit ">") = false).
  { destruct line as [|c r]; [reflexivity|].
    apply pipe_first_cases in HL as (_ & _ & HG & _).
    simpl. cbn in HG. now rewrite HG. }
  rewrite G.
  apply startswith_inv in H as [t Ht]. rewrite Ht.
  cbn [app lit]. reflexivity.
Qed.

(** C8.  A table line (first non-blank character a pipe) that contains
    [---] is turned into the separator marker by the parser.  Neither
    renderer adds a row for that marker: outside a code block it only ends
    an open list, and right after a table row it changes nothing, so each
    renderer gives the same result -- the same output or the same
    exception -- as if the separator line were absent. *)
Theorem separator_row_dropped
  (xml_char : char -> bool) (line row : str) (pre post : list str)
  (d : Docx.document) (hst : Html.state) (dst : Docx.state) :
  startswith (strip line) (lit "|") = true ->
  contains line (lit "---") = true ->
  startswith row (lit "[TABLE_ROW]") = true ->
  Html.in_code_block (Html.loop pre Html.init) = false ->
  (forall st, Docx.loop xml_char pre (Docx.init d) = Ok st ->
              Docx.in_code_block st = false) ->
  Html.in_code_block hst = false ->
  Docx.in_code_block dst = false ->
  _process_table_line line = Ok SEPARATOR
  /\ _process_markdown_line line = Ok SEPARATOR
  /\ Html.step hst SEPARATOR = Html.close_list hst
  /\ Docx.step xml_char dst SEPARATOR = Ok (Docx.close_list dst)
  /\ Html.render_lines (pre ++ row :: SEPARATOR :: post)
     = Html.render_lines (pre ++ row :: post)
  /\ Docx.render_lines xml_char d (pre ++ row :: SEPARATOR :: post)
     = Docx.render_lines xml_char d (pre ++ row :: post).
Proof.
  intros Hp Hc Hr Hh Hd Hhs Hds.
  assert (T : _process_table_line line = Ok SEPARATOR)
    by (unfold _process_table_line; now rewrite Hc).
  repeat split.
  - exact T.
  - now rewrite table_line_dispatch.
  - now apply html_step_separator.
  - now apply docx_step_separator.
  - now apply html_render_without_separator.
  - now apply docx_render_without_separator.
Qed.

Lemma separator_row_dropped_witness :
  (startswith (strip (lit " |---|---|")) (lit "|") = true
   /\ contains (lit " |---|---|") (lit "---") = true
   /\ startswith (lit "[TABLE_ROW]A|B") (lit "[TABLE_ROW]") = true
   /\ Html.in_code_block (Html.loop [lit "[HEADING_1]T"] Html.init) = false
   /\ (forall st,
         Docx.loop lxml_char [lit "[HEADING_1]T"] (Docx.init new_document)
         = Ok st ->
         Docx.in_code_block st = false)
   /\ Html.in_code_block html_row_open = false
   /\ Docx.in_code_block docx_row_open = false)
  /\ _process_table_line (lit " |---|---|") = Ok SEPARATOR
  /\ _process_markdown_line (lit " |---|---|") = Ok SEPARATOR
  /\ Html.step html_row_open SEPARATOR = Html.close_list html_row_open
  /\ Docx.step lxml_char docx_row_open SEPARATOR
     = Ok (Docx.close_list docx_row_open)
  /\ Html.render_lines ([lit "[HEADING_1]T"] ++ lit "[TABLE_ROW]A|B"
                          :: SEPARATOR :: [lit "[TABLE_ROW]1|2"])
     = Html.render_lines ([lit "[HEADING_1]T"] ++ lit "[TABLE_ROW]A|B"
                            :: [lit "[TABLE_ROW]1|2"])
  /\ Docx.render_lines lxml_char new_document
       ([lit "[HEADING_1]T"] ++ lit "[TABLE_ROW]A|B"
          :: SEPARATOR :: [lit "[TABLE_ROW]1|2"])
     = Docx.render_lines lxml_char new_document
         ([lit "[HEADING_1]T"] ++ lit "[TABLE_ROW]A|B"
            :: [lit "[TABLE_ROW]1|2"]).
Proof.
  assert (D : forall st,
             Docx.loop lxml_char [lit "[HEADING_1]T"] (Docx.init new_document)
             = Ok st ->
             Docx.in_code_block st = false).
  { intros st H. vm_compute in H. apply Ok_inj in H. now subst st. }
  split; [repeat split; try reflexivity; exact D |].
  apply (separator_row_dropped lxml_char (lit " |---|---|")
           (lit "[TABLE_ROW]A|B")
           [lit "[HEADING_1]T"] [lit "[TABLE_ROW]1|2"] new_document
           html_row_open docx_row_open); try reflexivity; exact D.
Defined.

(** ** Code blocks *)

Lemma parser_step_open (st : Parser.state) (l : str) :
  Parser.in_code_block st = false ->
  startswith (rstrip l) FENCE = true ->
  Parser.step st l
  = Ok (Parser.mk (Parser.structured_lines st) true
                  (Parser.code_block_content st)).
Proof. intros Hc Hf. unfold Parser.step. fold FENCE. now rewrite Hf, Hc. Qed.

Lemma parser_step_inside (st : Parser.state) (l : str) :
  Parser.in_code_block st = true ->
  startswith (rstrip l) FENCE = false ->
  Parser.step st l
  = Ok (Parser.mk (Parser.structured_lines st) true
                  (Parser.code_block_content st ++ [rstrip l])).
Proof. intros Hc Hf. unfold Parser.step. fold FENCE. now rewrite Hf, Hc. Qed.

Lemma parser_step_close (st : Parser.state) (l : str) :
  Parser.in_code_block st = true ->
  startswith (rstrip l) FENCE = true ->
  Parser.code_block_content st <> [] ->
  Parser.step st l = Ok (Parser.mk (Parser.emit_code_block st) false []).
Proof.
  intros Hc Hf Hne. unfold Parser.step. fold FENCE. rewrite Hf, Hc.
  destruct (Parser.code_block_content st); [contradiction | reflexivity].
Qed.

(** Inside a fence every line that is not a fence goes to the buffer with
    its trailing whitespace removed and nothing else done to it. *)
Lemma parser_loop_inside (body rest : list str) :
  forallb (fun l => negb (startswith (rstrip l) FENCE)) body = true ->
  forall st,
    Parser.in_code_block st = true ->
    Parser.loop (body ++ rest) st
    = Parser.loop rest
        (Parser.mk (Parser.structured_lines st) true
           (Parser.code_block_content st ++ List.map rstrip body)).
Proof.
  induction body as [|l body IH]; intros Hb st Hc.
  - simpl. rewrite app_nil_r. destruct st. simpl in Hc. now subst.
  - simpl in Hb. apply andb_true_iff in Hb as [H1 H2].
    apply negb_true_iff in H1.
    simpl. rewrite parser_step_inside by assumption. simpl.
    rewrite IH by auto. simpl. now rewrite <- app_assoc.
Qed.

Lemma html_loop_inside (code rest : list str) :
  forallb not_code_marker code = true ->
  forall st,
    Html.in_code_block st = true ->
    Html.loop (code ++ rest) st
    = Html.loop rest
        (Html.mk (Html.html_lines st) (Html.in_list st) (Html.list_level st)
           (Html.in_table st) (Html.table_rows st) true
           (Html.code_lines st ++ code)).
Proof.
  unfold Html.loop.
  induction code as [|l code IH]; intros Hb st Hc.
  - simpl. rewrite app_nil_r. destruct st. simpl in Hc. now subst.
  - simpl in Hb. apply andb_true_iff in Hb as [H1 H2].
    apply andb_true_iff in H1 as [M1 M2].
    apply negb_true_iff in M1, M2. unfold CODE_START, CODE_END in M1, M2.
    simpl. unfold Html.step at 2. rewrite M1, M2, Hc.
    rewrite IH by auto. simpl. now rewrite <- app_assoc.
Qed.

Lemma docx_loop_inside (ok : char -> bool) (code rest : list str) :
  forallb not_code_marker code = true ->
  forall st,
    Docx.in_code_block st = true ->
    Docx.loop ok (code ++ rest) st
    = Docx.loop ok rest
        (Docx.mk (Docx.doc st) (Docx.current_list_type st)
           (Docx.list_level st) (Docx.in_table st) (Docx.table_rows st) true
           (Docx.code_lines st ++ code)).
Proof.
  induction code as [|l code IH]; intros Hb st Hc.
  - simpl. rewrite app_nil_r. destruct st. simpl in Hc. now subst.
  - simpl in Hb. apply andb_true_iff in Hb as [H1 H2].
    apply andb_true_iff in H1 as [M1 M2].
    apply negb_true_iff in M1, M2. unfold CODE_START, CODE_END in M1, M2.
    cbn [app Docx.loop]. unfold Docx.step. rewrite M1, M2, Hc. cbn [bind].
    rewrite IH by auto. simpl. now rewrite <- app_assoc.
Qed.

Lemma html_code_block (code : list str) (st : Html.state) :
  code <> [] ->
  forallb not_code_marker code = true ->
  Html.loop (CODE_START :: code ++ [CODE_END]) st
  = Html.mk (Html.html_lines st
               ++ [lit "<pre><code>" ++ escape (unlines code)
                   ++ lit "</code></pre>"])
      (Html.in_list st) (Html.list_level st) (Html.in_table st)
      (Html.table_rows st) false [].
Proof.
  intros Hne Hb. unfold Html.loop. cbn [fold_left].
  change (Html.step st CODE_START)
    with (Html.mk (Html.html_lines st) (Html.in_list st) (Html.list_level st)
            (Html.in_table st) (Html.table_rows st) true []).
  fold (Html.loop (code ++ [CODE_END])
          (Html.mk (Html.html_lines st) (Html.in_list st) (Html.list_level st)
             (Html.in_table st) (Html.table_rows st) true [])).
  rewrite html_loop_inside by auto. cbn.
  destruct code; [contradiction | reflexivity].
Qed.

(** In the document renderer the lines between the two code markers, when
    none of them is itself a marker, are joined by newlines and handed
    unescaped to python-docx as the text of one monospaced paragraph: the
    renderer adds that paragraph, or raises [ValueError] when python-docx
    refuses the text. *)
Theorem code_block_in_document (xml_char : char -> bool) (code : list str)
      (st : Docx.state) :
  code <> [] ->
  forallb not_code_marker code = true ->
  Docx.loop xml_char (CODE_START :: code ++ [CODE_END]) st
  = if Docx.run_text_ok xml_char (unlines code)
    then Ok (Docx.mk (Docx.add (Docx.doc st)
                        (Docx.CodeBlock (unlines code) (lit "Courier New")))
               (Docx.current_list_type st) (Docx.list_level st)
               (Docx.in_table st) (Docx.table_rows st) false [])
    else Raise ValueError.
Proof.
  intros Hne Hb. cbn [Docx.loop].
  change (Docx.step xml_char st CODE_START)
    with (Ok (Docx.mk (Docx.doc st) (Docx.current_list_type st)
                (Docx.list_level st) (Docx.in_table st) (Docx.table_rows st)
                true [])).
  cbn [bind]. rewrite docx_loop_inside by auto.
  destruct code as [|l code]; [contradiction|]. unfold unlines.
  cbn -[join Docx.run_text_ok]. unfold Docx._add_code_block_to_docx,
    Docx.add_with_run.
  destruct (Docx.run_text_ok xml_char (join [LF] (l :: code))); reflexivity.
Qed.

Lemma code_block_in_document_witness :
  ([lit "# not a heading"; lit "- x < y"] <> []
   /\ forallb not_code_marker [lit "# not a heading"; lit "- x < y"] = true)
  /\ Docx.loop lxml_char
       (CODE_START :: [lit "# not a heading"; lit "- x < y"] ++ [CODE_END])
       (Docx.init new_document)
     = Ok (Docx.mk
             (Docx.add new_document
                (Docx.CodeBlock
                   (unlines [lit "# not a heading"; lit "- x < y"])
                   (lit "Courier New")))
             None (-1)%Z false [] false []).
Proof.
  split; [split; [discriminate | reflexivity]|].
  rewrite (code_block_in_document lxml_char
             [lit "# not a heading"; lit "- x < y"] (Docx.init new_document));
    [reflexivity | discriminate | reflexivity].
Defined.

(** C3, as amended.  Between an opening and a closing fence the parser
    copies every line to the structured output with only its trailing
    whitespace removed: the inline cleaner is not applied (no input can
    make this part raise) and nothing is escaped.  When none of the copied
    lines is itself a code marker, the page renderer emits them joined by
    newlines and HTML-escaped inside one [pre]/[code] element. *)
Theorem code_block_verbatim
  (pst : Parser.state) (opening closing : str) (body : list str)
  (hst : Html.state) :
  Parser.in_code_block pst = false ->
  Parser.code_block_content pst = [] ->
  startswith (rstrip opening) FENCE = true ->
  startswith (rstrip closing) FENCE = true ->
  body <> [] ->
  forallb (fun l => negb (startswith (rstrip l) FENCE)) body = true ->
  forallb not_code_marker (List.map rstrip body) = true ->
  Parser.loop (opening :: body ++ [closing]) pst
  = Ok (Parser.mk (Parser.structured_lines pst ++ [CODE_START]
                     ++ List.map rstrip body ++ [CODE_END]) false [])
  /\ Html.loop (CODE_START :: List.map rstrip body ++ [CODE_END]) hst
     = Html.mk (Html.html_lines hst
                  ++ [lit "<pre><code>"
                      ++ escape (unlines (List.map rstrip body))
                      ++ lit "</code></pre>"])
         (Html.in_list hst) (Html.list_level hst) (Html.in_table hst)
         (Html.table_rows hst) false [].
Proof.
  intros Hc Hnil Ho Hcl Hne Hb Hm.
  assert (Hne' : List.map rstrip body <> [])
    by (destruct body; [contradiction | discriminate]).
  split.
  - cbn [Parser.loop]. rewrite parser_step_open by assumption.
    cbn [bind]. rewrite parser_loop_inside by auto.
    cbn [Parser.loop Parser.structured_lines Parser.code_block_content].
    rewrite Hnil. cbn [app].
    rewrite parser_step_close; try reflexivity; try assumption.
  - now apply html_code_block.
Qed.

Lemma code_block_verbatim_witness :
  (Parser.in_code_block Parser.init = false
   /\ Parser.code_block_content Parser.init = []
   /\ startswith (rstrip (lit "```python")) FENCE = true
   /\ startswith (rstrip (lit "``` ")) FENCE = true
   /\ [lit "# not a heading"; lit "- x < y  "; lit "a****"] <> []
   /\ forallb (fun l => negb (startswith (rstrip l) FENCE))
        [lit "# not a heading"; lit "- x < y  "; lit "a****"] = true
   /\ forallb not_code_marker
        (List.map rstrip [lit "# not a heading"; lit "- x < y  "; lit "a****"])
      = true)
  /\ Parser.loop
       (lit "```python"
          :: [lit "# not a heading"; lit "- x < y  "; lit "a****"]
          ++ [lit "``` "]) Parser.init
     = Ok (Parser.mk [CODE_START; lit "# not a heading"; lit "- x < y";
                      lit "a****"; CODE_END] false [])
  /\ Html.html_lines
       (Html.loop
          (CODE_START
             :: List.map rstrip
                  [lit "# not a heading"; lit "- x < y  "; lit "a****"]
             ++ [CODE_END]) Html.init)
     = [lit "<pre><code>" ++ lit "# not a heading" ++ [LF]
        ++ lit "- x &lt; y" ++ [LF] ++ lit "a****" ++ lit "</code></pre>"].
Proof.
  split; [repeat split; try reflexivity; discriminate |].
  destruct (code_block_verbatim Parser.init (lit "```python") (lit "``` ")
              [lit "# not a heading"; lit "- x < y  "; lit "a****"]
              Html.init)
    as (P & H); try reflexivity; try discriminate.
  split; [exact P |]. rewrite H. reflexivity.
Defined.

(** C3, as stated, fails: the interior line [x] followed by two spaces is
    not carried verbatim; the parser stores it without the spaces. *)
Lemma code_line_trailing_space_lost :
  _parse_markdown_structure (unlines [FENCE; lit "x  "; FENCE])
  = Ok (unlines [CODE_START; lit "x"; CODE_END])
  /\ ~ In (lit "x  ") [CODE_START; lit "x"; CODE_END].
Proof.
  split; [vm_compute; reflexivity |].
  simpl. intros [H | [H | [H | []]]]; discriminate H.
Qed.

(** Before the parser sees the text, the sanitizer's heading cut has been
    made: an opening fence that precedes the first line beginning with a
    hash sign is discarded with everything else before that line. *)
Example fence_before_first_hash_is_cut :
  _remove_ai_artifacts (unlines [FENCE; lit "# x"; FENCE])
  = unlines [lit "# x"; FENCE].
Proof. vm_compute. reflexivity. Qed.

(** ** End of stream *)

Lemma count_app (f : str -> bool) (a b : list str) :
  count f (a ++ b) = (count f a + count f b)%nat.
Proof. unfold count. now rewrite filter_app, length_app. Qed.

Lemma count_neutral (l : str) (lines : list str) (o : option Html.list_tag) :
  neutral l -> list_tags_pending lines o -> list_tags_pending (lines ++ [l]) o.
Proof.
  intros [H1 H2] H. unfold list_tags_pending in *. rewrite !count_app.
  unfold count at 2 4. simpl. rewrite H1, H2. simpl. lia.
Qed.

Lemma count_close (t : Html.list_tag) (lines : list str) :
  list_tags_pending lines (Some t) ->
  list_tags_pending (lines ++ [lit "</" ++ Html.tag_name t ++ lit ">"]) None.
Proof.
  intros H. unfold list_tags_pending in *. rewrite !count_app.
  destruct t; unfold count at 2 4; simpl; lia.
Qed.

Lemma count_open (t : Html.list_tag) (lines : list str) :
  list_tags_pending lines None ->
  list_tags_pending (lines ++ [lit "<" ++ Html.tag_name t ++ lit ">"]) (Some t).
Proof.
  intros H. unfold list_tags_pending in *. rewrite !count_app.
  destruct t; unfold count at 2 4; simpl; lia.
Qed.

Lemma startswith_false_eqb (s p : str) :
  startswith s p = false -> str_eqb s p = false.
Proof. intros H. unfold str_eqb. rewrite H. apply andb_false_r. Qed.

Ltac neutral_line :=
  split; unfold is_list_open, is_list_close;
  rewrite !startswith_false_eqb by reflexivity; reflexivity.

Lemma neutral_table (rows : list (list str)) :
  neutral (Html._finalize_html_table rows).
Proof. destruct rows; [split; reflexivity | neutral_line]. Qed.

Lemma neutral_pre_code (lines : list str) : neutral (Html.pre_code lines).
Proof. neutral_line. Qed.

Lemma pending_close_list (st : Html.state) :
  list_tags_pending (Html.html_lines st) (Html.in_list st) ->
  list_tags_pending (Html.html_lines (Html.close_list st)) None
  /\ Html.in_list (Html.close_list st) = None.
Proof.
  unfold Html.close_list. destruct (Html.in_list st) as [t|] eqn:E; intros H.
  - simpl. split; [now apply count_close | reflexivity].
  - now rewrite E.
Qed.

Lemma pending_flush_table (st : Html.state) :
  list_tags_pending (Html.html_lines st) (Html.in_list st) ->
  list_tags_pending (Html.html_lines (Html.flush_table st)) (Html.in_list st)
  /\ Html.in_list (Html.flush_table st) = Html.in_list st.
Proof.
  unfold Html.flush_table. destruct (Html.in_table st); intros H; simpl.
  - split; [apply count_neutral; [apply neutral_table | assumption]
           | reflexivity].
  - auto.
Qed.

Lemma pending_close_flush (st : Html.state) :
  list_tags_pending (Html.html_lines st) (Html.in_list st) ->
  list_tags_pending
    (Html.html_lines (Html.flush_table (Html.close_list st))) None
  /\ Html.in_list (Html.flush_table (Html.close_list st)) = None.
Proof.
  intros H. apply pending_close_list in H as [H1 H2].
  rewrite <- H2 in H1. apply pending_flush_table in H1 as [H3 H4].
  rewrite H4, H2 in *. auto.
Qed.

Lemma pending_append (st : Html.state) (l : str) :
  neutral l ->
  list_tags_pending (Html.html_lines st) (Html.in_list st) ->
  list_tags_pending (Html.html_lines (Html.append st l))
                    (Html.in_list (Html.append st l)).
Proof. intros N H. simpl. now apply count_neutral. Qed.

(** The page renderer keeps its list tags balanced up to the open list. *)
Lemma pending_step (st : Html.state) (line : str) :
  list_tags_pending (Html.html_lines st) (Html.in_list st) ->
  list_tags_pending (Html.html_lines (Html.step st line))
                    (Html.in_list (Html.step st line)).
Proof.
  intros H. pose proof (pending_close_flush st H) as [CF1 CF2].
  pose proof (pending_flush_table st H) as [F1 F2].
  pose proof (pending_close_list st H) as [C1 C2].
  unfold Html.step.
  destruct (str_eqb line (lit "[CODE_BLOCK_START]")); [exact H|].
  destruct (str_eqb line (lit "[CODE_BLOCK_END]")).
  { simpl. destruct (Html.code_lines st); [exact H|].
    apply count_neutral; [apply neutral_pre_code | exact H]. }
  destruct (Html.in_code_block st); [exact H|].
  destruct (startswith line (lit "[HEADING_")).
  { destruct (re_match heading_line_re line).
    - apply pending_append; [neutral_line | now rewrite CF2].
    - now rewrite CF2. }
  destruct (str_eqb line (lit "[HORIZONTAL_RULE]")).
  { apply pending_append; [neutral_line | now rewrite CF2]. }
  destruct (startswith line (lit "[LIST_")).
  { destruct (re_match list_line_re line) as [m|]; [|now rewrite F2].
    match goal with
    | |- context [if ?c then _ else _] => destruct c
    end.
    - simpl. apply count_neutral; [neutral_line|].
      apply count_open.
      rewrite <- F2 in F1. now apply pending_close_list in F1 as [F1 _].
    - apply pending_append; [neutral_line | now rewrite F2]. }
  destruct (startswith line (lit "[BLOCKQUOTE]")).
  { apply pending_append; [neutral_line | now rewrite CF2]. }
  destruct (startswith line (lit "[TABLE_")).
  { destruct (str_eqb line (lit "[TABLE_SEPARATOR]")); [now rewrite C2|].
    destruct (startswith line (lit "[TABLE_ROW]")); [|now rewrite C2].
    simpl. now rewrite C2. }
  destruct (startswith line (lit "[PARAGRAPH]")); [|exact H].
  destruct (blank (slice_from 11 line)); [now rewrite CF2|].
  apply pending_append; [neutral_line | now rewrite CF2].
Qed.

Lemma pending_loop (lines : list str) (st : Html.state) :
  list_tags_pending (Html.html_lines st) (Html.in_list st) ->
  list_tags_pending (Html.html_lines (Html.loop lines st))
                    (Html.in_list (Html.loop lines st)).
Proof.
  unfold Html.loop. revert st.
  induction lines as [|l lines IH]; intros st H; simpl; [exact H|].
  apply IH. now apply pending_step.
Qed.

(** What the statements after the loop append. *)
Lemma html_finish_closers (st : Html.state) :
  Html.finish st
  = Html.html_lines st
    ++ match Html.in_list st with
       | Some t => [closing_tag t]
       | None => []
       end
    ++ (if Html.in_table st
        then [Html._finalize_html_table (Html.table_rows st)] else [])
    ++ (if Html.in_code_block st
           && match Html.code_lines st with [] => false | _ => true end
        then [Html.pre_code (Html.code_lines st)] else []).
Proof.
  unfold Html.finish, closing_tag.
  destruct (Html.in_list st), (Html.in_table st),
    (Html.in_code_block st
     && match Html.code_lines st with [] => false | _ => true end);
    rewrite <- ?app_assoc, ?app_nil_r; reflexivity.
Qed.

Lemma docx_finish_closers (ok : char -> bool) (st : Docx.state)
      (d' : Docx.document) :
  Docx.finish ok st = Ok d' ->
  Docx.body d'
  = Docx.body (Docx.doc st)
    ++ (if Docx.in_table st then docx_table_elements (Docx.table_rows st)
        else [])
    ++ (if Docx.in_code_block st
           && match Docx.code_lines st with [] => false | _ => true end
        then [Docx.CodeBlock (unlines (Docx.code_lines st)) (lit "Courier New")]
        else []).
Proof.
  unfold Docx.finish. intros H. bind_ok H.
  assert (B : Docx.body a
              = Docx.body (Docx.doc st)
                ++ (if Docx.in_table st
                    then docx_table_elements (Docx.table_rows st) else [])).
  { destruct (Docx.in_table st).
    - now apply finalize_table_ok in E.
    - apply Ok_inj in E. subst a. now rewrite app_nil_r. }
  destruct (Docx.in_code_block st
            && match Docx.code_lines st with [] => false | _ => true end).
  - apply add_with_run_ok in H. subst d'. cbn [Docx.add Docx.body].
    rewrite B, <- app_assoc. reflexivity.
  - apply Ok_inj in H. subst d'. now rewrite B, app_nil_r.
Qed.

Lemma html_render_balanced (lines : list str) :
  count is_list_open (Html.render_lines lines)
  = count is_list_close (Html.render_lines lines).
Proof.
  unfold Html.render_lines.
  pose proof (pending_loop lines Html.init) as P.
  assert (I : list_tags_pending (Html.html_lines Html.init)
                                (Html.in_list Html.init)) by reflexivity.
  specialize (P I). set (st := Html.loop lines Html.init) in *.
  rewrite html_finish_closers.
  assert (Q : list_tags_pending
                (Html.html_lines st
                 ++ match Html.in_list st with
                    | Some t => [closing_tag t]
                    | None => []
                    end) None).
  { destruct (Html.in_list st) as [t|].
    - now apply count_close.
    - now rewrite app_nil_r. }
  rewrite app_assoc.
  assert (R : forall extra, Forall neutral extra ->
              forall base, list_tags_pending base None ->
              list_tags_pending (base ++ extra) None).
  { induction 1 as [|x extra Hx _ IH]; intros base Hb.
    - now rewrite app_nil_r.
    - change (x :: extra) with ([x] ++ extra). rewrite app_assoc.
      apply IH. now apply count_neutral. }
  eapply R in Q.
  - unfold list_tags_pending in Q. rewrite Q. lia.
  - apply Forall_app. split.
    + destruct (Html.in_table st); constructor;
        [apply neutral_table | constructor].
    + match goal with
      | |- context [if ?c then _ else _] => destruct c
      end; constructor; [apply neutral_pre_code | constructor].
Qed.

(** C7.  The two table lines alone, with no blank line after them, give
    one table in each renderer, with header row A, B and the single body
    row 1, 2.  In general the statements after the loop close what is
    still open: the page renderer appends the closing tag of an open list,
    the table of the accumulated rows and the buffered code block, and its
    list tags are balanced for every input; the document renderer, when
    its loop has ended, runs those statements and whenever it returns it
    has appended the table of the accumulated rows and the buffered code
    block. *)
Theorem end_of_stream_flush :
  html_of_text (unlines [lit "| A | B |"; lit "| 1 | 2 |"])
  = Ok (lit "<table><thead><tr><th>A</th><th>B</th></tr></thead><tbody><tr><td>1</td><td>2</td></tr></tbody></table>")
  /\ docx_of_text lxml_char new_document
       (unlines [lit "| A | B |"; lit "| 1 | 2 |"])
     = Ok (Docx.mkdoc (Docx.styles new_document)
             [Docx.Table
                [[Docx.mkcell (lit "A") true (Some (lit "D9E2F3"));
                  Docx.mkcell (lit "B") true (Some (lit "D9E2F3"))];
                 [Docx.mkcell (lit "1") false None;
                  Docx.mkcell (lit "2") false None]]])
  /\ (forall lines,
        let st := Html.loop lines Html.init in
        Html.render_lines lines
        = Html.html_lines st
          ++ match Html.in_list st with
             | Some t => [closing_tag t]
             | None => []
             end
          ++ (if Html.in_table st
              then [Html._finalize_html_table (Html.table_rows st)] else [])
          ++ (if Html.in_code_block st
                 && match Html.code_lines st with [] => false | _ => true end
              then [Html.pre_code (Html.code_lines st)] else []))
  /\ (forall lines,
        count is_list_open (Html.render_lines lines)
        = count is_list_close (Html.render_lines lines))
  /\ (forall xml_char d lines st,
        Docx.loop xml_char lines (Docx.init d) = Ok st ->
        Docx.render_lines xml_char d lines = Docx.finish xml_char st
        /\ forall d',
             Docx.render_lines xml_char d lines = Ok d' ->
             Docx.body d'
             = Docx.body (Docx.doc st)
               ++ (if Docx.in_table st
                   then docx_table_elements (Docx.table_rows st) else [])
               ++ (if Docx.in_code_block st
                      && match Docx.code_lines st with
                         | [] => false
                         | _ => true
                         end
                   then [Docx.CodeBlock (unlines (Docx.code_lines st))
                                        (lit "Courier New")]
                   else [])).
Proof.
  split; [vm_compute; reflexivity|].
  split; [vm_compute; reflexivity|].
  split; [intros lines st; apply html_finish_closers|].
  split; [apply html_render_balanced|].
  intros xml_char d lines st L.
  assert (R : Docx.render_lines xml_char d lines = Docx.finish xml_char st)
    by (unfold Docx.render_lines; now rewrite L).
  split; [exact R|]. intros d' H. rewrite R in H.
  exact (docx_finish_closers xml_char st d' H).
Qed.

(** ** The heading cut of the sanitizer *)

(** A greedy star whose continuation accepts everywhere accepts. *)
Lemma star_greedy_total (A : Type) (p : char -> bool)
      (k : str -> str -> option A) :
  (forall pre rest, k pre rest <> None) ->
  forall rest pre, star_greedy p k pre rest <> None.
Proof.
  intros Hk. induction rest as [|c rest IH]; intros pre; simpl.
  - apply Hk.
  - destruct (p c); [|apply Hk].
    destruct (star_greedy p k (c :: pre) rest) eqn:E; [discriminate|].
    now apply IH in E.
Qed.

(** [.*$] in multiline mode accepts from every position: the longest run
    of non-newline characters ends at a newline or at the end. *)
Lemma rest_of_line_total (A : Type) (k : cont A) (caps : captures) :
  (forall pre rest caps, k pre rest caps <> None) ->
  forall rest pre,
    star_greedy any_but_newline
      (fun pre' rest' => rmatch (Eol true) pre' rest' caps k) pre rest
    <> None.
Proof.
  intros Hk. induction rest as [|c rest IH]; intros pre; simpl.
  - apply Hk.
  - unfold any_but_newline at 1. destruct (c =? LF) eqn:E; simpl.
    + apply Hk.
    + match goal with
      | |- match ?s with _ => _ end <> None => destruct s eqn:S
      end; [discriminate|]. now apply IH in S.
Qed.

Lemma first_heading_matches (pre r : str) :
  (pre = [] \/ exists p, pre = LF :: p) ->
  match_at first_heading_re pre (chr "#" :: r) <> None.
Proof.
  intros Hbol. unfold match_at, first_heading_re.
  cbn [seqs Plus rmatch].
  assert (K : forall pre' rest',
             rmatch (Seq (Chr (one (chr "#")))
                      (Seq (Star (one (chr "#")))
                         (Seq (Star isspace)
                            (Seq (Star any_but_newline) (Eol true)))))
               pre' (chr "#" :: rest') []
               (fun pre'0 rest'0 caps =>
                  Some {| m_text := rev (firstn (length pre'0 - length pre) pre'0);
                          m_after := rest'0; m_groups := caps |}) <> None).
  { intros pre' rest'. cbn [rmatch]. unfold one at 1.
    change (chr "#" =? chr "#") with true. cbv iota.
    apply star_greedy_total. intros p1 r1.
    apply star_greedy_total. intros p2 r2.
    apply (rest_of_line_total mobj
             (fun pre'0 rest'0 caps =>
                Some {| m_text := rev (firstn (length pre'0 - length pre) pre'0);
                        m_after := rest'0; m_groups := caps |}) []).
    discriminate. }
  destruct Hbol as [-> | [p ->]].
  - apply K.
  - change (true && (LF =? LF)) with true. cbv iota. apply K.
Qed.

Lemma first_heading_needs_hash (pre rest : str) :
  startswith rest (lit "#") = false ->
  match_at first_heading_re pre rest = None.
Proof.
  intros H. unfold match_at, first_heading_re. cbn [seqs Plus rmatch].
  assert (E : match rest with
              | [] => @None mobj
              | c :: rest' => if one (chr "#") c then None else None
              end = None) by (destruct rest as [|c ?]; [|destruct (one _ c)]; reflexivity).
  destruct rest as [|c rest].
  - destruct pre as [|d pre]; [reflexivity|].
    destruct (true && (d =? LF)); reflexivity.
  - simpl in H. rewrite andb_true_r in H. unfold one at 1 3. cbn in H.
    change (chr "#") with 35. rewrite H.
    destruct pre as [|d pre]; [reflexivity|].
    destruct (true && (d =? LF)); reflexivity.
Qed.

Lemma first_heading_needs_bol (c : char) (pre rest : str) :
  (c =? LF) = false ->
  match_at first_heading_re (c :: pre) rest = None.
Proof.
  intros H. unfold match_at, first_heading_re. cbn [seqs Plus rmatch].
  now rewrite H.
Qed.

(** Inside a line, after its first character, the search just moves on. *)
Lemma search_in_line (l : str) :
  no_newline l = true ->
  forall c0 pre rest,
    (c0 =? LF) = false ->
    search_go first_heading_re (c0 :: pre) (l ++ rest)
    = search_go first_heading_re (rev l ++ c0 :: pre) rest.
Proof.
  induction l as [|c l IH]; intros Hl c0 pre rest Hc0; [reflexivity|].
  simpl in Hl. apply andb_true_iff in Hl as [Hc Hl].
  apply negb_true_iff in Hc.
  simpl. rewrite first_heading_needs_bol by assumption.
  rewrite IH by assumption. now rewrite <- app_assoc.
Qed.

Lemma search_skip_line (l : str) (pre rest : str) :
  startswith l (lit "#") = false ->
  no_newline l = true ->
  search_go first_heading_re pre (l ++ rest)
  = search_go first_heading_re (rev l ++ pre) rest.
Proof.
  intros Hh Hl. destruct l as [|c l]; [reflexivity|].
  simpl in Hl. apply andb_true_iff in Hl as [Hc Hl].
  apply negb_true_iff in Hc.
  simpl app at 1. cbn [search_go].
  rewrite first_heading_needs_hash by exact Hh.
  rewrite search_in_line by assumption. simpl. now rewrite <- app_assoc.
Qed.

Lemma unlines_cons (l : str) (ls : list str) :
  ls <> [] -> unlines (l :: ls) = l ++ LF :: unlines ls.
Proof. destruct ls; [contradiction | reflexivity]. Qed.

Lemma search_go_unfold (r : regex) (pre rest : str) :
  search_go r pre rest
  = match match_at r pre rest with
    | Some m => Some (m, rest)
    | None =>
        match rest with
        | c :: rest' => search_go r (c :: pre) rest'
        | [] => None
        end
    end.
Proof. destruct rest; reflexivity. Qed.

Lemma search_lines (lines : list str) :
  forallb no_newline lines = true ->
  forall pre,
    (pre = [] \/ exists p, pre = LF :: p) ->
    option_map snd (search_go first_heading_re pre (unlines lines))
    = match from_first_hash lines with
      | [] => None
      | kept => Some (unlines kept)
      end.
Proof.
  induction lines as [|l ls IH]; intros Hn pre Hbol.
  - simpl. now rewrite first_heading_needs_hash.
  - simpl in Hn. apply andb_true_iff in Hn as [Hl Hls].
    cbn [from_first_hash].
    destruct (startswith l (lit "#")) eqn:Hh.
    + apply startswith_inv in Hh as [t ->].
      rewrite search_go_unfold.
      destruct (match_at first_heading_re pre (unlines ((lit "#" ++ t) :: ls)))
        as [m|] eqn:M; [reflexivity|].
      exfalso. revert M.
      destruct ls; [|rewrite unlines_cons by discriminate];
        now apply first_heading_matches.
    + destruct ls as [|l2 ls].
      * change (unlines [l]) with l. rewrite <- (app_nil_r l) at 1.
        rewrite search_skip_line by assumption. simpl.
        now rewrite first_heading_needs_hash.
      * rewrite unlines_cons by discriminate.
        rewrite search_skip_line by assumption.
        cbn [search_go]. rewrite first_heading_needs_hash by reflexivity.
        apply IH; [assumption|]. right. eauto.
Qed.

Lemma cut_to_first_heading_lines (lines : list str) :
  forallb no_newline lines = true ->
  cut_to_first_heading (unlines lines) = unlines (cut_lines lines).
Proof.
  intros Hn. unfold cut_to_first_heading, re_search, cut_lines.
  pose proof (search_lines lines Hn [] (or_introl eq_refl)) as S.
  destruct (search_go first_heading_re [] (unlines lines)) as [[m from]|];
    simpl in S; destruct (from_first_hash lines); congruence.
Qed.

Lemma from_first_hash_none (lines : list str) :
  forallb (fun x => negb (startswith x (lit "#"))) lines = true ->
  from_first_hash lines = [].
Proof.
  induction lines as [|x lines IH]; [reflexivity|].
  simpl. intros H. apply andb_true_iff in H as [H1 H2].
  apply negb_true_iff in H1. cbn in H1. rewrite H1. auto.
Qed.

Lemma from_first_hash_found (pre : list str) (l : str) (post : list str) :
  forallb (fun x => negb (startswith x (lit "#"))) pre = true ->
  startswith l (lit "#") = true ->
  from_first_hash (pre ++ l :: post) = l :: post.
Proof.
  intros Hp Hl. induction pre as [|x pre IH].
  - simpl. cbn in Hl. now rewrite Hl.
  - simpl in Hp. apply andb_true_iff in Hp as [H1 H2].
    apply negb_true_iff in H1. simpl. cbn in H1. rewrite H1. auto.
Qed.

Lemma split_no_sep (sep : char) (s : str) :
  Forall (fun w => forallb (fun x => negb (x =? sep)) w = true) (split sep s).
Proof.
  induction s as [|c s IH]; [repeat constructor|].
  cbn [split]. destruct (c =? sep) eqn:E.
  - constructor; [reflexivity | exact IH].
  - destruct (split sep s) as [|w ws]; [repeat constructor; cbn; now rewrite E|].
    inversion IH as [|? ? Hw Hws]; subst.
    constructor; [cbn; now rewrite E, Hw | exact Hws].
Qed.

Lemma join_split (sep : char) (s : str) : join [sep] (split sep s) = s.
Proof.
  induction s as [|c s IH]; [reflexivity|].
  cbn [split]. destruct (c =? sep) eqn:E.
  - apply N.eqb_eq in E. subst c.
    destruct (split sep s) as [|w ws] eqn:S.
    + destruct s; cbn in S; [discriminate|].
      destruct (n =? sep); [discriminate|].
      destruct (split sep s); discriminate.
    + change (join [sep] ([] :: w :: ws)) with (sep :: join [sep] (w :: ws)).
      now rewrite IH.
  - destruct (split sep s) as [|w ws] eqn:S.
    + destruct s; cbn in S; [discriminate|].
      destruct (n =? sep); [discriminate|].
      destruct (split sep s); discriminate.
    + destruct ws as [|w' ws]; cbn [join] in IH |- *; now rewrite <- IH.
Qed.

Lemma split_lines_no_newline (s : str) :
  forallb no_newline (split LF s) = true.
Proof.
  apply forallb_forall. intros l Hl.
  pose proof (split_no_sep LF s) as F. rewrite Forall_forall in F.
  now apply F.
Qed.

(** The sanitizer is its first two steps, the heading cut on the lines of
    what they leave, and its last steps. *)
Lemma sanitizer_cut_lines (raw : str) :
  _remove_ai_artifacts raw
  = after_cut (unlines (cut_lines (split LF (before_cut raw)))).
Proof.
  unfold _remove_ai_artifacts, after_cut. fold (before_cut raw).
  rewrite <- (join_split LF (before_cut raw)) at 1.
  fold (unlines (split LF (before_cut raw))).
  now rewrite cut_to_first_heading_lines by apply split_lines_no_newline.
Qed.

(** C4, as amended.  For every raw input, once the outer whitespace is
    stripped and a leading "Thought for N seconds" line is removed, the
    sanitizer discards everything before the first line that begins with a
    hash sign (the whitespace and the content after the hash signs are
    optional) and hands the rest to its remaining steps; a text with no
    such line goes to the remaining steps whole. *)
Theorem heading_cut (raw other : str) (pre : list str) (l : str)
    (post : list str) :
  split LF (before_cut raw) = pre ++ l :: post ->
  forallb (fun x => negb (startswith x (lit "#"))) pre = true ->
  startswith l (lit "#") = true ->
  forallb (fun x => negb (startswith x (lit "#")))
          (split LF (before_cut other)) = true ->
  _remove_ai_artifacts raw = after_cut (unlines (l :: post))
  /\ _remove_ai_artifacts other = after_cut (before_cut other).
Proof.
  intros E Hp Hl Ho. split.
  - rewrite sanitizer_cut_lines, E. unfold cut_lines.
    now rewrite from_first_hash_found.
  - rewrite sanitizer_cut_lines. unfold cut_lines.
    rewrite from_first_hash_none by assumption.
    unfold unlines. now rewrite join_split.
Qed.

Lemma heading_cut_witness :
  (split LF (before_cut (unlines [lit "  Thought for 3 seconds";
                                 lit "intro"; []; lit "#tag"; lit "body "]))
   = [lit "intro"; []] ++ lit "#tag" :: [lit "body"]
   /\ forallb (fun x => negb (startswith x (lit "#"))) [lit "intro"; []] = true
   /\ startswith (lit "#tag") (lit "#") = true
   /\ forallb (fun x => negb (startswith x (lit "#")))
        (split LF (before_cut (unlines [lit "no"; lit "heading # here"])))
      = true)
  /\ _remove_ai_artifacts
       (unlines [lit "  Thought for 3 seconds"; lit "intro"; [];
                 lit "#tag"; lit "body "])
     = after_cut (unlines (lit "#tag" :: [lit "body"]))
  /\ _remove_ai_artifacts (unlines [lit "no"; lit "heading # here"])
     = after_cut (before_cut (unlines [lit "no"; lit "heading # here"])).
Proof.
  split; [repeat split; vm_compute; reflexivity |].
  apply (heading_cut
           (unlines [lit "  Thought for 3 seconds"; lit "intro"; [];
                     lit "#tag"; lit "body "])
           (unlines [lit "no"; lit "heading # here"])
           [lit "intro"; []] (lit "#tag") [lit "body"]);
    vm_compute; reflexivity.
Defined.

(** The cut is made after the outer whitespace is stripped: a first line
    that begins with a hash sign only once stripped is the one kept. *)
Example heading_cut_after_strip :
  _remove_ai_artifacts (unlines [lit "   # A"; lit "foo"; lit "# B"])
  = unlines [lit "# A"; lit "foo"; lit "# B"].
Proof. vm_compute. reflexivity. Qed.

(** C4, as stated, fails: no line of the text [intro], [#tag] has a hash
    sign followed by a space and content, yet the sanitizer discards the
    first line. *)
Lemma heading_without_space_cuts :
  spec_heading_line (lit "# Title") = true
  /\ forallb (fun l => negb (spec_heading_line l))
       (split LF (unlines [lit "intro"; lit "#tag"])) = true
  /\ _remove_ai_artifacts (unlines [lit "intro"; lit "#tag"]) = lit "#tag"
  /\ unlines [lit "intro"; lit "#tag"] <> lit "#tag".
Proof. repeat split; try (vm_compute; reflexivity). discriminate. Qed.

(** ** Substitution where the pattern cannot match *)

Lemma sub_pure_id (r : regex) (f : mobj -> str) (Q : str -> Prop) :
  (forall pre rest, Q rest -> match_at r pre rest = None) ->
  (forall c rest, Q (c :: rest) -> Q rest) ->
  forall rest pre, Q rest -> sub_pure r f pre rest 0 = rest.
Proof.
  intros Hm Hq. induction rest as [|c rest IH]; intros pre HQ; simpl.
  - now rewrite Hm.
  - rewrite Hm by assumption. f_equal. apply IH. eapply Hq; eassumption.
Qed.

Lemma sub_go_id (r : regex) (f : mobj -> result str) (Q : str -> Prop) :
  (forall pre rest, Q rest -> match_at r pre rest = None) ->
  (forall c rest, Q (c :: rest) -> Q rest) ->
  forall rest pre, Q rest -> sub_go r f pre rest 0 = Ok rest.
Proof.
  intros Hm Hq. induction rest as [|c rest IH]; intros pre HQ; simpl.
  - now rewrite Hm.
  - rewrite Hm by assumption. rewrite IH by (eapply Hq; eassumption).
    reflexivity.
Qed.

(** The common case: no character of the string can begin a match. *)
Lemma forallb_tail (P : char -> bool) (c : char) (rest : str) :
  forallb P (c :: rest) = true -> forallb P rest = true.
Proof. simpl. intros H. now apply andb_true_iff in H. Qed.

Lemma sub_pure_first (r : regex) (f : mobj -> str) (P : char -> bool) :
  (forall pre, match_at r pre [] = None) ->
  (forall pre c rest, P c = false -> match_at r pre (c :: rest) = None) ->
  forall s, forallb (fun c => negb (P c)) s = true -> re_sub r f s = s.
Proof.
  intros H0 H1 s Hs. unfold re_sub.
  apply sub_pure_id with (Q := fun t => forallb (fun c => negb (P c)) t = true);
    [| apply forallb_tail | assumption].
  intros pre [|c rest] HQ; [apply H0|].
  apply H1. simpl in HQ. apply andb_true_iff in HQ as [HQ _].
  now apply negb_true_iff.
Qed.

Lemma sub_go_first (r : regex) (f : mobj -> result str) (P : char -> bool) :
  (forall pre, match_at r pre [] = None) ->
  (forall pre c rest, P c = false -> match_at r pre (c :: rest) = None) ->
  forall s, forallb (fun c => negb (P c)) s = true -> re_sub_f r f s = Ok s.
Proof.
  intros H0 H1 s Hs. unfold re_sub_f.
  apply sub_go_id with (Q := fun t => forallb (fun c => negb (P c)) t = true);
    [| apply forallb_tail | assumption].
  intros pre [|c rest] HQ; [apply H0|].
  apply H1. simpl in HQ. apply andb_true_iff in HQ as [HQ _].
  now apply negb_true_iff.
Qed.

(** A substitution keeps a property of characters that the replacements
    have. *)
Lemma sub_pure_forallb (P : char -> bool) (r : regex) (f : mobj -> str) :
  (forall m, forallb P (f m) = true) ->
  forall rest pre skip,
    forallb P rest = true -> forallb P (sub_pure r f pre rest skip) = true.
Proof.
  intros Hf. induction rest as [|c rest IH]; intros pre skip H; simpl.
  - destruct skip; [|reflexivity].
    destruct (match_at r pre []); [apply Hf | reflexivity].
  - simpl in H. apply andb_true_iff in H as [Hc Hr].
    destruct skip; [|now apply IH].
    destruct (match_at r pre (c :: rest)) as [m|].
    + destruct (m_text m); rewrite forallb_app, Hf; simpl;
        rewrite ?Hc; now apply IH.
    + simpl. rewrite Hc. now apply IH.
Qed.

(** The first character of a match of each pattern of the cleaner. *)

Lemma bold_first (pre : str) (c : char) (rest : str) :
  (c =? star) || (c =? underscore) = false ->
  match_at bold_re pre (c :: rest) = None.
Proof.
  intros H. apply orb_false_iff in H as [H1 H2].
  unfold match_at, bold_re. cbn in *. unfold one. now rewrite H1, H2.
Qed.

Lemma italic_first (pre : str) (c : char) (rest : str) :
  (c =? star) || (c =? underscore) = false ->
  match_at italic_re pre (c :: rest) = None.
Proof.
  intros H. apply orb_false_iff in H as [H1 H2].
  unfold match_at, italic_re. cbn in *. unfold one.
  destruct pre as [|d pre]; rewrite ?H1, ?H2; [reflexivity|].
  destruct (d =? 42), (d =? 95); reflexivity.
Qed.

Lemma italic_end (pre : str) : match_at italic_re pre [] = None.
Proof.
  unfold match_at, italic_re. cbn. unfold one.
  destruct pre as [|d pre]; [reflexivity|].
  destruct (d =? 42), (d =? 95); reflexivity.
Qed.

Lemma strike_first (pre : str) (c : char) (rest : str) :
  (c =? tilde) = false -> match_at strike_re pre (c :: rest) = None.
Proof.
  intros H. unfold match_at, strike_re. cbn in *. unfold one. now rewrite H.
Qed.

Lemma code_first (pre : str) (c : char) (rest : str) :
  (c =? backtick) = false -> match_at code_re pre (c :: rest) = None.
Proof.
  intros H. unfold match_at, code_re. cbn in *. unfold one. now rewrite H.
Qed.

Lemma link_first (pre : str) (c : char) (rest : str) :
  (c =? chr "[") = false -> match_at link_re pre (c :: rest) = None.
Proof.
  intros H. unfold match_at, link_re. cbn in *. unfold one. now rewrite H.
Qed.

Lemma angle_first (pre : str) (c : char) (rest : str) :
  angle c = false -> match_at angle_re pre (c :: rest) = None.
Proof.
  intros H. unfold match_at, angle_re. cbn in *. unfold angle in H.
  cbn in H. now rewrite H.
Qed.

Lemma spaces_first (pre : str) (c : char) (rest : str) :
  isspace c = false -> match_at spaces_re pre (c :: rest) = None.
Proof.
  intros H. unfold match_at, spaces_re. cbn [Plus rmatch]. now rewrite H.
Qed.

Lemma esc_first (e : char) (pre : str) (c : char) (rest : str) :
  (c =? backslash) = false ->
  match_at (Seq (Chr (one backslash)) (Chr (one e))) pre (c :: rest) = None.
Proof.
  intros H. unfold match_at. cbn [rmatch]. unfold one at 1. now rewrite H.
Qed.

(** An escape needs its second character. *)
Lemma esc_second (e : char) (pre rest : str) :
  forallb (fun c => negb (c =? e)) rest = true ->
  match_at (Seq (Chr (one backslash)) (Chr (one e))) pre rest = None.
Proof.
  intros H. unfold match_at. cbn [rmatch].
  destruct rest as [|c [|d rest]]; [reflexivity | | ].
  - destruct (one backslash c); reflexivity.
  - simpl in H. apply andb_true_iff in H as [_ H].
    apply andb_true_iff in H as [H _]. apply negb_true_iff in H.
    unfold one at 2. rewrite H. destruct (one backslash c); reflexivity.
Qed.

(** ** The whitespace pass *)

Lemma ws_run_le (s : str) : (ws_run s <= length s)%nat.
Proof.
  induction s as [|c s IH]; simpl; [lia|]. destruct (isspace c); lia.
Qed.

(** A greedy star with an accepting continuation stops after the whole
    run. *)
Lemma star_greedy_ws (A : Type) (k : str -> str -> option A) :
  (forall a b, k a b <> None) ->
  forall rest pre,
    star_greedy isspace k pre rest
    = k (rev (firstn (ws_run rest) rest) ++ pre) (skipn (ws_run rest) rest).
Proof.
  intros Hk. induction rest as [|c rest IH]; intros pre; simpl;
    [reflexivity|].
  destruct (isspace c); [|reflexivity].
  rewrite IH. simpl. rewrite <- app_assoc. simpl.
  destruct (k (rev (firstn (ws_run rest) rest) ++ c :: pre)
              (skipn (ws_run rest) rest)) eqn:E; [reflexivity|].
  now apply Hk in E.
Qed.

Lemma spaces_match (pre : str) (c : char) (rest : str) :
  isspace c = true ->
  exists m,
    match_at spaces_re pre (c :: rest) = Some m
    /\ m_text m = c :: firstn (ws_run rest) rest.
Proof.
  intros H. unfold match_at, spaces_re. cbn [Plus rmatch]. rewrite H.
  rewrite star_greedy_ws by discriminate.
  eexists. split; [reflexivity|]. cbn [m_text].
  set (run := firstn (ws_run rest) rest).
  replace (length (rev run ++ c :: pre) - length pre)%nat
    with (length (rev run ++ [c])).
  - replace (rev run ++ c :: pre) with ((rev run ++ [c]) ++ pre)
      by now rewrite <- app_assoc.
    rewrite firstn_app, Nat.sub_diag, firstn_all. simpl.
    rewrite app_nil_r, rev_app_distr, rev_involutive. reflexivity.
  - rewrite !length_app. simpl. lia.
Qed.

Lemma spaces_none_at_end (pre : str) : match_at spaces_re pre [] = None.
Proof. reflexivity. Qed.

(** The whitespace substitution computes [collapse_ws]. *)
Lemma sub_spaces_spec (rest : str) :
  forall pre,
    sub_pure spaces_re (fun _ => lit " ") pre rest 0 = collapse_ws false rest
    /\ sub_pure spaces_re (fun _ => lit " ") pre rest (ws_run rest)
       = collapse_ws true rest.
Proof.
  induction rest as [|c rest IH]; intros pre.
  - split; reflexivity.
  - destruct (IH (c :: pre)) as [IH0 IH1].
    cbn [sub_pure ws_run collapse_ws].
    destruct (isspace c) eqn:E.
    + destruct (spaces_match pre c rest E) as (m & Hm & Ht).
      rewrite Hm, Ht.
      rewrite length_firstn, Nat.min_l by apply ws_run_le.
      rewrite IH1. split; reflexivity.
    + rewrite spaces_first by assumption. rewrite IH0. split; reflexivity.
Qed.

Lemma re_sub_spaces (s : str) :
  re_sub spaces_re (fun _ => lit " ") s = collapse_ws false s.
Proof. unfold re_sub. apply sub_spaces_spec. Qed.

Lemma collapse_collapsed (s : str) :
  collapsed (collapse_ws false s) = true
  /\ collapsed (collapse_ws true s) = true
  /\ match collapse_ws true s with
     | d :: _ => negb (isspace d)
     | [] => true
     end = true.
Proof.
  induction s as [|c s (IH1 & IH2 & IH3)]; [repeat split; reflexivity|].
  cbn [collapse_ws]. destruct (isspace c) eqn:E.
  - repeat split; try assumption.
    cbn [collapsed]. change (isspace 32) with true. cbv iota.
    now rewrite IH3, IH2.
  - cbn [collapsed]. rewrite E, IH1. repeat split; reflexivity.
Qed.

Lemma collapsed_id (s : str) :
  collapsed s = true ->
  collapse_ws false s = s
  /\ (match s with d :: _ => negb (isspace d) | [] => true end = true ->
      collapse_ws true s = s).
Proof.
  induction s as [|c s IH]; intros H; [split; reflexivity|].
  cbn [collapsed] in H. apply andb_true_iff in H as [H1 H2].
  destruct (IH H2) as [I0 I1]. cbn [collapse_ws].
  destruct (isspace c) eqn:E.
  - apply andb_true_iff in H1 as [Hc Hn]. apply N.eqb_eq in Hc. subst c.
    split.
    + f_equal. now apply I1.
    + intros Hx. discriminate Hx.
  - rewrite I0. split; reflexivity.
Qed.

Lemma collapsed_app_l (a b : str) :
  collapsed (a ++ b) = true -> collapsed a = true.
Proof.
  induction a as [|c a IH]; [reflexivity|].
  cbn [app collapsed]. intros H. apply andb_true_iff in H as [H1 H2].
  rewrite (IH H2), andb_true_r.
  destruct (isspace c); [|reflexivity].
  apply andb_true_iff in H1 as [Hc Hn]. rewrite Hc. simpl.
  destruct a; [reflexivity | exact Hn].
Qed.

Lemma collapsed_app_r (a b : str) :
  collapsed (a ++ b) = true -> collapsed b = true.
Proof.
  induction a as [|c a IH]; [auto|].
  cbn [app collapsed]. intros H. apply andb_true_iff in H as [_ H]. auto.
Qed.

Lemma collapsed_strip (s : str) :
  collapsed s = true -> collapsed (strip s) = true.
Proof.
  intros H. unfold strip.
  destruct (lstrip_split s) as (ws & E & _).
  destruct (rstrip_split (lstrip s)) as (ws2 & E2 & _).
  rewrite E in H. apply collapsed_app_r in H.
  rewrite E2 in H. now apply collapsed_app_l in H.
Qed.

(** ** [strip] *)

Lemma lstrip_nonspace (c : char) (s : str) :
  isspace c = false -> lstrip (c :: s) = c :: s.
Proof. intros H. simpl. now rewrite H. Qed.

Lemma lstrip_snoc (x : str) (h : char) :
  isspace h = false -> lstrip (x ++ [h]) = lstrip x ++ [h].
Proof.
  intros H. induction x as [|c x IH]; simpl.
  - now rewrite H.
  - destruct (isspace c); [assumption | reflexivity].
Qed.

Lemma lstrip_idem (s : str) : lstrip (lstrip s) = lstrip s.
Proof.
  destruct (lstrip s) as [|c t] eqn:E; [reflexivity|].
  apply lstrip_head in E. now apply lstrip_nonspace.
Qed.

Lemma strip_fixed (s : str) :
  lstrip (strip s) = strip s /\ rstrip (strip s) = strip s.
Proof.
  unfold strip. split.
  - destruct (lstrip s) as [|h u] eqn:E; [reflexivity|].
    apply lstrip_head in E.
    assert (R : rstrip (h :: u) = h :: rev (lstrip (rev u))).
    { unfold rstrip. cbn [rev]. rewrite lstrip_snoc by assumption.
      now rewrite rev_app_distr. }
    rewrite R. now apply lstrip_nonspace.
  - unfold rstrip. now rewrite rev_involutive, lstrip_idem.
Qed.

Lemma strip_idem (s : str) : strip (strip s) = strip s.
Proof.
  destruct (strip_fixed s) as [L R].
  unfold strip at 1. now rewrite L, R.
Qed.

Lemma forallb_strip (P : char -> bool) (s : str) :
  forallb P s = true -> forallb P (strip s) = true.
Proof.
  intros H. unfold strip.
  destruct (lstrip_split s) as (ws & E & _).
  destruct (rstrip_split (lstrip s)) as (ws2 & E2 & _).
  rewrite E, forallb_app in H. apply andb_true_iff in H as [_ H].
  rewrite E2, forallb_app in H. now apply andb_true_iff in H as [H _].
Qed.

(** ** Angle brackets *)

Lemma match_at_class (p : char -> bool) (pre : str) (c : char) (rest : str) :
  match_at (Chr p) pre (c :: rest)
  = if p c
    then Some {| m_text := [c]; m_after := rest; m_groups := [] |}
    else None.
Proof.
  unfold match_at. cbn [rmatch]. destruct (p c); [|reflexivity].
  replace (length (c :: pre) - length pre)%nat with 1%nat
    by (cbn [length]; lia).
  reflexivity.
Qed.

Lemma sub_class_removes (p : char -> bool) :
  forall rest pre skip,
    forallb (fun c => negb (p c))
      (sub_pure (Chr p) (fun _ => []) pre rest skip) = true.
Proof.
  induction rest as [|c rest IH]; intros pre skip.
  - simpl. destruct skip; reflexivity.
  - cbn [sub_pure]. destruct skip; [|apply IH].
    rewrite match_at_class. destruct (p c) eqn:E.
    + cbn [m_text length app]. apply IH.
    + simpl. rewrite E. apply IH.
Qed.

(** ** Idempotence of the inline cleaner *)

Lemma forallb_weaken (P Q : char -> bool) (s : str) :
  (forall c, P c = true -> Q c = true) ->
  forallb P s = true -> forallb Q s = true.
Proof.
  intros HPQ. induction s as [|c s IH]; simpl; [reflexivity|].
  intros H. apply andb_true_iff in H as [H1 H2].
  now rewrite (HPQ _ H1), IH.
Qed.

(** What every output of the cleaner looks like: stripped, whitespace
    collapsed, no angle bracket. *)
Lemma clean_output_shape (x y : str) :
  _clean_inline_markdown x = Ok y ->
  strip y = y
  /\ collapsed y = true
  /\ forallb (fun c => negb (angle c)) y = true.
Proof.
  unfold _clean_inline_markdown. intros H.
  destruct (re_sub_f bold_re replace_bold x) as [t1|]; [|discriminate].
  cbn [bind] in H.
  destruct (re_sub_f italic_re replace_italic t1) as [t2|]; [|discriminate].
  cbn [bind] in H. injection H as <-.
  split; [apply strip_idem|]. split.
  - apply collapsed_strip. rewrite re_sub_spaces. apply collapse_collapsed.
  - apply forallb_strip. unfold re_sub.
    apply sub_pure_forallb; [reflexivity|].
    apply sub_pure_forallb; [reflexivity|].
    apply sub_pure_forallb; [reflexivity|].
    exact (sub_class_removes
             (fun c => (c =? chr "<") || (c =? chr ">")) _ [] 0%nat).
Qed.

Ltac delim_case :=
  let c := fresh "c" in
  intros c; unfold md_delim, star, underscore, tilde, backtick;
  cbn; destruct (c =? 42), (c =? 95), (c =? 126), (c =? 96), (c =? 91);
  simpl; auto.

Lemma re_sub_esc_id (e : char) (f : mobj -> str) (s : str) :
  forallb (fun c => negb (c =? e)) s = true ->
  re_sub (Seq (Chr (one backslash)) (Chr (one e))) f s = s.
Proof.
  intros H. unfold re_sub.
  apply sub_pure_id
    with (Q := fun t => forallb (fun c => negb (c =? e)) t = true);
    [| apply forallb_tail | assumption].
  intros. now apply esc_second.
Qed.

(** On a text with the shape of an output and none of the delimiters,
    every pass of the cleaner is the identity. *)
Lemma clean_fixed_point (y : str) :
  strip y = y ->
  collapsed y = true ->
  forallb (fun c => negb (angle c)) y = true ->
  no_md_delims y = true ->
  _clean_inline_markdown y = Ok y.
Proof.
  intros Hs Hc Ha Hd. unfold no_md_delims in Hd.
  unfold _clean_inline_markdown.
  rewrite (sub_go_first bold_re replace_bold
             (fun c => (c =? star) || (c =? underscore)));
    [| reflexivity | apply bold_first
     | revert Hd; apply forallb_weaken; delim_case ].
  cbn [bind].
  rewrite (sub_go_first italic_re replace_italic
             (fun c => (c =? star) || (c =? underscore)));
    [| apply italic_end | apply italic_first
     | revert Hd; apply forallb_weaken; delim_case ].
  cbn [bind].
  rewrite (sub_pure_first strike_re (grp 1) (one tilde));
    [| reflexivity | apply strike_first
     | revert Hd; apply forallb_weaken; unfold one; delim_case ].
  rewrite (sub_pure_first code_re (grp 1) (one backtick));
    [| reflexivity | apply code_first
     | revert Hd; apply forallb_weaken; unfold one; delim_case ].
  rewrite (sub_pure_first link_re replace_links (one (chr "[")));
    [| reflexivity | apply link_first
     | revert Hd; apply forallb_weaken; unfold one; delim_case ].
  rewrite (sub_pure_first angle_re (fun _ => []) angle);
    [| reflexivity | apply angle_first | assumption ].
  unfold esc_star_re, esc_us_re.
  rewrite (re_sub_esc_id star)
    by (revert Hd; apply forallb_weaken; delim_case).
  rewrite (re_sub_esc_id underscore)
    by (revert Hd; apply forallb_weaken; delim_case).
  rewrite re_sub_spaces.
  destruct (collapsed_id y Hc) as [-> _]. now rewrite Hs.
Qed.

(** C5.  When one pass of the inline cleaner returns a text with no
    markdown delimiter left, a second pass returns that same text:
    cleaning twice equals cleaning once. *)
Theorem clean_inline_idempotent (x y : str) :
  _clean_inline_markdown x = Ok y ->
  no_md_delims y = true ->
  _clean_inline_markdown y = Ok y
  /\ (once <- _clean_inline_markdown x ;; _clean_inline_markdown once)
     = _clean_inline_markdown x.
Proof.
  intros Hx Hd.
  destruct (clean_output_shape x y Hx) as (Hs & Hc & Ha).
  assert (F : _clean_inline_markdown y = Ok y)
    by now apply clean_fixed_point.
  split; [exact F|]. rewrite Hx. cbn [bind]. exact F.
Qed.

Lemma clean_inline_idempotent_witness :
  (_clean_inline_markdown (lit "**bold**  and *italic* [t](u) <b>")
   = Ok (lit "bold and italic t (u) b")
   /\ no_md_delims (lit "bold and italic t (u) b") = true)
  /\ _clean_inline_markdown (lit "bold and italic t (u) b")
     = Ok (lit "bold and italic t (u) b")
  /\ (once <- _clean_inline_markdown (lit "**bold**  and *italic* [t](u) <b>") ;;
      _clean_inline_markdown once)
     = _clean_inline_markdown (lit "**bold**  and *italic* [t](u) <b>").
Proof.
  split; [split; reflexivity |].
  apply (clean_inline_idempotent (lit "**bold**  and *italic* [t](u) <b>")
           (lit "bold and italic t (u) b")); reflexivity.
Defined.

(** ** The italic pattern *)

Lemma star_lazy_some (A : Type) (p : char -> bool)
      (k : str -> str -> option A) (x : A) :
  forall rest pre,
    star_lazy p k pre rest = Some x ->
    exists run rest', rest = run ++ rest' /\ k (rev run ++ pre) rest' = Some x.
Proof.
  induction rest as [|c rest IH]; intros pre H; simpl in H.
  - destruct (k pre []) eqn:E; [|discriminate].
    exists [], []. split; [reflexivity|]. simpl. congruence.
  - destruct (k pre (c :: rest)) eqn:E.
    + exists [], (c :: rest). split; [reflexivity|]. simpl. congruence.
    + destruct (p c); [|discriminate].
      apply IH in H as (run & rest' & -> & H).
      exists (c :: run), rest'. split; [reflexivity|].
      simpl. now rewrite <- app_assoc.
Qed.

(** The captured span of the italic pattern -- one boundary character,
    anything, one boundary character -- has at least two characters. *)
Lemma italic_span_sound (A : Type) (nss : char -> bool) (n : nat)
      (pre rest : str) (caps : captures) (k : cont A) (x : A) :
  rmatch (Group n (seqs [Chr nss; StarLazy any_but_newline; Chr nss]))
         pre rest caps k = Some x ->
  exists pre' rest' content,
    k pre' rest' ((n, content) :: caps) = Some x
    /\ (2 <= length content)%nat.
Proof.
  cbn [seqs rmatch]. intros H.
  destruct rest as [|c1 rest]; [discriminate|].
  destruct (nss c1); [|discriminate].
  apply star_lazy_some in H as (run & rest' & -> & H).
  destruct rest' as [|c2 rest']; [discriminate|].
  destruct (nss c2); [|discriminate].
  do 3 eexists. split; [exact H|].
  rewrite length_rev, length_firstn. cbn [length].
  rewrite !length_app, length_rev. cbn [length]. lia.
Qed.

Lemma italic_prefix_sound (A : Type) (q p : char -> bool) (R : regex)
      (pre rest : str) (caps : captures) (k : cont A) (x : A) :
  rmatch (Seq (NotBehind q) (Seq (Chr p) R)) pre rest caps k = Some x ->
  exists c rest1, rmatch R (c :: pre) rest1 caps k = Some x.
Proof.
  cbn [rmatch]. intros H.
  assert (G : match rest with
              | [] => None
              | c :: rest' =>
                  if p c then rmatch R (c :: pre) rest' caps k else None
              end = Some x).
  { destruct pre as [|d pre]; [exact H|].
    destruct (q d); [discriminate | exact H]. }
  destruct rest as [|c rest1]; [discriminate|].
  destruct (p c); [|discriminate]. eauto.
Qed.

Lemma italic_suffix_groups (p q : char -> bool) (pre0 pre rest : str)
      (caps : captures) (m : mobj) :
  rmatch (Seq (Chr p) (NotAhead q)) pre rest caps
    (fun pre' rest' caps' =>
       Some {| m_text := rev (firstn (length pre' - length pre0) pre');
               m_after := rest'; m_groups := caps' |}) = Some m ->
  m_groups m = caps.
Proof.
  cbn [rmatch]. intros H.
  destruct rest as [|c rest]; [discriminate|].
  destruct (p c); [|discriminate].
  destruct rest as [|d rest].
  - injection H as <-. reflexivity.
  - destruct (q d); [discriminate|]. injection H as <-. reflexivity.
Qed.

Lemma italic_alternative_sound (q p nss : char -> bool) (n : nat)
      (pre rest : str) (m : mobj) :
  rmatch (seqs [NotBehind q; Chr p;
                Group n (seqs [Chr nss; StarLazy any_but_newline; Chr nss]);
                Chr p; NotAhead q]) pre rest []
    (fun pre' rest' caps' =>
       Some {| m_text := rev (firstn (length pre' - length pre) pre');
               m_after := rest'; m_groups := caps' |}) = Some m ->
  exists content, m_groups m = [(n, content)] /\ (2 <= length content)%nat.
Proof.
  intros H. change (seqs [NotBehind q; Chr p;
                          Group n (seqs [Chr nss; StarLazy any_but_newline;
                                         Chr nss]);
                          Chr p; NotAhead q])
    with (Seq (NotBehind q)
            (Seq (Chr p)
               (Seq (Group n (seqs [Chr nss; StarLazy any_but_newline;
                                    Chr nss]))
                    (Seq (Chr p) (NotAhead q))))) in H.
  apply italic_prefix_sound in H as (c & rest1 & H).
  cbn [rmatch] in H.
  change (rmatch (Group n (seqs [Chr nss; StarLazy any_but_newline; Chr nss]))
            (c :: pre) rest1 []
            (fun pre' rest' caps' =>
               rmatch (Seq (Chr p) (NotAhead q)) pre' rest' caps'
                 (fun pre'0 rest'0 caps'0 =>
                    Some {| m_text := rev (firstn (length pre'0 - length pre) pre'0);
                            m_after := rest'0; m_groups := caps'0 |}))
          = Some m) in H.
  apply italic_span_sound in H as (pre' & rest' & content & H & L).
  apply italic_suffix_groups in H. eauto.
Qed.

Lemma italic_match_content (pre rest : str) (m : mobj) :
  match_at italic_re pre rest = Some m ->
  exists content,
    replace_italic m = Ok content /\ (2 <= length content)%nat.
Proof.
  unfold match_at, italic_re. cbn [rmatch]. intros H.
  match type of H with
  | match ?a with _ => _ end = _ => destruct a as [m1|] eqn:E
  end.
  - injection H as ->.
    apply italic_alternative_sound in E as (content & G & L).
    exists content. split; [|exact L].
    unfold replace_italic. rewrite G. cbn.
    destruct content; [simpl in L; lia | reflexivity].
  - apply italic_alternative_sound in H as (content & G & L).
    exists content. split; [|exact L].
    unfold replace_italic. rewrite G. cbn.
    destruct content; [simpl in L; lia | reflexivity].
Qed.

(** ** One-character spans *)


(** Where the italic pattern matches, the text is a delimiter, a first
    content character, any run, a last content character and the same
    delimiter again. *)
Lemma italic_prefix_shape (A : Type) (q p : char -> bool) (R : regex)
      (pre rest : str) (caps : captures) (k : cont A) (x : A) :
  rmatch (Seq (NotBehind q) (Seq (Chr p) R)) pre rest caps k = Some x ->
  exists c rest1,
    rest = c :: rest1 /\ p c = true
    /\ rmatch R (c :: pre) rest1 caps k = Some x.
Proof.
  cbn [rmatch]. intros H.
  assert (G : match rest with
              | [] => None
              | c :: rest' =>
                  if p c then rmatch R (c :: pre) rest' caps k else None
              end = Some x).
  { destruct pre as [|d pre]; [exact H|].
    destruct (q d); [discriminate | exact H]. }
  destruct rest as [|c rest1]; [discriminate|].
  destruct (p c) eqn:E; [|discriminate]. eauto.
Qed.

Lemma italic_span_shape (A : Type) (nss : char -> bool) (n : nat)
      (pre rest : str) (caps : captures) (k : cont A) (x : A) :
  rmatch (Group n (seqs [Chr nss; StarLazy any_but_newline; Chr nss]))
         pre rest caps k = Some x ->
  exists c1 mid c2 rest2 pre' caps',
    rest = c1 :: mid ++ c2 :: rest2
    /\ nss c1 = true /\ nss c2 = true
    /\ k pre' rest2 caps' = Some x.
Proof.
  cbn [seqs rmatch]. intros H.
  destruct rest as [|c1 rest]; [discriminate|].
  destruct (nss c1) eqn:E1; [|discriminate].
  apply star_lazy_some in H as (run & rest' & -> & H).
  destruct rest' as [|c2 rest']; [discriminate|].
  destruct (nss c2) eqn:E2; [|discriminate].
  exists c1, run, c2, rest'. do 2 eexists. repeat split; eauto.
Qed.

Lemma italic_suffix_shape (A : Type) (p q : char -> bool)
      (pre rest : str) (caps : captures) (k : cont A) (x : A) :
  rmatch (Seq (Chr p) (NotAhead q)) pre rest caps k = Some x ->
  exists c3 after, rest = c3 :: after /\ p c3 = true.
Proof.
  cbn [rmatch]. intros H.
  destruct rest as [|c rest]; [discriminate|].
  destruct (p c) eqn:E; [|discriminate]. eauto.
Qed.

Lemma italic_alt_shape (A : Type) (q p nss : char -> bool) (n : nat)
      (pre rest : str) (caps : captures) (k : cont A) (x : A) :
  rmatch (seqs [NotBehind q; Chr p;
                Group n (seqs [Chr nss; StarLazy any_but_newline; Chr nss]);
                Chr p; NotAhead q]) pre rest caps k = Some x ->
  exists c0 c1 mid c2 c3 after,
    rest = c0 :: c1 :: mid ++ c2 :: c3 :: after
    /\ p c0 = true /\ nss c1 = true /\ nss c2 = true /\ p c3 = true.
Proof.
  intros H. change (seqs [NotBehind q; Chr p;
                          Group n (seqs [Chr nss; StarLazy any_but_newline;
                                         Chr nss]);
                          Chr p; NotAhead q])
    with (Seq (NotBehind q)
            (Seq (Chr p)
               (Seq (Group n (seqs [Chr nss; StarLazy any_but_newline;
                                    Chr nss]))
                    (Seq (Chr p) (NotAhead q))))) in H.
  apply italic_prefix_shape in H as (c0 & rest1 & -> & P0 & H).
  cbn [rmatch] in H.
  change (rmatch (Group n (seqs [Chr nss; StarLazy any_but_newline; Chr nss]))
            (c0 :: pre) rest1 caps
            (fun pre' rest' caps' =>
               rmatch (Seq (Chr p) (NotAhead q)) pre' rest' caps' k)
          = Some x) in H.
  apply italic_span_shape
    in H as (c1 & mid & c2 & rest2 & pre' & caps' & -> & N1 & N2 & H).
  apply italic_suffix_shape in H as (c3 & after & -> & P3).
  exists c0, c1, mid, c2, c3, after. auto.
Qed.

Lemma italic_match_shape (pre rest : str) (m : mobj) :
  match_at italic_re pre rest = Some m ->
  exists dl c1 mid c2 after,
    emphasis_delim dl = true
    /\ rest = dl :: c1 :: mid ++ c2 :: dl :: after
    /\ (c1 =? dl) = false /\ (c2 =? dl) = false.
Proof.
  unfold match_at, italic_re. cbn [rmatch]. intros H.
  match type of H with
  | match ?a with _ => _ end = _ => destruct a as [m1|] eqn:E
  end.
  - clear H. apply italic_alt_shape
      in E as (c0 & c1 & mid & c2 & c3 & after & -> & P0 & N1 & N2 & P3).
    unfold one in P0, P3. apply N.eqb_eq in P0, P3. subst c0 c3.
    exists star, c1, mid, c2, after. unfold not_star_space in N1, N2.
    apply andb_true_iff in N1 as [N1 _], N2 as [N2 _].
    apply negb_true_iff in N1, N2. repeat split; auto.
  - apply italic_alt_shape
      in H as (c0 & c1 & mid & c2 & c3 & after & -> & P0 & N1 & N2 & P3).
    unfold one in P0, P3. apply N.eqb_eq in P0, P3. subst c0 c3.
    exists underscore, c1, mid, c2, after. unfold not_us_space in N1, N2.
    apply andb_true_iff in N1 as [N1 _], N2 as [N2 _].
    apply negb_true_iff in N1, N2. repeat split; auto.
Qed.

(** Where the bold pattern matches, the text begins with a doubled
    delimiter and holds the same doubled delimiter again later. *)
Lemma bold_match_shape (pre rest : str) (m : mobj) :
  match_at bold_re pre rest = Some m ->
  exists dl mid after,
    emphasis_delim dl = true
    /\ rest = dl :: dl :: mid ++ dl :: dl :: after.
Proof.
  unfold match_at, bold_re. cbn [rmatch seqs]. intros H.
  match type of H with
  | match ?a with _ => _ end = _ => destruct a as [m1|] eqn:E
  end.
  - clear H.
    destruct rest as [|c1 [|c2 rest]]; try discriminate;
      [destruct (one star c1); discriminate|].
    destruct (one star c1) eqn:C1; [|discriminate].
    destruct (one star c2) eqn:C2; [|discriminate].
    apply star_lazy_some in E as (run & rest' & -> & E).
    destruct rest' as [|c3 [|c4 rest']]; try discriminate;
      [destruct (one star c3); discriminate|].
    destruct (one star c3) eqn:C3; [|discriminate].
    destruct (one star c4) eqn:C4; [|discriminate].
    unfold one in *. apply N.eqb_eq in C1, C2, C3, C4. subst.
    exists star, run, rest'. auto.
  - destruct rest as [|c1 [|c2 rest]]; try discriminate;
      [destruct (one underscore c1); discriminate|].
    destruct (one underscore c1) eqn:C1; [|discriminate].
    destruct (one underscore c2) eqn:C2; [|discriminate].
    clear E. apply star_lazy_some in H as (run & rest' & -> & E).
    destruct rest' as [|c3 [|c4 rest']]; try discriminate;
      [destruct (one underscore c3); discriminate|].
    destruct (one underscore c3) eqn:C3; [|discriminate].
    destruct (one underscore c4) eqn:C4; [|discriminate].
    unfold one in *. apply N.eqb_eq in C1, C2, C3, C4. subst.
    exists underscore, run, rest'. auto.
Qed.

Lemma no_emphasis_has (u v : str) (dl : char) :
  no_emphasis (u ++ dl :: v) = true -> emphasis_delim dl = true -> False.
Proof.
  unfold no_emphasis. rewrite forallb_app. cbn [forallb]. intros H D.
  rewrite D in H. cbn in H. now rewrite andb_false_r in H.
Qed.

Lemma no_emphasis_has2 (u v : str) (c dl : char) :
  no_emphasis (u ++ c :: dl :: v) = true -> emphasis_delim dl = true -> False.
Proof.
  intros H. apply (no_emphasis_has (u ++ [c]) v dl).
  now rewrite <- app_assoc.
Qed.

Lemma span_tail_tl (x d : char) (b : str) (c : char) (rest : str) :
  no_emphasis b = true ->
  span_tail x d b (c :: rest) -> span_tail x d b rest.
Proof.
  intros Hb [(a' & Ha & E) | [E | [E | H]]].
  - destruct a' as [|c' a'].
    + injection E as _ ->. right. now left.
    + injection E as _ ->. left. exists a'. split; [|reflexivity].
      cbn in Ha. now apply andb_true_iff in Ha.
  - injection E as _ ->. right. right. now left.
  - injection E as _ ->. right. right. now right.
  - right. right. right. cbn in H. now apply andb_true_iff in H.
Qed.

Lemma span_tail_no_italic (x d : char) (b pre rest : str) :
  no_emphasis b = true ->
  span_tail x d b rest -> match_at italic_re pre rest = None.
Proof.
  intros Hb T. destruct (match_at italic_re pre rest) as [m|] eqn:M;
    [|reflexivity].
  exfalso.
  apply italic_match_shape in M as (dl & c1 & mid & c2 & after & D & E & N1 & N2).
  destruct T as [(a' & Ha & T) | [T | [T | H]]]; rewrite T in E || subst rest.
  - destruct a' as [|c' a'].
    + injection E as -> -> E.
      destruct mid as [|c mid]; injection E as -> E.
      * now rewrite N.eqb_refl in N2.
      * rewrite E in Hb. eapply no_emphasis_has2; eassumption.
    + injection E as -> _. cbn in Ha. now rewrite D in Ha.
  - injection E as -> -> E. rewrite E in Hb.
    eapply no_emphasis_has2; eassumption.
  - injection E as -> E. rewrite E in Hb.
    apply (no_emphasis_has2 (c1 :: mid) after c2 dl); assumption.
  - cbn in H. now rewrite D in H.
Qed.

Lemma span_tail_no_bold (x d : char) (b pre rest : str) :
  no_emphasis b = true ->
  span_tail x d b rest -> match_at bold_re pre rest = None.
Proof.
  intros Hb T. destruct (match_at bold_re pre rest) as [m|] eqn:M;
    [|reflexivity].
  exfalso.
  apply bold_match_shape in M as (dl & mid & after & D & E).
  destruct T as [(a' & Ha & T) | [T | [T | H]]]; rewrite T in E || subst rest.
  - destruct a' as [|c' a'].
    + injection E as -> -> E.
      destruct mid as [|c mid]; cbn [app] in E.
      * assert (E' : b = dl :: after) by congruence.
        rewrite E' in Hb. cbn in Hb. now rewrite D in Hb.
      * assert (E' : b = mid ++ dl :: dl :: after) by congruence.
        rewrite E' in Hb. eapply no_emphasis_has; eassumption.
    + injection E as -> _. cbn in Ha. now rewrite D in Ha.
  - injection E as -> -> E. rewrite E in Hb.
    eapply no_emphasis_has; eassumption.
  - injection E as -> E. rewrite E in Hb. cbn in Hb. now rewrite D in Hb.
  - cbn in H. now rewrite D in H.
Qed.

(** Neither emphasis pattern matches anywhere in such a text. *)
Lemma emphasis_on_span (a b : str) (x d : char) :
  no_emphasis a = true -> no_emphasis b = true ->
  let t := a ++ [d; x; d] ++ b in
  re_sub_f bold_re replace_bold t = Ok t
  /\ re_sub_f italic_re replace_italic t = Ok t.
Proof.
  intros Ha Hb t.
  assert (T : span_tail x d b t) by (left; exists a; auto).
  split; unfold re_sub_f;
    apply sub_go_id with (Q := span_tail x d b); auto.
  - intros pre rest Q. exact (span_tail_no_bold x d b pre rest Hb Q).
  - intros c rest. now apply span_tail_tl.
  - intros pre rest Q. exact (span_tail_no_italic x d b pre rest Hb Q).
  - intros c rest. now apply span_tail_tl.
Qed.

(** A pattern that needs a first character of class [F] and, after it, a
    character of class [G] finds nothing in a text with a single [F]
    character and no [G] character after it. *)
Lemma sub_pure_single (r : regex) (f : mobj -> str) (F G : char -> bool) :
  (forall pre, match_at r pre [] = None) ->
  (forall pre c rest, F c = false -> match_at r pre (c :: rest) = None) ->
  (forall pre c rest,
      forallb (fun y => negb (G y)) rest = true ->
      match_at r pre (c :: rest) = None) ->
  forall u y v,
    forallb (fun c => negb (F c)) u = true ->
    forallb (fun c => negb (F c)) v = true ->
    forallb (fun c => negb (G c)) v = true ->
    re_sub r f (u ++ y :: v) = u ++ y :: v.
Proof.
  intros H0 H1 H2 u y v Hu Hv Gv. unfold re_sub.
  apply sub_pure_id
    with (Q := fun rest =>
                 (exists u', forallb (fun c => negb (F c)) u' = true
                             /\ rest = u' ++ y :: v)
                 \/ forallb (fun c => negb (F c)) rest = true).
  - intros pre rest [(u' & Hu' & ->) | Hr].
    + destruct u' as [|c u']; [now apply H2|].
      apply H1. cbn in Hu'. apply andb_true_iff in Hu' as [Hc _].
      now apply negb_true_iff.
    + destruct rest as [|c rest]; [apply H0|].
      apply H1. cbn in Hr. apply andb_true_iff in Hr as [Hc _].
      now apply negb_true_iff.
  - intros c rest [(u' & Hu' & E) | Hr].
    + destruct u' as [|c' u']; injection E as _ ->.
      * now right.
      * left. exists u'. split; [|reflexivity].
        cbn in Hu'. now apply andb_true_iff in Hu'.
    + right. cbn in Hr. now apply andb_true_iff in Hr.
  - left. exists u. auto.
Qed.

Lemma strike_close (pre : str) (c : char) (rest : str) :
  forallb (fun y => negb (one tilde y)) rest = true ->
  match_at strike_re pre (c :: rest) = None.
Proof.
  intros H. unfold match_at, strike_re. cbn [seqs rmatch].
  destruct (one tilde c); [|reflexivity].
  destruct rest as [|c2 rest]; [reflexivity|].
  cbn [forallb] in H. apply andb_true_iff in H as [H _]. apply negb_true_iff in H.
  now rewrite H.
Qed.

Lemma code_close (pre : str) (c : char) (rest : str) :
  forallb (fun y => negb (one backtick y)) rest = true ->
  match_at code_re pre (c :: rest) = None.
Proof.
  intros H. unfold match_at, code_re. cbn [seqs rmatch Plus].
  destruct (one backtick c); [|reflexivity].
  destruct rest as [|c2 rest]; [reflexivity|].
  destruct (negb (c2 =? backtick)); [|reflexivity].
  apply forallb_tail in H.
  apply star_greedy_none
    with (Q := fun t => forallb (fun y => negb (one backtick y)) t = true);
    [| intros ? ? Hq _; now apply forallb_tail in Hq | exact H].
  intros pre' [|c3 rest'] Hq; [reflexivity|].
  cbn [forallb] in Hq. apply andb_true_iff in Hq as [Hq _].
  apply negb_true_iff in Hq. now rewrite Hq.
Qed.

Lemma link_close (pre : str) (c : char) (rest : str) :
  forallb (fun y => negb (one (chr "]") y)) rest = true ->
  match_at link_re pre (c :: rest) = None.
Proof.
  intros H. unfold match_at, link_re. cbn [seqs rmatch Plus].
  destruct (one (chr "[") c); [|reflexivity].
  destruct rest as [|c2 rest]; [reflexivity|].
  destruct (negb (c2 =? chr "]")); [|reflexivity].
  apply forallb_tail in H.
  apply star_greedy_none
    with (Q := fun t => forallb (fun y => negb (one (chr "]") y)) t = true);
    [| intros ? ? Hq _; now apply forallb_tail in Hq | exact H].
  intros pre' [|c3 rest'] Hq; [reflexivity|].
  cbn [forallb] in Hq. apply andb_true_iff in Hq as [Hq _].
  apply negb_true_iff in Hq. now rewrite Hq.
Qed.

Lemma forallb_span (P : char -> bool) (a b : str) (x d : char) :
  forallb P a = true -> forallb P b = true -> P d = true -> P x = true ->
  forallb P (a ++ [d; x; d] ++ b) = true.
Proof.
  intros Ha Hb Hd Hx. rewrite !forallb_app. cbn [forallb].
  now rewrite Ha, Hb, Hd, Hx.
Qed.

Lemma later_markup_facts (c : char) :
  later_markup c = false ->
  one tilde c = false /\ one backtick c = false /\ one (chr "[") c = false
  /\ one (chr "]") c = false /\ angle c = false /\ one backslash c = false.
Proof.
  unfold later_markup, one. intros H.
  repeat (apply orb_false_iff in H as [H ?]). auto 10.
Qed.

Lemma delim_not_later (d : char) :
  emphasis_delim d = true -> later_markup d = false.
Proof.
  unfold emphasis_delim. intros H. apply orb_true_iff in H as [H | H];
    apply N.eqb_eq in H; subst d; reflexivity.
Qed.

(** The passes after the emphasis passes find nothing to do either when
    the text around the span holds none of their characters. *)
Lemma later_passes_on_span (a b : str) (x d : char) :
  emphasis_delim d = true ->
  no_later_markup a = true -> no_later_markup b = true ->
  angle x = false -> (x =? backslash) = false ->
  let t := a ++ [d; x; d] ++ b in
  re_sub strike_re (grp 1) t = t
  /\ re_sub code_re (grp 1) t = t
  /\ re_sub link_re replace_links t = t
  /\ re_sub angle_re (fun _ => []) t = t
  /\ re_sub esc_star_re (fun _ => lit "*") t = t
  /\ re_sub esc_us_re (fun _ => lit "_") t = t.
Proof.
  intros Hd Ha Hb Xa Xb t.
  pose proof (delim_not_later d Hd) as Dl.
  destruct (later_markup_facts d Dl) as (D1 & D2 & D3 & D4 & D5 & D6).
  assert (W : forall (P : char -> bool) s,
             (forall c, later_markup c = false -> P c = false) ->
             no_later_markup s = true ->
             forallb (fun c => negb (P c)) s = true).
  { intros P s HP. apply forallb_weaken. intros c Hc.
    apply negb_true_iff in Hc. now rewrite (HP c Hc). }
  assert (E : t = (a ++ [d]) ++ x :: d :: b)
    by (unfold t; now rewrite <- app_assoc).
  assert (Single : forall r f (F G : char -> bool),
             (forall pre, match_at r pre [] = None) ->
             (forall pre c rest, F c = false ->
                                 match_at r pre (c :: rest) = None) ->
             (forall pre c rest,
                 forallb (fun y => negb (G y)) rest = true ->
                 match_at r pre (c :: rest) = None) ->
             (forall c, later_markup c = false -> F c = false) ->
             (forall c, later_markup c = false -> G c = false) ->
             re_sub r f t = t).
  { intros r f F G H0 H1 H2 HF HG. rewrite E.
    apply (sub_pure_single r f F G H0 H1 H2).
    - rewrite forallb_app, (W F a HF Ha). cbn. now rewrite (HF d Dl).
    - cbn [forallb]. now rewrite (HF d Dl), (W F b HF Hb).
    - cbn [forallb]. now rewrite (HG d Dl), (W G b HG Hb). }
  repeat split.
  - apply (Single strike_re (grp 1) (one tilde) (one tilde));
      [reflexivity | apply strike_first | apply strike_close | |];
      intros c Hc; now apply later_markup_facts in Hc.
  - apply (Single code_re (grp 1) (one backtick) (one backtick));
      [reflexivity | apply code_first | apply code_close | |];
      intros c Hc; now apply later_markup_facts in Hc.
  - apply (Single link_re replace_links (one (chr "[")) (one (chr "]")));
      [reflexivity | apply link_first | apply link_close | |];
      intros c Hc; now apply later_markup_facts in Hc.
  - apply (sub_pure_first angle_re (fun _ => []) angle);
      [reflexivity | apply angle_first |].
    apply forallb_span; rewrite ?D5, ?Xa; try reflexivity;
      apply (W angle); auto; intros c Hc; now apply later_markup_facts in Hc.
  - apply (sub_pure_first esc_star_re (fun _ => lit "*") (one backslash));
      [reflexivity | apply esc_first |].
    apply forallb_span; rewrite ?D6; unfold one; rewrite ?Xb;
      try reflexivity;
      apply (W (one backslash)); auto;
      intros c Hc; now apply later_markup_facts in Hc.
  - apply (sub_pure_first esc_us_re (fun _ => lit "_") (one backslash));
      [reflexivity | apply esc_first |].
    apply forallb_span; rewrite ?D6; unfold one; rewrite ?Xb;
      try reflexivity;
      apply (W (one backslash)); auto;
      intros c Hc; now apply later_markup_facts in Hc.
Qed.

Lemma clean_span (a b : str) (x d : char) :
  emphasis_delim d = true ->
  no_emphasis a = true -> no_emphasis b = true ->
  no_later_markup a = true -> no_later_markup b = true ->
  angle x = false -> (x =? backslash) = false ->
  strip (a ++ [d; x; d] ++ b) = a ++ [d; x; d] ++ b ->
  collapsed (a ++ [d; x; d] ++ b) = true ->
  _clean_inline_markdown (a ++ [d; x; d] ++ b) = Ok (a ++ [d; x; d] ++ b).
Proof.
  intros Hd Ea Eb La Lb Xa Xb Hs Hc.
  destruct (emphasis_on_span a b x d Ea Eb) as [B I].
  destruct (later_passes_on_span a b x d Hd La Lb Xa Xb)
    as (S1 & S2 & S3 & S4 & S5 & S6).
  unfold _clean_inline_markdown. rewrite B. cbn [bind]. rewrite I.
  cbn [bind]. rewrite S1, S2, S3, S4, S5, S6, re_sub_spaces.
  destruct (collapsed_id _ Hc) as [-> _]. now rewrite Hs.
Qed.

(** C10, as amended.  In a text whose only emphasis delimiters are the two
    that enclose a single character, neither emphasis pattern matches
    anywhere: both emphasis passes return the text as it is, whatever the
    enclosed character and the rest of the text are.  When the text around
    the span holds none of the characters the later passes react to, the
    enclosed character is neither an angle bracket nor a backslash and the
    whitespace of the text is already normalised, the inline cleaner
    returns the text completely unchanged.  And wherever the italic
    pattern does match, the content it captures has at least two
    characters. *)
Theorem single_character_span
  (a b : str) (x d : char) (pre rest : str) (m : mobj) :
  emphasis_delim d = true ->
  no_emphasis a = true -> no_emphasis b = true ->
  match_at italic_re pre rest = Some m ->
  let t := a ++ [d; x; d] ++ b in
  (re_sub_f bold_re replace_bold t = Ok t
   /\ re_sub_f italic_re replace_italic t = Ok t)
  /\ (no_later_markup a = true -> no_later_markup b = true ->
      angle x = false -> (x =? backslash) = false ->
      strip t = t -> collapsed t = true ->
      _clean_inline_markdown t = Ok t)
  /\ exists content,
       replace_italic m = Ok content /\ (2 <= length content)%nat.
Proof.
  intros Hd Ea Eb Hm t. split; [|split].
  - now apply emphasis_on_span.
  - intros La Lb Xa Xb Hs Hc. now apply clean_span.
  - eapply italic_match_content; eassumption.
Qed.

Lemma single_character_span_witness :
  (emphasis_delim star = true
   /\ no_emphasis (lit "see ") = true /\ no_emphasis (lit " here") = true
   /\ match_at italic_re (rev (lit "a ")) (lit "*bc* d")
      = Some {| m_text := lit "*bc*"; m_after := lit " d";
                m_groups := [(1%nat, lit "bc")] |})
  /\ (re_sub_f bold_re replace_bold (lit "see *x* here")
      = Ok (lit "see *x* here")
      /\ re_sub_f italic_re replace_italic (lit "see *x* here")
         = Ok (lit "see *x* here"))
  /\ _clean_inline_markdown (lit "see *x* here") = Ok (lit "see *x* here")
  /\ exists content,
       replace_italic {| m_text := lit "*bc*"; m_after := lit " d";
                         m_groups := [(1%nat, lit "bc")] |} = Ok content
       /\ (2 <= length content)%nat.
Proof.
  split; [repeat split; reflexivity |].
  destruct (single_character_span (lit "see ") (lit " here") (chr "x") star
              (rev (lit "a ")) (lit "*bc* d")
              {| m_text := lit "*bc*"; m_after := lit " d";
                 m_groups := [(1%nat, lit "bc")] |})
    as (E & C & I); try reflexivity.
  split; [exact E|]. split; [|exact I].
  apply C; reflexivity.
Defined.

(** Other one-character spans the cleaner returns unchanged: the enclosed
    character may itself be a character of a later pass. *)
Example short_spans_unchanged :
  _clean_inline_markdown (lit "_x_") = Ok (lit "_x_")
  /\ _clean_inline_markdown (lit "*~*") = Ok (lit "*~*")
  /\ _clean_inline_markdown (lit "*[*") = Ok (lit "*[*")
  /\ _clean_inline_markdown (lit "*`*") = Ok (lit "*`*").
Proof. repeat split; vm_compute; reflexivity. Qed.

(** C10, as stated, fails: in a text with two one-character spans the
    first opening asterisk pairs with the last closing one, and both are
    removed. *)
Lemma short_spans_in_longer_text_change :
  _clean_inline_markdown (lit "*x* *y*") = Ok (lit "x* *y")
  /\ lit "x* *y" <> lit "*x* *y*".
Proof. split; [vm_compute; reflexivity | discriminate]. Qed.

(** * Further properties of the pipeline *)

(** ** Shape of cleaned text *)

Lemma collapsed_no_newline (s : str) :
  collapsed s = true -> no_newline s = true.
Proof.
  induction s as [|c s IH]; [reflexivity|].
  cbn [collapsed no_newline forallb]. intros H.
  apply andb_true_iff in H as [H1 H2]. fold (no_newline s).
  rewrite (IH H2), andb_true_r.
  destruct (isspace c) eqn:E.
  - apply andb_true_iff in H1 as [H1 _]. apply N.eqb_eq in H1. now subst.
  - destruct (c =? LF) eqn:F; [|reflexivity].
    apply N.eqb_eq in F. subst. discriminate.
Qed.

(** Whatever the inline cleaner returns has no leading or trailing
    whitespace, no whitespace other than single spaces, no angle bracket
    and no newline. *)
Theorem clean_output_well_formed (x y : str) :
  _clean_inline_markdown x = Ok y ->
  strip y = y
  /\ collapsed y = true
  /\ forallb (fun c => negb (angle c)) y = true
  /\ no_newline y = true.
Proof.
  intros H. destruct (clean_output_shape x y H) as (S & C & A).
  auto using collapsed_no_newline.
Qed.

Lemma clean_output_well_formed_witness :
  _clean_inline_markdown ([9] ++ lit "a <b>  **c**" ++ [10; 32])
  = Ok (lit "a b c")
  /\ strip (lit "a b c") = lit "a b c"
  /\ collapsed (lit "a b c") = true
  /\ forallb (fun c => negb (angle c)) (lit "a b c") = true
  /\ no_newline (lit "a b c") = true.
Proof.
  split; [reflexivity|].
  apply (clean_output_well_formed ([9] ++ lit "a <b>  **c**" ++ [10; 32])).
  reflexivity.
Defined.

(** ** HTML escaping *)

(** Escaped text contains no angle bracket and no quote character. *)
Theorem escape_no_special (s : str) :
  forallb (fun c => negb (html_special c)) (escape s) = true.
Proof.
  induction s as [|c s IH]; [reflexivity|].
  cbn [escape flat_map]. fold (escape s). rewrite forallb_app, IH, andb_true_r.
  unfold escape_char, html_special. cbn.
  destruct (c =? 38); [reflexivity|].
  destruct (c =? 60) eqn:E1; [reflexivity|].
  destruct (c =? 62) eqn:E2; [reflexivity|].
  destruct (c =? 34) eqn:E3; [reflexivity|].
  destruct (c =? 39) eqn:E4; [reflexivity|].
  cbn. now rewrite E1, E2, E3, E4.
Qed.

(** Text with none of the five escaped characters is left as it is. *)
Theorem escape_plain (s : str) :
  forallb (fun c => negb (html_special c) && negb (c =? chr "&")) s = true ->
  escape s = s.
Proof.
  induction s as [|c s IH]; [reflexivity|].
  cbn [forallb escape flat_map]. fold (escape s). intros H.
  apply andb_true_iff in H as [H1 H2]. rewrite (IH H2).
  unfold escape_char. unfold html_special in H1. cbn in H1 |- *.
  destruct (c =? 38), (c =? 60), (c =? 62), (c =? 34), (c =? 39);
    try discriminate H1; reflexivity.
Qed.

Lemma escape_plain_witness :
  forallb (fun c => negb (html_special c) && negb (c =? chr "&"))
    (lit "a b (c)") = true
  /\ escape (lit "a b (c)") = lit "a b (c)".
Proof.
  split; [reflexivity|]. apply (escape_plain (lit "a b (c)")). reflexivity.
Defined.

(** ** What the sanitizer leaves behind *)

Lemma replace_go_forallb (P : char -> bool) (old new : str) :
  forallb P new = true ->
  forall s skip,
    forallb P s = true -> forallb P (replace_go old new skip s) = true.
Proof.
  intros Hn. induction s as [|c s IH]; intros skip H; [reflexivity|].
  cbn [forallb] in H. apply andb_true_iff in H as [Hc Hs].
  cbn [replace_go]. destruct skip; [|now apply IH].
  destruct (startswith (c :: s) old).
  - rewrite forallb_app, Hn. now apply IH.
  - cbn [forallb]. rewrite Hc. now apply IH.
Qed.

(** Replacing a one-character string removes every occurrence of it. *)
Lemma replace_char_removes (k : char) (new : str) :
  forallb (fun c => negb (c =? k)) new = true ->
  forall s skip,
    forallb (fun c => negb (c =? k)) (replace_go [k] new skip s) = true.
Proof.
  intros Hn. induction s as [|c s IH]; intros skip; [reflexivity|].
  cbn [replace_go]. destruct skip; [|apply IH].
  cbn [startswith]. rewrite andb_true_r.
  destruct (c =? k) eqn:E.
  - rewrite forallb_app, Hn. apply IH.
  - cbn [forallb]. rewrite E. apply IH.
Qed.

Lemma odd_dash_split (s : str) :
  forallb (fun c => negb (c =? 8209)) s = true ->
  forallb (fun c => negb (c =? 8210)) s = true ->
  forallb (fun c => negb (c =? 173)) s = true ->
  forallb (fun c => negb (c =? 8211)) s = true ->
  forallb (fun c => negb (c =? 8212)) s = true ->
  forallb (fun c => negb (odd_dash c)) s = true.
Proof.
  induction s as [|c s IH]; [reflexivity|]. cbn [forallb]. intros A B C D E.
  apply andb_true_iff in A as [A1 A2]. apply andb_true_iff in B as [B1 B2].
  apply andb_true_iff in C as [C1 C2]. apply andb_true_iff in D as [D1 D2].
  apply andb_true_iff in E as [E1 E2]. rewrite IH by assumption.
  unfold odd_dash.
  destruct (c =? 8209), (c =? 8210), (c =? 173), (c =? 8211), (c =? 8212);
    try discriminate; reflexivity.
Qed.

(** The sanitizer's result has no leading or trailing whitespace, no
    zero-width character and none of the dash look-alikes of its
    replacement table. *)
Theorem sanitized_text_clean (text : str) :
  strip (_remove_ai_artifacts text) = _remove_ai_artifacts text
  /\ forallb (fun c => negb (zero_width c)) (_remove_ai_artifacts text) = true
  /\ forallb (fun c => negb (odd_dash c)) (_remove_ai_artifacts text) = true.
Proof.
  unfold _remove_ai_artifacts.
  set (t := cut_to_first_heading _).
  split; [apply strip_idem|]. split.
  - apply forallb_strip.
    exact (sub_class_removes
             (fun c => ((8203 <=? c) && (c <=? 8205)) || (c =? 65279)) _ [] 0%nat).
  - apply forallb_strip. unfold re_sub.
    cbn [fold_left replacements fst snd]. unfold replace.
    apply odd_dash_split; apply sub_pure_forallb; try reflexivity;
      repeat first
        [ apply replace_char_removes; reflexivity
        | apply replace_go_forallb; [reflexivity|] ].
Qed.

(** ** When the inline cleaner cannot raise *)

Lemma sub_go_ok (r : regex) (f : mobj -> result str) (Q : str -> Prop) :
  (forall pre rest m,
      Q rest -> match_at r pre rest = Some m -> exists s, f m = Ok s) ->
  (forall c rest, Q (c :: rest) -> Q rest) ->
  forall rest pre skip, Q rest -> exists out, sub_go r f pre rest skip = Ok out.
Proof.
  intros Hf Hq. induction rest as [|c rest IH]; intros pre skip HQ.
  - cbn [sub_go]. destruct skip; [|eauto].
    destruct (match_at r pre []) as [m|] eqn:E; [|eauto].
    eapply Hf; eassumption.
  - assert (HQ' : Q rest) by (eapply Hq; eassumption).
    cbn [sub_go]. destruct skip; [|now apply IH].
    destruct (match_at r pre (c :: rest)) as [m|] eqn:E.
    + destruct (Hf _ _ _ HQ E) as [s ->]. cbn [bind].
      destruct (m_text m) as [|? t].
      * destruct (IH (c :: pre) 0%nat HQ') as [out ->]. cbn [bind]. eauto.
      * destruct (IH (c :: pre) (length t) HQ') as [out ->]. cbn [bind]. eauto.
    + destruct (IH (c :: pre) 0%nat HQ') as [out ->]. cbn [bind]. eauto.
Qed.

Lemma contains_tail (c : char) (s p : str) :
  contains (c :: s) p = false -> contains s p = false.
Proof. cbn [contains]. intros H. now apply orb_false_iff in H. Qed.

Lemma contains_not_prefix (s p : str) :
  contains s p = false -> startswith s p = false.
Proof.
  intros H. destruct (startswith s p) eqn:E; [|reflexivity].
  apply contains_prefix in E. congruence.
Qed.

(** A match of the bold pattern either took the underscore alternative,
    or captured a non-empty text between the asterisks, or is exactly four
    asterisks. *)
Lemma bold_match_cases (pre rest : str) (m : mobj) :
  match_at bold_re pre rest = Some m ->
  (exists s, replace_bold m = Ok s) \/ startswith rest (lit "****") = true.
Proof.
  unfold match_at, bold_re. cbn [rmatch seqs]. intros H.
  match type of H with
  | match ?a with _ => _ end = _ => destruct a as [m1|] eqn:E
  end.
  - injection H as ->.
    destruct rest as [|c1 [|c2 rest]]; try discriminate;
      [destruct (one star c1); discriminate|].
    destruct (one star c1) eqn:C1; [|discriminate].
    destruct (one star c2) eqn:C2; [|discriminate].
    apply star_lazy_some in E as (run & rest' & -> & E).
    destruct rest' as [|c3 [|c4 rest']]; try discriminate;
      [destruct (one star c3); discriminate|].
    destruct (one star c3) eqn:C3; [|discriminate].
    destruct (one star c4) eqn:C4; [|discriminate].
    injection E as <-. unfold replace_bold. cbn [m_groups group Nat.eqb].
    destruct run as [|x run].
    + right. unfold one in *. apply N.eqb_eq in C1, C2, C3, C4. now subst.
    + left. set (content := rev (firstn _ _)).
      assert (L : (1 <= length content)%nat).
      { subst content. rewrite length_rev, length_firstn.
        rewrite length_app, length_rev. cbn [length]. lia. }
      destruct content; [simpl in L; lia | cbn [py_or]; eauto].
  - left.
    destruct rest as [|c1 [|c2 rest]]; try discriminate;
      [destruct (one underscore c1); discriminate|].
    destruct (one underscore c1); [|discriminate].
    destruct (one underscore c2); [|discriminate].
    apply star_lazy_some in H as (run & rest' & -> & H).
    destruct rest' as [|c3 [|c4 rest']]; try discriminate;
      [destruct (one underscore c3); discriminate|].
    destruct (one underscore c3); [|discriminate].
    destruct (one underscore c4); [|discriminate].
    injection H as <-. unfold replace_bold. cbn. eauto.
Qed.

(** The inline cleaner returns a text, and does not raise, on every input
    that does not contain four asterisks in a row. *)
Theorem clean_inline_succeeds (text : str) :
  contains text (lit "****") = false ->
  exists y, _clean_inline_markdown text = Ok y.
Proof.
  intros H. unfold _clean_inline_markdown, re_sub_f.
  assert (B : exists t1, sub_go bold_re replace_bold [] text 0 = Ok t1).
  { apply (sub_go_ok bold_re replace_bold
             (fun t => contains t (lit "****") = false)).
    - intros pre rest m HQ Hm.
      destruct (bold_match_cases _ _ _ Hm) as [Ok1 | S]; [exact Ok1|].
      apply contains_not_prefix in HQ. congruence.
    - intros c rest. apply contains_tail.
    - exact H. }
  destruct B as [t1 ->]. cbn [bind].
  assert (I : exists t2, sub_go italic_re replace_italic [] t1 0 = Ok t2).
  { apply (sub_go_ok italic_re replace_italic (fun _ => True)); auto.
    intros pre rest m _ Hm.
    destruct (italic_match_content _ _ _ Hm) as (s & E & _). eauto. }
  destruct I as [t2 ->]. cbn [bind]. eauto.
Qed.

Lemma clean_inline_succeeds_witness :
  contains (lit "**a** ***b*** __ c") (lit "****") = false
  /\ exists y, _clean_inline_markdown (lit "**a** ***b*** __ c") = Ok y.
Proof.
  split; [reflexivity|].
  apply (clean_inline_succeeds (lit "**a** ***b*** __ c")). reflexivity.
Defined.

(** ** Tables in the document renderer *)

Lemma body_cells_shape (n : nat) (shaded : bool) :
  forall row,
    length (Docx.body_cells n shaded row) = n
    /\ forall j, (j < n)%nat ->
         nth j (List.map Docx.cell_text (Docx.body_cells n shaded row)) []
         = nth j (List.map strip row) [].
Proof.
  induction n as [|n IH]; intros row; [split; [reflexivity | lia]|].
  destruct row as [|t row]; cbn [Docx.body_cells length List.map].
  - destruct (IH []) as [L0 C0].
    split; [now rewrite L0|]. intros [|j] Hj; [reflexivity|].
    cbn [nth Docx.cell_text]. rewrite C0 by lia. now destruct j.
  - destruct (IH row) as [L1 C1].
    split; [now rewrite L1|]. intros [|j] Hj; [reflexivity|].
    cbn [nth]. apply C1. lia.
Qed.

Lemma body_rows_shape (n : nat) (data : list (list str)) :
  forall r_idx,
    length (Docx.body_rows n r_idx data) = length data
    /\ forall i j, (i < length data)%nat -> (j < n)%nat ->
         length (nth i (Docx.body_rows n r_idx data) []) = n
         /\ nth j (List.map Docx.cell_text
                     (nth i (Docx.body_rows n r_idx data) [])) []
            = nth j (List.map strip (nth i data [])) [].
Proof.
  induction data as [|row data IH]; intros r_idx;
    [split; [reflexivity | simpl; lia]|].
  destruct (IH (S r_idx)) as [L C].
  cbn [Docx.body_rows length]. split; [now rewrite L|].
  intros [|i] j Hi Hj; cbn [nth].
  - destruct (body_cells_shape n (Nat.even r_idx) row) as [L1 C1]. auto.
  - apply C; simpl in Hi; lia.
Qed.

(** A run of rows with a non-empty header is finalized in one of three
    ways: the renderer raises what python-docx raises when the document
    has no usable table style; it raises [ValueError] when python-docx
    refuses the text of a cell; otherwise it adds one table with as many
    rows as the run, every row as wide as the header.  Cell [j] of row [i]
    of that table holds the stripped [j]-th cell of the [i]-th source row,
    or nothing when that source row is shorter, and source cells beyond
    the header width are dropped (and never examined). *)
Theorem docx_table_rectangular
  (xml_char : char -> bool) (d : Docx.document) (header : list str)
  (data : list (list str)) :
  header <> [] ->
  exists trows,
    Docx._finalize_docx_table xml_char d (header :: data)
    = (_ <- Docx.use_style d (lit "Table Grid") Docx.TABLE ;;
       if Docx.cells_ok xml_char trows
       then Ok (Docx.add d (Docx.Table trows))
       else Raise ValueError)
    /\ length trows = length (header :: data)
    /\ forall i j,
         (i < length (header :: data))%nat -> (j < length header)%nat ->
         length (nth i trows []) = length header
         /\ nth j (List.map Docx.cell_text (nth i trows [])) []
            = nth j (List.map strip (nth i (header :: data) [])) [].
Proof.
  intros Hne. destruct header as [|h header]; [contradiction|].
  eexists. cbn [Docx._finalize_docx_table].
  split; [reflexivity|].
  destruct (body_rows_shape (length (h :: header)) data 1) as [L C].
  split; [change (S (length (Docx.body_rows (length (h :: header)) 1 data))
                 = S (length data)); now rewrite L|].
  intros [|i] j Hi Hj; cbn [nth].
  - unfold Docx.header_cells. rewrite length_map, map_map.
    split; reflexivity.
  - apply C; [cbn [length] in Hi; lia | exact Hj].
Qed.

Lemma docx_table_rectangular_witness :
  [lit "A"; lit "B"] <> []
  /\ exists trows,
       Docx._finalize_docx_table lxml_char new_document
         ([lit "A"; lit "B"] :: [[lit "1"]; [lit "2"; lit "3"; lit "4"]])
       = (_ <- Docx.use_style new_document (lit "Table Grid") Docx.TABLE ;;
          if Docx.cells_ok lxml_char trows
          then Ok (Docx.add new_document (Docx.Table trows))
          else Raise ValueError)
       /\ length trows
          = length ([lit "A"; lit "B"] :: [[lit "1"]; [lit "2"; lit "3"; lit "4"]])
       /\ forall i j,
            (i < length ([lit "A"; lit "B"]
                           :: [[lit "1"]; [lit "2"; lit "3"; lit "4"]]))%nat ->
            (j < length [lit "A"; lit "B"])%nat ->
            length (nth i trows []) = length [lit "A"; lit "B"]
            /\ nth j (List.map Docx.cell_text (nth i trows [])) []
               = nth j (List.map strip
                          (nth i ([lit "A"; lit "B"]
                                    :: [[lit "1"]; [lit "2"; lit "3"; lit "4"]])
                               [])) [].
Proof.
  split; [discriminate|].
  apply (docx_table_rectangular lxml_char new_document [lit "A"; lit "B"]
           [[lit "1"]; [lit "2"; lit "3"; lit "4"]]).
  discriminate.
Defined.

(** The table of the witness is accepted, and a control character in a
    cell is not. *)
Example docx_table_accepted_or_refused :
  Docx._finalize_docx_table lxml_char new_document
    ([lit "A"; lit "B"] :: [[lit "1"]; [lit "2"; lit "3"; lit "4"]])
  = Ok (Docx.add new_document
          (Docx.Table
             [[Docx.mkcell (lit "A") true (Some (lit "D9E2F3"));
               Docx.mkcell (lit "B") true (Some (lit "D9E2F3"))];
              [Docx.mkcell (lit "1") false None; Docx.mkcell [] false None];
              [Docx.mkcell (lit "2") false (Some (lit "F9F9F9"));
               Docx.mkcell (lit "3") false (Some (lit "F9F9F9"))]]))
  /\ Docx._finalize_docx_table lxml_char new_document [[[97; 1]]]
     = Raise ValueError
  /\ Docx._finalize_docx_table lxml_char (Docx.mkdoc [] []) [[lit "A"]]
     = Raise KeyError.
Proof. repeat split; vm_compute; reflexivity. Qed.

(** ** Fences at the edges *)

Lemma parser_loop_app (a b : list str) :
  forall st,
    Parser.loop (a ++ b) st = (st' <- Parser.loop a st ;; Parser.loop b st').
Proof.
  induction a as [|l a IH]; intros st; [reflexivity|].
  cbn [app Parser.loop]. destruct (Parser.step st l) as [st1|e];
    cbn [bind]; [apply IH | reflexivity].
Qed.

(** Outside a code block the parser's code buffer is empty. *)
Lemma parser_buffer_step (st st' : Parser.state) (l : str) :
  (Parser.in_code_block st = false -> Parser.code_block_content st = []) ->
  Parser.step st l = Ok st' ->
  Parser.in_code_block st' = false -> Parser.code_block_content st' = [].
Proof.
  intros Inv H. unfold Parser.step in H.
  destruct (startswith (rstrip l) (lit "```")).
  - destruct (Parser.in_code_block st); injection H as <-;
      [reflexivity | discriminate].
  - destruct (Parser.in_code_block st) eqn:E.
    + injection H as <-. discriminate.
    + destruct (_process_markdown_line (rstrip l)); [|discriminate].
      cbn [bind] in H. injection H as <-. cbn. intros _. now apply Inv.
Qed.

Lemma parser_buffer_loop (lines : list str) :
  forall st st',
    (Parser.in_code_block st = false -> Parser.code_block_content st = []) ->
    Parser.loop lines st = Ok st' ->
    Parser.in_code_block st' = false -> Parser.code_block_content st' = [].
Proof.
  induction lines as [|l lines IH]; intros st st' Inv H.
  - injection H as <-. exact Inv.
  - cbn [Parser.loop] in H. destruct (Parser.step st l) as [st1|] eqn:E;
      [|discriminate].
    cbn [bind] in H. eapply IH; [|exact H].
    eapply parser_buffer_step; eassumption.
Qed.

(** A fence that is never closed is closed at the end of the input: the
    structured lines are the same as with a closing fence on the last
    line. *)
Theorem unclosed_fence_closed_at_end
  (pre : list str) (st : Parser.state) (opening closing : str)
  (body : list str) :
  Parser.loop pre Parser.init = Ok st ->
  Parser.in_code_block st = false ->
  startswith (rstrip opening) FENCE = true ->
  startswith (rstrip closing) FENCE = true ->
  body <> [] ->
  forallb (fun l => negb (startswith (rstrip l) FENCE)) body = true ->
  parse_lines (pre ++ opening :: body)
  = Ok (Parser.structured_lines st ++ [CODE_START]
          ++ List.map rstrip body ++ [CODE_END])
  /\ parse_lines (pre ++ opening :: body)
     = parse_lines (pre ++ opening :: body ++ [closing]).
Proof.
  intros Hpre Hc Ho Hcl Hne Hb.
  assert (Hnil : Parser.code_block_content st = []).
  { eapply parser_buffer_loop; [|exact Hpre|exact Hc]. reflexivity. }
  assert (Hne' : List.map rstrip body <> [])
    by (destruct body; [contradiction | discriminate]).
  assert (E1 : parse_lines (pre ++ opening :: body)
               = Ok (Parser.structured_lines st ++ [CODE_START]
                       ++ List.map rstrip body ++ [CODE_END])).
  { unfold parse_lines. rewrite parser_loop_app, Hpre. cbn [bind Parser.loop].
    rewrite parser_step_open by assumption. cbn [bind].
    pose proof (parser_loop_inside body [] Hb) as L.
    rewrite app_nil_r in L. rewrite L by reflexivity.
    cbn [Parser.loop bind Parser.structured_lines Parser.code_block_content].
    rewrite Hnil. cbn [app].
    unfold Parser.finish, Parser.emit_code_block.
    cbn [Parser.in_code_block Parser.code_block_content
         Parser.structured_lines andb].
    destruct (List.map rstrip body) eqn:M; [contradiction|].
    reflexivity. }
  split; [exact E1|]. rewrite E1. unfold parse_lines.
  rewrite parser_loop_app, Hpre. cbn [bind Parser.loop].
  rewrite parser_step_open by assumption. cbn [bind].
  rewrite parser_loop_inside by auto.
  cbn [Parser.loop Parser.structured_lines Parser.code_block_content].
  rewrite Hnil. cbn [app].
  rewrite parser_step_close; try reflexivity; assumption.
Qed.

Lemma unclosed_fence_closed_at_end_witness :
  (Parser.loop [lit "intro"] Parser.init
   = Ok (Parser.mk [lit "[PARAGRAPH]intro"] false [])
   /\ Parser.in_code_block (Parser.mk [lit "[PARAGRAPH]intro"] false []) = false
   /\ startswith (rstrip (lit "```py")) FENCE = true
   /\ startswith (rstrip (lit "```")) FENCE = true
   /\ [lit "x = 1 "; lit "# y"] <> []
   /\ forallb (fun l => negb (startswith (rstrip l) FENCE))
        [lit "x = 1 "; lit "# y"] = true)
  /\ parse_lines ([lit "intro"] ++ lit "```py" :: [lit "x = 1 "; lit "# y"])
     = Ok (Parser.structured_lines (Parser.mk [lit "[PARAGRAPH]intro"] false [])
             ++ [CODE_START] ++ List.map rstrip [lit "x = 1 "; lit "# y"]
             ++ [CODE_END])
  /\ parse_lines ([lit "intro"] ++ lit "```py" :: [lit "x = 1 "; lit "# y"])
     = parse_lines ([lit "intro"] ++ lit "```py"
                      :: [lit "x = 1 "; lit "# y"] ++ [lit "```"]).
Proof.
  split; [repeat split; try reflexivity; discriminate |].
  apply (unclosed_fence_closed_at_end [lit "intro"]
           (Parser.mk [lit "[PARAGRAPH]intro"] false [])
           (lit "```py") (lit "```") [lit "x = 1 "; lit "# y"]);
    try reflexivity; discriminate.
Defined.

(** A fenced block with nothing inside leaves no trace in the structured
    output. *)
Theorem empty_fence_vanishes
  (pre post : list str) (st : Parser.state) (opening closing : str) :
  Parser.loop pre Parser.init = Ok st ->
  Parser.in_code_block st = false ->
  startswith (rstrip opening) FENCE = true ->
  startswith (rstrip closing) FENCE = true ->
  parse_lines (pre ++ opening :: closing :: post) = parse_lines (pre ++ post).
Proof.
  intros Hpre Hc Ho Hcl.
  assert (Hnil : Parser.code_block_content st = []).
  { eapply parser_buffer_loop; [|exact Hpre|exact Hc]. reflexivity. }
  unfold parse_lines. rewrite !parser_loop_app, Hpre. cbn [bind Parser.loop].
  rewrite parser_step_open by assumption. cbn [bind].
  unfold Parser.step at 1. fold FENCE. rewrite Hcl.
  cbn [Parser.in_code_block Parser.code_block_content Parser.structured_lines
       bind].
  rewrite Hnil. destruct st as [sl ic cb]. cbn in Hc, Hnil |- *. now subst.
Qed.

Lemma empty_fence_vanishes_witness :
  (Parser.loop [lit "- a"] Parser.init
   = Ok (Parser.mk [lit "[LIST_BULLET_0]a"] false [])
   /\ Parser.in_code_block (Parser.mk [lit "[LIST_BULLET_0]a"] false []) = false
   /\ startswith (rstrip (lit "```")) FENCE = true
   /\ startswith (rstrip (lit "``` ")) FENCE = true)
  /\ parse_lines ([lit "- a"] ++ lit "```" :: lit "``` " :: [lit "- b"])
     = parse_lines ([lit "- a"] ++ [lit "- b"]).
Proof.
  split; [repeat split; reflexivity |].
  apply (empty_fence_vanishes [lit "- a"] [lit "- b"]
           (Parser.mk [lit "[LIST_BULLET_0]a"] false [])
           (lit "```") (lit "``` ")); reflexivity.
Defined.

(** ** The two renderers side by side *)

Lemma html_close_list_sync (h : Html.state) (d : Docx.state) :
  containers_in_sync h d -> containers_in_sync (Html.close_list h) d.
Proof.
  unfold containers_in_sync, Html.close_list.
  destruct (Html.in_list h); auto.
Qed.

Lemma flush_table_sync (ok : char -> bool) (h : Html.state)
      (d d' : Docx.state) :
  containers_in_sync h d ->
  Docx.flush_table ok d = Ok d' ->
  containers_in_sync (Html.flush_table h) d'.
Proof.
  unfold containers_in_sync, Html.flush_table, Docx.flush_table.
  intros (A & B & C & D) H. rewrite C.
  destruct (Docx.in_table d) eqn:T.
  - bind_ok H. apply Ok_inj in H. subst d'. cbn. auto.
  - apply Ok_inj in H. subst d'. rewrite T. auto.
Qed.

Lemma close_flush_sync (ok : char -> bool) (h : Html.state)
      (d d' : Docx.state) :
  containers_in_sync h d ->
  Docx.flush_table ok (Docx.close_list d) = Ok d' ->
  containers_in_sync (Html.flush_table (Html.close_list h)) d'.
Proof.
  intros H. apply flush_table_sync. apply html_close_list_sync.
  destruct H as (A & B & C & D). unfold containers_in_sync. cbn. auto.
Qed.

Ltac sync_fields :=
  unfold containers_in_sync in *; cbn in *;
  repeat match goal with H : _ /\ _ |- _ => destruct H end;
  repeat split; auto; try congruence.

(** A state whose document alone was replaced holds the same
    containers. *)
Lemma with_doc_sync (h : Html.state) (d : Docx.state) (doc : Docx.document) :
  containers_in_sync h d -> containers_in_sync h (Docx.with_doc d doc).
Proof. intros H. sync_fields. Qed.

Lemma append_sync (h : Html.state) (d : Docx.state) (l : str) :
  containers_in_sync h d -> containers_in_sync (Html.append h l) d.
Proof. intros H. sync_fields. Qed.

Lemma step_sync (ok : char -> bool) (h : Html.state) (d d' : Docx.state)
      (line : str) :
  containers_in_sync h d ->
  Docx.step ok d line = Ok d' ->
  containers_in_sync (Html.step h line) d'.
Proof.
  intros H S.
  pose proof (html_close_list_sync h d H) as C.
  assert (E : Html.in_code_block h = Docx.in_code_block d) by apply H.
  unfold Html.step. unfold Docx.step in S. rewrite <- E in S.
  destruct (str_eqb line (lit "[CODE_BLOCK_START]")).
  { apply Ok_inj in S. subst d'. sync_fields. }
  destruct (str_eqb line (lit "[CODE_BLOCK_END]")).
  { bind_ok S. apply Ok_inj in S. subst d'. sync_fields. }
  destruct (Html.in_code_block h) eqn:IC.
  { apply Ok_inj in S. subst d'. sync_fields. }
  destruct (startswith line (lit "[HEADING_")).
  { bind_ok S. pose proof (close_flush_sync ok h d a H E0) as CF.
    destruct (re_match heading_line_re line).
    - bind_ok S. apply Ok_inj in S. subst d'.
      now apply append_sync, with_doc_sync.
    - apply Ok_inj in S. now subst d'. }
  destruct (str_eqb line (lit "[HORIZONTAL_RULE]")).
  { bind_ok S. pose proof (close_flush_sync ok h d a H E0) as CF.
    bind_ok S. apply Ok_inj in S. subst d'.
    now apply append_sync, with_doc_sync. }
  destruct (startswith line (lit "[LIST_")).
  { bind_ok S. pose proof (flush_table_sync ok h d a H E0) as F.
    destruct (re_match list_line_re line).
    - bind_ok S. apply Ok_inj in S. subst d'.
      apply append_sync, with_doc_sync.
      repeat match goal with
             | |- context [if ?c then _ else _] => destruct c
             end;
        try (unfold Html.close_list;
             destruct (Html.in_list (Html.flush_table h)));
        sync_fields.
    - apply Ok_inj in S. now subst d'. }
  destruct (startswith line (lit "[BLOCKQUOTE]")).
  { bind_ok S. pose proof (close_flush_sync ok h d a H E0) as CF.
    bind_ok S. apply Ok_inj in S. subst d'.
    now apply append_sync, with_doc_sync. }
  destruct (startswith line (lit "[TABLE_")).
  { destruct (str_eqb line (lit "[TABLE_SEPARATOR]")).
    { apply Ok_inj in S. subst d'. sync_fields. }
    destruct (startswith line (lit "[TABLE_ROW]")).
    2:{ apply Ok_inj in S. subst d'. sync_fields. }
    apply Ok_inj in S. subst d'.
    unfold containers_in_sync in *. cbn.
    destruct C as (C1 & C2 & C3 & C4), H as (H1 & H2 & H3 & H4).
    rewrite C3, C4, <- H3.
    repeat split; auto.
    rewrite map_app. cbn [List.map]. rewrite map_map.
    destruct (Html.in_table h); reflexivity. }
  destruct (startswith line (lit "[PARAGRAPH]")).
  2:{ apply Ok_inj in S. now subst d'. }
  bind_ok S. pose proof (close_flush_sync ok h d a H E0) as CF.
  destruct (blank (slice_from 11 line)).
  - apply Ok_inj in S. now subst d'.
  - bind_ok S. apply Ok_inj in S. subst d'.
    now apply append_sync, with_doc_sync.
Qed.

(** On every input, as long as python-docx has raised nothing, the two
    renderers have opened and closed tables and code blocks at the same
    lines and hold the same buffered code lines and rows (the page
    renderer's rows HTML-escaped): the container state the document
    renderer reaches at the end of its loop is the page renderer's. *)
Theorem renderers_in_sync
  (xml_char : char -> bool) (d : Docx.document) (lines : list str)
  (st : Docx.state) :
  Docx.loop xml_char lines (Docx.init d) = Ok st ->
  containers_in_sync (Html.loop lines Html.init) st.
Proof.
  unfold Html.loop.
  assert (I : containers_in_sync Html.init (Docx.init d))
    by (repeat split).
  revert I. generalize Html.init, (Docx.init d).
  induction lines as [|l lines IH]; intros h s I L.
  - apply Ok_inj in L. now subst st.
  - cbn [Docx.loop] in L. bind_ok L.
    cbn [fold_left]. apply (IH _ a); [|exact L].
    now apply (step_sync xml_char h s a l).
Qed.

Lemma renderers_in_sync_witness :
  Docx.loop lxml_char
    [lit "[HEADING_1]T"; lit "[TABLE_ROW]a<b|c"; lit "[CODE_BLOCK_START]";
     lit "x"]
    (Docx.init new_document)
  = Ok (Docx.mk
          (Docx.add new_document (Docx.Heading 1 (lit "T") true 18 12))
          None (-1)%Z true [[lit "a<b"; lit "c"]] true [lit "x"])
  /\ containers_in_sync
       (Html.loop
          [lit "[HEADING_1]T"; lit "[TABLE_ROW]a<b|c";
           lit "[CODE_BLOCK_START]"; lit "x"] Html.init)
       (Docx.mk
          (Docx.add new_document (Docx.Heading 1 (lit "T") true 18 12))
          None (-1)%Z true [[lit "a<b"; lit "c"]] true [lit "x"]).
Proof.
  split; [vm_compute; reflexivity|].
  apply (renderers_in_sync lxml_char new_document
           [lit "[HEADING_1]T"; lit "[TABLE_ROW]a<b|c";
            lit "[CODE_BLOCK_START]"; lit "x"]).
  vm_compute. reflexivity.
Defined.

(** ** Markdown tables in the PDF generator *)

Lemma nonblank_lines_shape (text : str) :
  Forall (fun l => strip l = l /\ no_newline l = true)
         (Pdf.nonblank_lines text).
Proof.
  unfold Pdf.nonblank_lines. apply Forall_forall. intros l Hl.
  apply filter_In in Hl as [Hl _]. apply in_map_iff in Hl as (w & <- & Hw).
  split; [apply strip_idem|].
  apply forallb_strip.
  pose proof (split_no_sep LF text) as F. rewrite Forall_forall in F.
  now apply F.
Qed.

Lemma split_forallb (P : char -> bool) (sep : char) (s : str) :
  forallb P s = true ->
  Forall (fun w => forallb P w = true) (split sep s).
Proof.
  induction s as [|c s IH]; intros H; [repeat constructor|].
  cbn [forallb] in H. apply andb_true_iff in H as [Hc Hs].
  specialize (IH Hs). cbn [split]. destruct (c =? sep).
  - constructor; [reflexivity | exact IH].
  - destruct (split sep s) as [|w ws];
      [repeat constructor; cbn; now rewrite Hc|].
    inversion IH as [|? ? Hw Hws]; subst.
    constructor; [cbn; now rewrite Hc, Hw | exact Hws].
Qed.

Lemma row_cells_good (line : str) :
  no_newline line = true -> Forall good_cell (Pdf.row_cells line).
Proof.
  intros Hn. unfold Pdf.row_cells. apply Forall_forall. intros c Hc.
  apply filter_In in Hc as [Hc Hne]. apply in_map_iff in Hc as (w & <- & Hw).
  pose proof (split_no_sep (chr "|") line) as F. rewrite Forall_forall in F.
  pose proof (split_forallb (fun x => negb (x =? LF)) (chr "|") line Hn) as G.
  rewrite Forall_forall in G.
  repeat split.
  - intros E. rewrite E in Hne. discriminate.
  - apply strip_idem.
  - apply forallb_strip. now apply F.
  - apply forallb_strip. now apply G.
Qed.

Lemma table_rows_good (lines : list str) :
  Forall (fun l => no_newline l = true) lines ->
  Forall (fun r => r <> [] /\ Forall good_cell r) (Pdf.table_rows lines).
Proof.
  induction 1 as [|l lines Hl _ IH]; [constructor|].
  cbn [Pdf.table_rows]. destruct (Pdf.is_separator l); [exact IH|].
  pose proof (row_cells_good l Hl) as G.
  destruct (Pdf.row_cells l) as [|c cs]; [exact IH|].
  constructor; [split; [discriminate | exact G] | exact IH].
Qed.

(** When [_parse_markdown_table] returns rows there is at least one, none
    of them is empty, and every cell is non-empty, stripped and free of
    pipes and newlines: empty cells are dropped wherever they stand, and
    so are the lines that contain three dashes or three equal signs. *)
Theorem parsed_table_rows_good (text : str) (rows : list (list str)) :
  Pdf._parse_markdown_table text = Some rows ->
  rows <> [] /\ Forall (fun r => r <> [] /\ Forall good_cell r) rows.
Proof.
  unfold Pdf._parse_markdown_table. intros H.
  assert (G : Forall (fun r => r <> [] /\ Forall good_cell r)
                (Pdf.table_rows (Pdf.nonblank_lines text))).
  { apply table_rows_good.
    eapply Forall_impl; [|apply nonblank_lines_shape]. now intros l [_ Hn]. }
  destruct (Pdf.table_rows (Pdf.nonblank_lines text)); [discriminate|].
  injection H as <-. split; [discriminate | exact G].
Qed.

Lemma parsed_table_rows_good_witness :
  Pdf._parse_markdown_table
    (unlines [lit "| A |  | B |"; lit "|---|---|"; []; lit " | 1 | 2 "])
  = Some [[lit "A"; lit "B"]; [lit "1"; lit "2"]]
  /\ [[lit "A"; lit "B"]; [lit "1"; lit "2"]] <> []
  /\ Forall (fun r => r <> [] /\ Forall good_cell r)
       [[lit "A"; lit "B"]; [lit "1"; lit "2"]].
Proof.
  split; [reflexivity|].
  apply (parsed_table_rows_good
           (unlines [lit "| A |  | B |"; lit "|---|---|"; []; lit " | 1 | 2 "])).
  reflexivity.
Defined.

(** ** Matches are made of the characters of the subject *)

Section MadeOf.
Variable P : char -> bool.

Lemma forallb_firstn (n : nat) (s : str) :
  forallb P s = true -> forallb P (firstn n s) = true.
Proof.
  revert n. induction s as [|c s IH]; intros [|n] H; try reflexivity.
  cbn [forallb firstn] in *. apply andb_true_iff in H as [H1 H2].
  now rewrite H1, IH.
Qed.

Lemma captured_made_of (n : nat) (s : str) :
  forallb P s = true -> forallb P (rev (firstn n s)) = true.
Proof. intros H. rewrite forallb_rev. now apply forallb_firstn. Qed.

Lemma star_greedy_made_of (A : Type) (Good : A -> Prop) (p : char -> bool)
      (k : str -> str -> option A) :
  (forall pre rest x,
      forallb P pre = true -> forallb P rest = true ->
      k pre rest = Some x -> Good x) ->
  forall rest pre x,
    forallb P pre = true -> forallb P rest = true ->
    star_greedy p k pre rest = Some x -> Good x.
Proof.
  intros Hk. induction rest as [|c rest IH]; intros pre x Hp Hr H;
    cbn [star_greedy] in H; [eauto|].
  pose proof Hr as Hr'. cbn [forallb] in Hr'.
  apply andb_true_iff in Hr' as [Hc Hr'].
  destruct (p c); [|eauto].
  destruct (star_greedy p k (c :: pre) rest) eqn:E.
  - injection H as <-. eapply IH; [| |exact E]; [cbn; now rewrite Hc|auto].
  - eauto.
Qed.

Lemma star_lazy_made_of (A : Type) (Good : A -> Prop) (p : char -> bool)
      (k : str -> str -> option A) :
  (forall pre rest x,
      forallb P pre = true -> forallb P rest = true ->
      k pre rest = Some x -> Good x) ->
  forall rest pre x,
    forallb P pre = true -> forallb P rest = true ->
    star_lazy p k pre rest = Some x -> Good x.
Proof.
  intros Hk. induction rest as [|c rest IH]; intros pre x Hp Hr H;
    cbn [star_lazy] in H.
  - destruct (k pre []) eqn:E; [|discriminate]. injection H as <-. eauto.
  - pose proof Hr as Hr'. cbn [forallb] in Hr'.
    apply andb_true_iff in Hr' as [Hc Hr'].
    destruct (k pre (c :: rest)) eqn:E; [injection H as <-; eauto|].
    destruct (p c); [|discriminate].
    eapply IH; [| |exact H]; [cbn; now rewrite Hc|auto].
Qed.

(** If the continuation only yields good results on positions and
    captures made of [P]-characters, so does the matcher. *)
Lemma rmatch_made_of (r : regex) :
  forall (A : Type) (Good : A -> Prop) (k : cont A) pre rest caps x,
    (forall pre' rest' caps' y,
        forallb P pre' = true -> forallb P rest' = true ->
        caps_made_of P caps' -> k pre' rest' caps' = Some y -> Good y) ->
    forallb P pre = true -> forallb P rest = true -> caps_made_of P caps ->
    rmatch r pre rest caps k = Some x -> Good x.
Proof.
  induction r as [ | p | r1 IH1 r2 IH2 | r1 IH1 r2 IH2 | p | p
                 | n r IH | p | p | ml | ml ];
    intros A Good k pre rest caps x Hk Hp Hr Hc H; cbn [rmatch] in H.
  - eauto.
  - destruct rest as [|c rest]; [discriminate|].
    cbn [forallb] in Hr. apply andb_true_iff in Hr as [Hc' Hr].
    destruct (p c); [|discriminate].
    eapply Hk; [| | |exact H]; auto. cbn. now rewrite Hc'.
  - eapply (IH1 A Good
              (fun pre' rest' caps' => rmatch r2 pre' rest' caps' k));
      [| exact Hp | exact Hr | exact Hc | exact H].
    intros pre' rest' caps' y Hp' Hr' Hc' Hy.
    eapply (IH2 A Good k); [exact Hk | | | | exact Hy]; assumption.
  - destruct (rmatch r1 pre rest caps k) eqn:E.
    + injection H as <-.
      eapply (IH1 A Good k); [exact Hk | | | | exact E]; assumption.
    + eapply (IH2 A Good k); [exact Hk | | | | exact H]; assumption.
  - eapply star_greedy_made_of; [| | |exact H]; eauto.
  - eapply star_lazy_made_of; [| | |exact H]; eauto.
  - eapply (IH A Good); [| exact Hp | exact Hr | exact Hc | exact H].
    intros pre' rest' caps' y Hp' Hr' Hc' Hy.
    eapply Hk; [| | |exact Hy]; auto.
    constructor; [|exact Hc']. cbn [snd]. now apply captured_made_of.
  - destruct pre as [|c pre']; [eauto|]. destruct (p c); [discriminate|eauto].
  - destruct rest as [|c rest']; [eauto|]. destruct (p c); [discriminate|eauto].
  - destruct pre as [|c pre']; [eauto|].
    destruct (ml && (c =? LF)); [eauto|discriminate].
  - destruct rest as [|c rest']; [eauto|].
    match type of H with (if ?b then _ else _) = _ => destruct b end;
      [eauto|discriminate].
Qed.

Lemma match_at_made_of (r : regex) (pre rest : str) (m : mobj) :
  forallb P pre = true -> forallb P rest = true ->
  match_at r pre rest = Some m -> mobj_made_of P m.
Proof.
  intros Hp Hr H. unfold match_at in H.
  eapply rmatch_made_of with (Good := mobj_made_of P); [| | | |exact H]; auto;
    [|constructor].
  intros pre' rest' caps' y Hp' Hr' Hc' Hy. injection Hy as <-.
  split; [now apply captured_made_of | exact Hc'].
Qed.

Lemma group_made_of (n : nat) (caps : captures) (s : str) :
  caps_made_of P caps -> group n caps = Some s -> forallb P s = true.
Proof.
  induction 1 as [|[i t] caps Ht _ IH]; [discriminate|].
  cbn [group]. destruct (i =? n)%nat; [|exact IH].
  intros E. injection E as <-. exact Ht.
Qed.

Lemma grp_made_of (n : nat) (m : mobj) :
  mobj_made_of P m -> forallb P (grp n m) = true.
Proof.
  intros [_ Hc]. unfold grp.
  destruct (group n (m_groups m)) eqn:E; [|reflexivity].
  eapply group_made_of; eassumption.
Qed.

Lemma sub_pure_made_of (r : regex) (f : mobj -> str) :
  (forall m, mobj_made_of P m -> forallb P (f m) = true) ->
  forall rest pre skip,
    forallb P pre = true -> forallb P rest = true ->
    forallb P (sub_pure r f pre rest skip) = true.
Proof.
  intros Hf. induction rest as [|c rest IH]; intros pre skip Hp Hr.
  - cbn [sub_pure]. destruct skip; [|reflexivity].
    destruct (match_at r pre []) eqn:E; [|reflexivity].
    apply Hf. eapply match_at_made_of; [| |exact E]; assumption.
  - pose proof Hr as Hr'. cbn [forallb] in Hr'.
    apply andb_true_iff in Hr' as [Hc Hr'].
    assert (Hp' : forallb P (c :: pre) = true) by (cbn; now rewrite Hc).
    cbn [sub_pure]. destruct skip; [|now apply IH].
    destruct (match_at r pre (c :: rest)) as [m|] eqn:E.
    + assert (Hm : forallb P (f m) = true)
        by (apply Hf; eapply match_at_made_of; [| |exact E]; assumption).
      destruct (m_text m); rewrite forallb_app, Hm; cbn [forallb andb];
        rewrite ?Hc; now apply IH.
    + cbn [forallb]. rewrite Hc. now apply IH.
Qed.

Lemma sub_go_made_of (r : regex) (f : mobj -> result str) :
  (forall m s, mobj_made_of P m -> f m = Ok s -> forallb P s = true) ->
  forall rest pre skip out,
    forallb P pre = true -> forallb P rest = true ->
    sub_go r f pre rest skip = Ok out -> forallb P out = true.
Proof.
  intros Hf. induction rest as [|c rest IH]; intros pre skip out Hp Hr H.
  - cbn [sub_go] in H. destruct skip; [|now injection H as <-].
    destruct (match_at r pre []) eqn:E; [|now injection H as <-].
    eapply Hf; [|exact H]. eapply match_at_made_of; [| |exact E]; assumption.
  - pose proof Hr as Hr'. cbn [forallb] in Hr'.
    apply andb_true_iff in Hr' as [Hc Hr'].
    assert (Hp' : forallb P (c :: pre) = true) by (cbn; now rewrite Hc).
    cbn [sub_go] in H. destruct skip; [|eapply IH; [| |exact H]; assumption].
    destruct (match_at r pre (c :: rest)) as [m|] eqn:E.
    + destruct (f m) as [repl|] eqn:F; [|discriminate]. cbn [bind] in H.
      assert (Hm : forallb P repl = true)
        by (eapply Hf; [|exact F]; eapply match_at_made_of; [| |exact E]; assumption).
      destruct (m_text m) as [|? t].
      * destruct (sub_go r f (c :: pre) rest 0) as [tail|] eqn:T;
          [|discriminate]. cbn [bind] in H. injection H as <-.
        rewrite forallb_app, Hm. cbn [forallb andb]. rewrite Hc.
        cbn [andb]; eapply IH; [| |exact T]; assumption.
      * destruct (sub_go r f (c :: pre) rest (length t)) as [tail|] eqn:T;
          [|discriminate]. cbn [bind] in H. injection H as <-.
        rewrite forallb_app, Hm. cbn [andb]; eapply IH; [| |exact T]; assumption.
    + destruct (sub_go r f (c :: pre) rest 0) as [tail|] eqn:T;
        [|discriminate]. cbn [bind] in H. injection H as <-.
      cbn [forallb]. rewrite Hc. cbn [andb]; eapply IH; [| |exact T]; assumption.
Qed.

End MadeOf.

(** ** The inline cleaner adds no characters of its own *)

Lemma py_or_made_of (P : char -> bool) (m : mobj) (s : str) :
  mobj_made_of P m ->
  py_or (group 1 (m_groups m)) (group 2 (m_groups m)) = Some s ->
  forallb P s = true.
Proof.
  intros [_ Hc] H. unfold py_or in H.
  destruct (group 1 (m_groups m)) as [[|a t]|] eqn:G1;
    try (eapply group_made_of; [exact Hc | exact H]).
  injection H as <-. eapply group_made_of; [exact Hc | exact G1].
Qed.

Lemma clean_inline_made_of (P : char -> bool) (x y : str) :
  cleaner_writes P ->
  forallb P x = true ->
  _clean_inline_markdown x = Ok y ->
  forallb P y = true.
Proof.
  intros (W1 & W2 & W3 & W4 & W5) Hx H.
  change (P 32 = true) in W1. change (P 40 = true) in W2.
  change (P 41 = true) in W3. change (P 42 = true) in W4.
  change (P 95 = true) in W5.
  unfold _clean_inline_markdown in H.
  destruct (re_sub_f bold_re replace_bold x) as [t1|] eqn:B; [|discriminate].
  cbn [bind] in H.
  destruct (re_sub_f italic_re replace_italic t1) as [t2|] eqn:I;
    [|discriminate].
  cbn [bind] in H. injection H as <-.
  assert (H1 : forallb P t1 = true).
  { unfold re_sub_f in B.
    eapply (sub_go_made_of P bold_re replace_bold); [| | |exact B]; auto.
    intros m s Hm E. unfold replace_bold in E.
    destruct (py_or _ _) eqn:O; [|discriminate]. injection E as <-.
    eapply py_or_made_of; eassumption. }
  assert (H2 : forallb P t2 = true).
  { unfold re_sub_f in I.
    eapply (sub_go_made_of P italic_re replace_italic); [| | |exact I]; auto.
    intros m s Hm E. unfold replace_italic in E.
    destruct (py_or _ _) eqn:O; [|discriminate]. injection E as <-.
    eapply py_or_made_of; eassumption. }
  apply forallb_strip. unfold re_sub.
  apply sub_pure_made_of; [intros; cbn; now rewrite W1 | reflexivity |].
  apply sub_pure_made_of; [intros; cbn; now rewrite W5 | reflexivity |].
  apply sub_pure_made_of; [intros; cbn; now rewrite W4 | reflexivity |].
  apply sub_pure_made_of; [reflexivity | reflexivity |].
  apply sub_pure_made_of; [| reflexivity |].
  { intros m Hm. unfold replace_links. rewrite !forallb_app.
    rewrite !grp_made_of by assumption. cbn. now rewrite W1, W2, W3. }
  apply sub_pure_made_of; [intros; now apply grp_made_of | reflexivity |].
  apply sub_pure_made_of; [intros; now apply grp_made_of | reflexivity |].
  exact H2.
Qed.

(** Every character of the cleaner's output is a character of its
    input or one of the five characters the cleaner writes itself: space,
    the two parentheses of a rewritten link, and the asterisk and
    underscore of an unescaped sequence. *)
Theorem cleaner_adds_no_characters (P : char -> bool) (x y : str) :
  cleaner_writes P ->
  forallb P x = true ->
  _clean_inline_markdown x = Ok y ->
  forallb P y = true.
Proof. exact (clean_inline_made_of P x y). Qed.

Lemma cleaner_adds_no_characters_witness :
  (cleaner_writes (fun c => negb (c =? chr "|"))
   /\ forallb (fun c => negb (c =? chr "|")) (lit "**a** [t](u) \*") = true
   /\ _clean_inline_markdown (lit "**a** [t](u) \*") = Ok (lit "a t (u) *"))
  /\ forallb (fun c => negb (c =? chr "|")) (lit "a t (u) *") = true.
Proof.
  split; [repeat split; reflexivity |].
  apply (cleaner_adds_no_characters (fun c => negb (c =? chr "|"))
           (lit "**a** [t](u) \*") (lit "a t (u) *"));
    [repeat split | |]; reflexivity.
Defined.

(** ** Structured lines carry no newline *)

Lemma uint_no_newline (d : Decimal.uint) :
  no_newline (lit (NilEmpty.string_of_uint d)) = true.
Proof. induction d; cbn; try reflexivity; exact IHd. Qed.

Lemma str_of_N_no_newline (n : N) : no_newline (str_of_N n) = true.
Proof.
  unfold str_of_N, NilZero.string_of_uint.
  destruct (N.to_uint n); try reflexivity; apply uint_no_newline.
Qed.

Lemma no_newline_app (a b : str) :
  no_newline (a ++ b) = no_newline a && no_newline b.
Proof. apply forallb_app. Qed.

Lemma clean_no_newline (x y : str) :
  no_newline x = true -> _clean_inline_markdown x = Ok y ->
  no_newline y = true.
Proof.
  apply (clean_inline_made_of (fun c => negb (c =? LF))). repeat split.
Qed.

Lemma rstrip_no_newline (s : str) :
  no_newline s = true -> no_newline (rstrip s) = true.
Proof.
  intros H. destruct (rstrip_split s) as (ws & E & _).
  rewrite E, no_newline_app in H. now apply andb_true_iff in H as [H _].
Qed.

Lemma mapM_clean_no_newline (cells out : list str) :
  Forall (fun c => no_newline c = true) cells ->
  mapM _clean_inline_markdown cells = Ok out ->
  Forall (fun c => no_newline c = true) out.
Proof.
  revert out. induction cells as [|c cells IH]; intros out F H.
  - cbn in H. injection H as <-. constructor.
  - inversion F as [|? ? Hc Hcs]; subst. cbn [mapM] in H.
    destruct (_clean_inline_markdown c) as [c'|] eqn:C; [|discriminate].
    cbn [bind] in H.
    destruct (mapM _clean_inline_markdown cells) as [out'|]; [|discriminate].
    cbn [bind] in H. injection H as <-.
    constructor; [eapply clean_no_newline; eassumption | now apply IH].
Qed.

Lemma join_no_newline (sep : str) (l : list str) :
  no_newline sep = true ->
  Forall (fun c => no_newline c = true) l ->
  no_newline (join sep l) = true.
Proof.
  intros Hs. induction 1 as [|a l Ha Hl IH]; [reflexivity|].
  cbn [join]. destruct l as [|b l]; [exact Ha|].
  rewrite !no_newline_app, Ha, Hs. exact IH.
Qed.

Lemma removelast_Forall {A} (Q : A -> Prop) (l : list A) :
  Forall Q l -> Forall Q (removelast l).
Proof.
  induction 1 as [|a l Ha Hl IH]; [constructor|].
  cbn [removelast]. destruct l; [constructor|]. constructor; assumption.
Qed.

Lemma table_line_no_newline (line out : str) :
  no_newline line = true -> _process_table_line line = Ok out ->
  no_newline out = true.
Proof.
  intros Hl H. unfold _process_table_line in H.
  destruct (contains line _); [now injection H as <-|].
  destruct (mapM _ _) as [cells|] eqn:M; [|discriminate].
  cbn [bind] in H. injection H as <-.
  cbn -[join lit]. apply join_no_newline; [reflexivity|].
  refine (mapM_clean_no_newline _ _ _ M).
  assert (F : Forall (fun c => no_newline c = true)
                (List.map strip (split (chr "|") line))).
  { apply Forall_forall. intros c Hc.
    apply in_map_iff in Hc as (w & <- & Hw). apply forallb_strip.
    pose proof (split_forallb _ (chr "|") line Hl) as F.
    rewrite Forall_forall in F. now apply F. }
  revert F. generalize (List.map strip (split (chr "|") line)). intros cs F.
  assert (F1 : Forall (fun c => no_newline c = true)
                 (pop_first_if_empty cs)).
  { unfold pop_first_if_empty. destruct cs as [|[|] ?]; auto.
    now inversion F. }
  revert F1. generalize (pop_first_if_empty cs). clear. intros cs F.
  unfold pop_last_if_empty. destruct (rev cs) as [|[|] ?]; auto.
  now apply removelast_Forall.
Qed.

Lemma match_no_newline (r : regex) (line : str) (m : mobj) :
  no_newline line = true -> re_match r line = Some m ->
  mobj_made_of (fun c => negb (c =? LF)) m.
Proof.
  intros Hl H. eapply match_at_made_of; [| |exact H]; [reflexivity|exact Hl].
Qed.

Lemma process_line_no_newline (line out : str) :
  no_newline line = true -> _process_markdown_line line = Ok out ->
  no_newline out = true.
Proof.
  intros Hl H. unfold _process_markdown_line in H.
  destruct (strip line) eqn:S; [now injection H as <-|]. rewrite <- S in H.
  clear S.
  destruct (re_match heading_re line) as [m|] eqn:Hd.
  { destruct (_clean_inline_markdown _) as [t|] eqn:C; [|discriminate].
    cbn [bind] in H. apply Ok_inj in H. subst out.
    apply clean_no_newline in C;
      [|apply forallb_strip, grp_made_of; eapply match_no_newline; eassumption].
    rewrite !no_newline_app, C. unfold str_of_nat.
    now rewrite str_of_N_no_newline. }
  destruct (re_match rule_re (strip line)); [now injection H as <-|].
  destruct (re_match list_re line) as [m|] eqn:Li.
  { destruct (_clean_inline_markdown _) as [t|] eqn:C; [|discriminate].
    cbn [bind] in H. apply Ok_inj in H. subst out.
    apply clean_no_newline in C;
      [|apply grp_made_of; eapply match_no_newline; eassumption].
    rewrite !no_newline_app, C. unfold str_of_nat.
    rewrite str_of_N_no_newline. now destruct (endswith _ _). }
  destruct (startswith line (lit ">")).
  { destruct (_clean_inline_markdown _) as [t|] eqn:C; [|discriminate].
    cbn [bind] in H. apply Ok_inj in H. subst out.
    apply clean_no_newline in C; [now rewrite no_newline_app, C|].
    unfold re_sub. apply sub_pure_made_of; auto. }
  destruct (_ && _); [eapply table_line_no_newline; eassumption|].
  destruct (_clean_inline_markdown _) as [t|] eqn:C; [|discriminate].
  cbn [bind] in H. apply Ok_inj in H. subst out.
  apply clean_no_newline in C; [now rewrite no_newline_app, C | exact Hl].
Qed.

Lemma parser_step_no_newline (st st' : Parser.state) (line : str) :
  Forall (fun l => no_newline l = true) (Parser.structured_lines st) ->
  Forall (fun l => no_newline l = true) (Parser.code_block_content st) ->
  no_newline line = true ->
  Parser.step st line = Ok st' ->
  Forall (fun l => no_newline l = true) (Parser.structured_lines st')
  /\ Forall (fun l => no_newline l = true) (Parser.code_block_content st').
Proof.
  intros Hs Hc Hl H. apply rstrip_no_newline in Hl. unfold Parser.step in H.
  destruct (startswith (rstrip line) _).
  - destruct (Parser.in_code_block st); apply Ok_inj in H; subst st';
      cbn [Parser.structured_lines Parser.code_block_content];
      [|now split].
    split; [|constructor].
    destruct (Parser.code_block_content st) eqn:E; [exact Hs|].
    unfold Parser.emit_code_block. rewrite E.
    repeat (apply Forall_app; split); auto.
  - destruct (Parser.in_code_block st).
    + apply Ok_inj in H; subst st'.
      cbn [Parser.structured_lines Parser.code_block_content].
      split; [exact Hs|]. apply Forall_app; split; auto.
    + destruct (_process_markdown_line _) as [p|] eqn:P; [|discriminate].
      cbn [bind] in H. apply Ok_inj in H; subst st'.
      cbn [Parser.structured_lines Parser.code_block_content].
      split; [|exact Hc]. apply Forall_app; split; auto.
      constructor; [|constructor]. eapply process_line_no_newline; eassumption.
Qed.

Lemma parser_loop_no_newline (lines : list str) :
  Forall (fun l => no_newline l = true) lines ->
  forall st st',
    Forall (fun l => no_newline l = true) (Parser.structured_lines st) ->
    Forall (fun l => no_newline l = true) (Parser.code_block_content st) ->
    Parser.loop lines st = Ok st' ->
    Forall (fun l => no_newline l = true) (Parser.finish st').
Proof.
  induction 1 as [|l lines Hl _ IH]; intros st st' Hs Hc H.
  - cbn in H. apply Ok_inj in H; subst st'. unfold Parser.finish.
    destruct (_ && _); [|exact Hs]. unfold Parser.emit_code_block.
    repeat (apply Forall_app; split); auto.
  - cbn [Parser.loop] in H.
    destruct (Parser.step st l) as [st1|] eqn:S; [|discriminate].
    cbn [bind] in H.
    destruct (parser_step_no_newline st st1 l Hs Hc Hl S) as [Hs1 Hc1].
    exact (IH st1 st' Hs1 Hc1 H).
Qed.

Lemma split_sep (sep : char) (a r : str) :
  forallb (fun x => negb (x =? sep)) a = true ->
  split sep (a ++ sep :: r) = a :: split sep r.
Proof.
  induction a as [|c a IH]; intros H.
  - cbn [app split]. now rewrite N.eqb_refl.
  - cbn [forallb] in H. apply andb_true_iff in H as [Hc Ha].
    cbn [app split]. apply negb_true_iff in Hc. rewrite Hc.
    now rewrite (IH Ha).
Qed.

Lemma split_one (sep : char) (a : str) :
  forallb (fun x => negb (x =? sep)) a = true -> split sep a = [a].
Proof.
  induction a as [|c a IH]; intros H; [reflexivity|].
  cbn [forallb] in H. apply andb_true_iff in H as [Hc Ha].
  cbn [split]. apply negb_true_iff in Hc. rewrite Hc.
  now rewrite (IH Ha).
Qed.

Lemma split_join (sep : char) (ls : list str) :
  Forall (fun l => forallb (fun x => negb (x =? sep)) l = true) ls ->
  ls <> [] ->
  split sep (join [sep] ls) = ls.
Proof.
  induction 1 as [|a ls Ha Hl IH]; intros N; [easy|].
  cbn [join]. destruct ls as [|b ls]; [now apply split_one|].
  cbn [app]. rewrite (split_sep _ _ _ Ha). f_equal. now apply IH.
Qed.

Lemma split_unlines (ls : list str) :
  Forall (fun l => no_newline l = true) ls -> ls <> [] ->
  split LF (unlines ls) = ls.
Proof. exact (split_join LF ls). Qed.

(** The structured text is line-faithful.  Whatever the input text, no
    line the parser produces holds a newline, so splitting the returned
    text at its newlines yields exactly the parser's lines, one tagged
    block (or one code line) per line. *)
Theorem structured_text_splits_back (text : str) (ls : list str) :
  parse_lines (split LF text) = Ok ls ->
  _parse_markdown_structure text = Ok (unlines ls)
  /\ Forall (fun l => no_newline l = true) ls
  /\ (ls <> [] -> split LF (unlines ls) = ls).
Proof.
  intros H.
  assert (F : Forall (fun l => no_newline l = true) ls).
  { unfold parse_lines in H.
    destruct (Parser.loop _ _) as [st|] eqn:L; [|discriminate].
    cbn [bind] in H. apply Ok_inj in H; subst ls.
    eapply parser_loop_no_newline; [apply split_no_sep | | |exact L];
      constructor. }
  split; [|split; [exact F | now apply split_unlines]].
  unfold _parse_markdown_structure. now rewrite H.
Qed.

Lemma structured_text_splits_back_witness :
  parse_lines
    (split LF (unlines [lit "# T"; lit "```"; lit " x = 1 "; lit "```";
                        lit "- a | b"]))
  = Ok [lit "[HEADING_1]T"; lit "[CODE_BLOCK_START]"; lit " x = 1";
        lit "[CODE_BLOCK_END]"; lit "[LIST_BULLET_0]a | b"]
  /\ split LF (unlines [lit "[HEADING_1]T"; lit "[CODE_BLOCK_START]";
                        lit " x = 1"; lit "[CODE_BLOCK_END]";
                        lit "[LIST_BULLET_0]a | b"])
     = [lit "[HEADING_1]T"; lit "[CODE_BLOCK_START]"; lit " x = 1";
        lit "[CODE_BLOCK_END]"; lit "[LIST_BULLET_0]a | b"].
Proof.
  split; [vm_compute; reflexivity|].
  refine (proj2 (proj2 (structured_text_splits_back
            (unlines [lit "# T"; lit "```"; lit " x = 1 "; lit "```";
                      lit "- a | b"]) _ _)) _);
    [vm_compute; reflexivity | discriminate].
Defined.

(** ** A table row travels from the parser to the renderers *)

Lemma mapM_Forall2 {A B} (f : A -> result B) (l : list A) (out : list B) :
  mapM f l = Ok out -> Forall2 (fun a b => f a = Ok b) l out.
Proof.
  revert out. induction l as [|a l IH]; intros out H.
  - cbn in H. apply Ok_inj in H. subst out. constructor.
  - cbn [mapM] in H. destruct (f a) as [b|] eqn:E; [|discriminate].
    cbn [bind] in H. destruct (mapM f l) as [out'|]; [|discriminate].
    cbn [bind] in H. apply Ok_inj in H. subst out.
    constructor; [exact E | now apply IH].
Qed.

Lemma source_cells_no_pipe (line : str) :
  Forall (fun c => forallb (fun x => negb (x =? chr "|")) c = true)
    (pop_last_if_empty
       (pop_first_if_empty (List.map strip (split (chr "|") line)))).
Proof.
  assert (F : Forall (fun c => forallb (fun x => negb (x =? chr "|")) c = true)
                (List.map strip (split (chr "|") line))).
  { apply Forall_forall. intros c Hc.
    apply in_map_iff in Hc as (w & <- & Hw). apply forallb_strip.
    pose proof (split_no_sep (chr "|") line) as F.
    rewrite Forall_forall in F. now apply F. }
  revert F. generalize (List.map strip (split (chr "|") line)). intros cs F.
  assert (F1 : Forall (fun c => forallb (fun x => negb (x =? chr "|")) c = true)
                 (pop_first_if_empty cs)).
  { unfold pop_first_if_empty. destruct cs as [|[|] ?]; auto.
    now inversion F. }
  revert F1. generalize (pop_first_if_empty cs). clear. intros cs F.
  unfold pop_last_if_empty. destruct (rev cs) as [|[|] ?]; auto.
  now apply removelast_Forall.
Qed.

Lemma clean_cells_shape (src cells : list str) :
  Forall (fun c => forallb (fun x => negb (x =? chr "|")) c = true) src ->
  mapM _clean_inline_markdown src = Ok cells ->
  Forall (fun c => forallb (fun x => negb (x =? chr "|")) c = true) cells
  /\ List.map strip cells = cells.
Proof.
  intros F M. apply mapM_Forall2 in M.
  induction M as [|a b src cells E _ IH]; [split; [constructor|reflexivity]|].
  inversion F as [|? ? Ha Hs]; subst. destruct (IH Hs) as [IH1 IH2].
  split.
  - constructor; [|exact IH1].
    apply (clean_inline_made_of _ a b); [repeat split | exact Ha | exact E].
  - cbn [List.map]. rewrite IH2. f_equal.
    now destruct (clean_output_shape _ _ E) as [S _].
Qed.

Lemma row_line_split (cells : list str) :
  Forall (fun c => forallb (fun x => negb (x =? chr "|")) c = true) cells ->
  split (chr "|") (join (lit "|") cells)
  = match cells with [] => [[]] | _ => cells end.
Proof.
  intros F. destruct cells as [|c cs]; [reflexivity|].
  now apply (split_join (chr "|")).
Qed.

(** A table line that is not a separator reaches both renderers cell by
    cell: the row each renderer buffers for the parser's line holds
    exactly the cleaned cells of the source line, in order (a line with
    no cell at all gives one empty cell), HTML-escaped in the page
    renderer and as they are in the document renderer.  Buffering a row
    calls nothing of python-docx, so the document renderer cannot raise
    here. *)
Theorem table_row_round_trip (xml_char : char -> bool) (line out : str)
    (h : Html.state) (d : Docx.state) :
  contains line (lit "---") = false ->
  _process_table_line line = Ok out ->
  Html.in_code_block h = false ->
  Docx.in_code_block d = false ->
  exists cells,
    mapM _clean_inline_markdown
      (pop_last_if_empty
         (pop_first_if_empty (List.map strip (split (chr "|") line))))
    = Ok cells
    /\ out = lit "[TABLE_ROW]" ++ join (lit "|") cells
    /\ Html.table_rows (Html.step h out)
       = (if Html.in_table h then Html.table_rows h else [])
         ++ [List.map escape (match cells with [] => [[]] | _ => cells end)]
    /\ exists d',
         Docx.step xml_char d out = Ok d'
         /\ Docx.doc d' = Docx.doc d
         /\ Docx.table_rows d'
            = (if Docx.in_table d then Docx.table_rows d else [])
              ++ [match cells with [] => [[]] | _ => cells end].
Proof.
  intros Hsep H Hh Hd. unfold _process_table_line in H. rewrite Hsep in H.
  destruct (mapM _ _) as [cells|] eqn:M; [|discriminate].
  cbn [bind] in H. apply Ok_inj in H. subst out.
  exists cells. split; [reflexivity|]. split; [reflexivity|].
  destruct (clean_cells_shape _ _ (source_cells_no_pipe line) M) as [F S].
  pose proof (row_line_split cells F) as R.
  assert (S' : List.map strip (match cells with [] => [[]] | _ => cells end)
               = match cells with [] => [[]] | _ => cells end).
  { destruct cells; [reflexivity | exact S]. }
  revert R. generalize (join (lit "|") cells). intros X R.
  split.
  - unfold Html.step.
    rewrite !startswith_false_eqb by reflexivity. rewrite Hh.
    change (startswith (lit "[TABLE_ROW]" ++ X) (lit "[HEADING_")) with false.
    change (startswith (lit "[TABLE_ROW]" ++ X) (lit "[LIST_")) with false.
    change (startswith (lit "[TABLE_ROW]" ++ X) (lit "[BLOCKQUOTE]"))
      with false.
    change (startswith (lit "[TABLE_ROW]" ++ X) (lit "[TABLE_")) with true.
    change (startswith (lit "[TABLE_ROW]" ++ X) (lit "[TABLE_ROW]")) with true.
    change (slice_from 11 (lit "[TABLE_ROW]" ++ X)) with X.
    cbv iota. rewrite R.
    cbn [Html.table_rows].
    rewrite <- S' at 2. rewrite map_map.
    unfold Html.close_list. now destruct (Html.in_list h).
  - rewrite (docx_step_row xml_char d X Hd). eexists.
    split; [reflexivity|]. split; [reflexivity|].
    cbn [Docx.table_rows]. now rewrite R, S'.
Qed.

Lemma table_row_round_trip_witness :
  (contains (lit "| a | **b** |") (lit "---") = false
   /\ _process_table_line (lit "| a | **b** |") = Ok (lit "[TABLE_ROW]a|b")
   /\ Html.in_code_block Html.init = false
   /\ Docx.in_code_block (Docx.init new_document) = false)
  /\ exists cells,
      mapM _clean_inline_markdown
        (pop_last_if_empty
           (pop_first_if_empty
              (List.map strip (split (chr "|") (lit "| a | **b** |")))))
      = Ok cells
      /\ lit "[TABLE_ROW]a|b" = lit "[TABLE_ROW]" ++ join (lit "|") cells
      /\ Html.table_rows (Html.step Html.init (lit "[TABLE_ROW]a|b"))
         = (if Html.in_table Html.init then Html.table_rows Html.init else [])
           ++ [List.map escape (match cells with [] => [[]] | _ => cells end)]
      /\ exists d',
           Docx.step lxml_char (Docx.init new_document) (lit "[TABLE_ROW]a|b")
           = Ok d'
           /\ Docx.doc d' = Docx.doc (Docx.init new_document)
           /\ Docx.table_rows d'
              = (if Docx.in_table (Docx.init new_document)
                 then Docx.table_rows (Docx.init new_document) else [])
                ++ [match cells with [] => [[]] | _ => cells end].
Proof.
  split; [repeat split; vm_compute; reflexivity|].
  apply (table_row_round_trip lxml_char (lit "| a | **b** |")
           (lit "[TABLE_ROW]a|b")
           Html.init (Docx.init new_document));
    vm_compute; reflexivity.
Defined.

(** ** Heading levels travel from the parser to the renderers *)

Lemma lit_cons (c : ascii) (s : string) :
  lit (String c s) = N_of_ascii c :: lit s.
Proof. reflexivity. Qed.

Lemma int_acc_uint (d : Decimal.uint) (acc : positive) :
  int_acc (Npos acc) (lit (NilEmpty.string_of_uint d))
  = Npos (Pos.of_uint_acc d acc).
Proof.
  revert acc. induction d; intros acc; [reflexivity|..];
    cbn [NilEmpty.string_of_uint Pos.of_uint_acc]; rewrite lit_cons;
    cbn [int_acc];
    match goal with
    | |- context [digit_value ?c] =>
        let v := eval vm_compute in (digit_value c) in
        change (digit_value c) with v
    end; cbv iota; rewrite <- IHd; f_equal; lia.
Qed.

Lemma int_uint (d : Decimal.uint) :
  int (lit (NilEmpty.string_of_uint d)) = Pos.of_uint d.
Proof.
  unfold int. induction d; [reflexivity|..];
    cbn [NilEmpty.string_of_uint Pos.of_uint]; rewrite lit_cons;
    cbn [int_acc];
    match goal with
    | |- context [digit_value ?c] =>
        let v := eval vm_compute in (digit_value c) in
        change (digit_value c) with v
    end; cbv iota; try exact IHd;
    match goal with
    | |- int_acc ?a _ = _ =>
        let a' := eval vm_compute in a in change a with a'
    end; apply int_acc_uint.
Qed.

Lemma int_str_of_N (n : N) : int (str_of_N n) = n.
Proof.
  unfold str_of_N, NilZero.string_of_uint.
  rewrite <- (DecimalN.Unsigned.of_to n) at 2. unfold N.of_uint.
  destruct (N.to_uint n) eqn:E; try apply int_uint. reflexivity.
Qed.

Lemma uint_digits (d : Decimal.uint) :
  forallb (fun c => (48 <=? c) && (c <=? 57))
          (lit (NilEmpty.string_of_uint d)) = true.
Proof. induction d; cbn; try reflexivity; exact IHd. Qed.

Lemma ascii_digit (c : char) :
  (48 <=? c) && (c <=? 57) = true -> isdigit c = true.
Proof.
  intros H. apply andb_true_iff in H as [L U].
  apply N.leb_le in L, U.
  assert (C : c = 48 \/ c = 49 \/ c = 50 \/ c = 51 \/ c = 52 \/ c = 53
              \/ c = 54 \/ c = 55 \/ c = 56 \/ c = 57) by lia.
  repeat (destruct C as [->|C]; [reflexivity|]). now subst.
Qed.

Lemma str_of_N_digits (n : N) :
  exists d D, str_of_N n = d :: D /\ forallb isdigit (d :: D) = true.
Proof.
  assert (F : forallb isdigit (str_of_N n) = true).
  { unfold str_of_N, NilZero.string_of_uint.
    assert (G : forall u, forallb isdigit (lit (NilEmpty.string_of_uint u))
                          = true).
    { intros u. eapply forallb_weaken; [|apply uint_digits].
      exact ascii_digit. }
    destruct (N.to_uint n); try apply G. reflexivity. }
  destruct (str_of_N n) as [|d D] eqn:E; [|now exists d, D].
  exfalso. unfold str_of_N, NilZero.string_of_uint in E.
  destruct (N.to_uint n); discriminate.
Qed.

Lemma star_greedy_run (A : Type) (p : char -> bool)
      (k : str -> str -> option A) (s rest : str) :
  forallb p s = true ->
  match rest with c :: _ => p c = false | [] => True end ->
  forall pre,
    k (rev s ++ pre) rest <> None ->
    star_greedy p k pre (s ++ rest) = k (rev s ++ pre) rest.
Proof.
  intros Hs Hr. induction s as [|c s IH]; intros pre Hk.
  - cbn [app rev]. destruct rest as [|c r]; [reflexivity|].
    cbn [star_greedy]. now rewrite Hr.
  - cbn [forallb] in Hs. apply andb_true_iff in Hs as [Hc Hs].
    cbn [app star_greedy]. rewrite Hc.
    cbn [rev] in Hk |- *. rewrite <- app_assoc in Hk |- *. cbn [app] in *.
    rewrite (IH Hs (c :: pre) Hk).
    destruct (k (rev s ++ c :: pre) rest); [reflexivity | contradiction].
Qed.

Lemma captured_app (a b : str) :
  rev (firstn (length (a ++ b) - length b) (a ++ b)) = rev a.
Proof.
  rewrite length_app, Nat.add_sub. f_equal.
  rewrite firstn_app, Nat.sub_diag, firstn_all. cbn. apply app_nil_r.
Qed.

Lemma star_greedy_line (A : Type) (k : str -> str -> option A)
      (t pre : str) :
  no_newline t = true ->
  k (rev t ++ pre) [] <> None ->
  star_greedy any_but_newline k pre t = k (rev t ++ pre) [].
Proof.
  intros Ht Hk. rewrite <- (app_nil_r t) at 1.
  now apply star_greedy_run.
Qed.

Lemma heading_line_match (d : char) (D t : str) :
  forallb isdigit (d :: D) = true -> no_newline t = true ->
  exists m,
    re_match heading_line_re (lit "[HEADING_" ++ (d :: D) ++ lit "]" ++ t)
    = Some m
    /\ grp 1 m = d :: D /\ grp 2 m = t.
Proof.
  intros HD Ht. cbn [forallb] in HD. apply andb_true_iff in HD as [Hd HD].
  pose proof (fun k pre => star_greedy_line mobj k t pre Ht) as L.
  unfold re_match, match_at, heading_line_re.
  cbn -[star_greedy isdigit any_but_newline]. rewrite Hd.
  rewrite star_greedy_run; [| exact HD | reflexivity |];
    cbv beta iota; change (one 93 93) with true; cbv iota;
    rewrite L by discriminate; [|discriminate].
  eexists. split; [reflexivity|].
  unfold grp. cbn [m_groups group Nat.eqb]. split.
  - change (rev D ++ [d; 95; 71; 78; 73; 68; 65; 69; 72; 91])
      with (rev D ++ [d] ++ [95; 71; 78; 73; 68; 65; 69; 72; 91]).
    rewrite app_assoc.
    change 9%nat with (length [95; 71; 78; 73; 68; 65; 69; 72; 91]).
    rewrite captured_app, rev_app_distr, rev_involutive. reflexivity.
  - match goal with
    | |- context [rev t ++ 93 :: ?p] =>
        change (S (length p)) with (length (93 :: p))
    end.
    now rewrite captured_app, rev_involutive.
Qed.

Lemma star_greedy_lstrip (A : Type) (k : str -> str -> option A)
      (rest pre : str) :
  (forall a b, k a b <> None) ->
  exists ws,
    rest = ws ++ lstrip rest
    /\ star_greedy isspace k pre rest = k (rev ws ++ pre) (lstrip rest).
Proof.
  intros Hk. destruct (lstrip_split rest) as (ws & E & Hws).
  exists ws. split; [exact E|]. rewrite E at 1.
  apply star_greedy_run; [exact Hws | | apply Hk].
  destruct (lstrip rest) as [|c r] eqn:L; [exact I|].
  now apply lstrip_head in L.
Qed.

Lemma heading_match (n : nat) (rest : str) :
  startswith rest (lit "#") = false -> no_newline rest = true ->
  exists m,
    re_match heading_re (repeat (chr "#") (S n) ++ rest) = Some m
    /\ grp 1 m = repeat (chr "#") (S n) /\ grp 2 m = lstrip rest.
Proof.
  intros Hh Hn.
  assert (Hn' : no_newline (lstrip rest) = true).
  { destruct (lstrip_split rest) as (ws & E & Hws).
    rewrite E, no_newline_app in Hn. now apply andb_true_iff in Hn as [_ Hn]. }
  pose proof (fun k pre => star_greedy_line mobj k (lstrip rest) pre Hn') as L.
  unfold re_match, match_at, heading_re.
  cbn -[star_greedy isspace any_but_newline repeat].
  cbn [repeat app]. change (one 35 35) with true. cbv iota.
  set (k2 := fun pre' rest' : str => star_greedy isspace _ pre' rest').
  assert (T : forall a b, k2 a b <> None).
  { intros a b. unfold k2. apply star_greedy_total. intros a' b'.
    apply star_greedy_total. discriminate. }
  rewrite star_greedy_run; [| | |apply T].
  2:{ clear. induction n; [reflexivity|]. cbn. exact IHn. }
  2:{ destruct rest as [|c r]; [exact I|]. cbn in Hh.
      now rewrite andb_true_r in Hh. }
  unfold k2.
  match goal with
  | |- context [star_greedy isspace ?k ?pre rest] =>
      destruct (star_greedy_lstrip mobj k rest pre) as (ws & E & ->)
  end.
  { intros a b. apply star_greedy_total. discriminate. }
  rewrite L by discriminate.
  eexists. split; [reflexivity|].
  unfold grp. cbn [m_groups group Nat.eqb]. split.
  - rewrite Nat.sub_0_r, firstn_all, rev_app_distr, rev_involutive.
    reflexivity.
  - now rewrite captured_app, rev_involutive.
Qed.

Lemma strip_nonempty (c : char) (u : str) :
  isspace c = false -> strip (c :: u) <> [].
Proof.
  intros H. unfold strip. rewrite lstrip_nonspace by assumption.
  unfold rstrip. cbn [rev]. rewrite lstrip_snoc by assumption.
  rewrite rev_app_distr. discriminate.
Qed.

Lemma strip_lstrip (s : str) : strip (lstrip s) = strip s.
Proof. unfold strip. now rewrite lstrip_idem. Qed.

Lemma process_heading (n : nat) (rest title : str) :
  startswith rest (lit "#") = false ->
  no_newline rest = true ->
  _clean_inline_markdown (strip rest) = Ok title ->
  _process_markdown_line (repeat (chr "#") (S n) ++ rest)
  = Ok (lit "[HEADING_" ++ str_of_nat (S n) ++ lit "]" ++ title).
Proof.
  intros Hh Hn C.
  destruct (heading_match n rest Hh Hn) as (m0 & M0 & H1 & H2).
  unfold _process_markdown_line. rewrite M0.
  destruct (strip (repeat (chr "#") (S n) ++ rest)) eqn:S.
  { now apply strip_nonempty in S. }
  rewrite H1, H2, strip_lstrip, C. cbn [bind].
  now rewrite repeat_length.
Qed.

(** A Markdown heading of [n] hashes reaches the page with its level and
    its cleaned title intact: the parser writes the level in decimal, the
    page renderer reads the same number back and shows the escaped title
    in an [h] element of level [min n 6]. *)
Theorem heading_end_to_end (n : nat) (rest title : str) (h : Html.state) :
  startswith rest (lit "#") = false ->
  no_newline rest = true ->
  _clean_inline_markdown (strip rest) = Ok title ->
  Html.in_code_block h = false ->
  let level := N.of_nat (S n) in
  let tag := str_of_N (N.min level 6) in
  let line := lit "[HEADING_" ++ str_of_N level ++ lit "]" ++ title in
  _process_markdown_line (repeat (chr "#") (S n) ++ rest) = Ok line
  /\ Html.step h line
     = Html.append (Html.flush_table (Html.close_list h))
         (lit "<h" ++ tag ++ lit ">" ++ escape title
          ++ lit "</h" ++ tag ++ lit ">").
Proof.
  intros Hh Hn C Hih level tag line.
  assert (Ht : no_newline title = true).
  { eapply clean_no_newline; [|exact C]. now apply forallb_strip. }
  destruct (str_of_N_digits level) as (dg & D & ED & HD).
  destruct (heading_line_match dg D title HD Ht) as (m & M & G1 & G2).
  rewrite <- ED in M, G1. fold line in M.
  assert (I : int (grp 1 m) = level) by (rewrite G1; apply int_str_of_N).
  split.
  - now apply process_heading.
  - unfold Html.step.
    rewrite !startswith_false_eqb by reflexivity. rewrite Hih.
    change (startswith line (lit "[HEADING_")) with true. cbv iota.
    rewrite M. cbv zeta. now rewrite I, G2.
Qed.

Lemma heading_end_to_end_witness :
  (startswith (lit " **Plan** ") (lit "#") = false
   /\ no_newline (lit " **Plan** ") = true
   /\ _clean_inline_markdown (strip (lit " **Plan** ")) = Ok (lit "Plan")
   /\ Html.in_code_block Html.init = false)
  /\ _process_markdown_line (lit "## **Plan** ") = Ok (lit "[HEADING_2]Plan")
  /\ Html.step Html.init (lit "[HEADING_2]Plan")
     = Html.append (Html.flush_table (Html.close_list Html.init))
         (lit "<h2>Plan</h2>").
Proof.
  split; [repeat split; vm_compute; reflexivity|].
  apply (heading_end_to_end 1 (lit " **Plan** ") (lit "Plan") Html.init);
    vm_compute; reflexivity.
Defined.

(** The same heading in the document renderer, read outside a code block
    once the pending table, if any, is in the document: the renderer
    raises what python-docx raises when the document has no usable style
    for the level and [ValueError] when python-docx refuses the title;
    otherwise it adds one heading of level [min n 6] whose text is the
    cleaned title, bold, with the font size and the spacing chosen from
    [n]. *)
Theorem heading_in_document
  (xml_char : char -> bool) (n : nat) (title0 title : str)
  (d st1 : Docx.state) :
  no_newline title0 = true ->
  _clean_inline_markdown title0 = Ok title ->
  Docx.in_code_block d = false ->
  Docx.flush_table xml_char (Docx.close_list d) = Ok st1 ->
  let level := N.of_nat (S n) in
  Docx.step xml_char d (lit "[HEADING_" ++ str_of_N level ++ lit "]" ++ title)
  = (_ <- Docx.use_style (Docx.doc st1)
            (Docx.heading_style (N.min level 6)) Docx.PARAGRAPH ;;
     if Docx.run_text_ok xml_char title
     then Ok (Docx.with_doc st1
                (Docx.add (Docx.doc st1)
                   (Docx.Heading (N.min level 6) title true
                      (Docx.font_size level)
                      (if level =? 1 then 12 else 6))))
     else Raise ValueError).
Proof.
  intros Hn C Hid F level.
  assert (Ht : no_newline title = true)
    by (eapply clean_no_newline; eassumption).
  destruct (str_of_N_digits level) as (dg & D & ED & HD).
  destruct (heading_line_match dg D title HD Ht) as (m & M & G1 & G2).
  rewrite <- ED in M, G1.
  assert (I : int (grp 1 m) = level) by (rewrite G1; apply int_str_of_N).
  set (line := lit "[HEADING_" ++ str_of_N level ++ lit "]" ++ title) in *.
  unfold Docx.step.
  rewrite !startswith_false_eqb by reflexivity. rewrite Hid.
  change (startswith line (lit "[HEADING_")) with true. cbv iota.
  rewrite F. cbn [bind]. rewrite M, I, G2.
  unfold Docx._add_heading_to_docx, Docx.add_with_run.
  destruct (clean_output_shape _ _ C) as [-> _].
  destruct (Docx.use_style _ _ _); cbn [bind]; [|reflexivity].
  now destruct (Docx.run_text_ok xml_char title).
Qed.

Lemma heading_in_document_witness :
  (no_newline (lit "**Plan**") = true
   /\ _clean_inline_markdown (lit "**Plan**") = Ok (lit "Plan")
   /\ Docx.in_code_block (Docx.init new_document) = false
   /\ Docx.flush_table lxml_char (Docx.close_list (Docx.init new_document))
      = Ok (Docx.init new_document))
  /\ Docx.step lxml_char (Docx.init new_document) (lit "[HEADING_2]Plan")
     = Ok (Docx.with_doc (Docx.init new_document)
             (Docx.add new_document
                (Docx.Heading 2 (lit "Plan") true 16 6))).
Proof.
  split; [repeat split; vm_compute; reflexivity|].
  apply (heading_in_document lxml_char 1 (lit "**Plan**") (lit "Plan")
           (Docx.init new_document) (Docx.init new_document));
    vm_compute; reflexivity.
Defined.

(** ** Back to Markdown and in again *)

(** A heading line of the structured text is rebuilt as Markdown with
    the same number of hashes -- unless that number is too large for the
    repetition, which then raises -- and parsing that Markdown line again
    gives the structured line back, for every title the cleaner leaves as
    it is. *)
Theorem heading_markdown_round_trip (max_alloc : N) (n : nat) (title : str) :
  no_newline title = true ->
  _clean_inline_markdown title = Ok title ->
  let level := N.of_nat (S n) in
  let line := lit "[HEADING_" ++ str_of_N level ++ lit "]" ++ title in
  let md := repeat (chr "#") (S n) ++ lit " " ++ title in
  _structured_content_to_markdown max_alloc line
  = (if 2 ^ 63 <=? level then Raise OverflowError
     else if max_alloc <? level then Raise MemoryError
     else Ok md)
  /\ _process_markdown_line md = Ok line.
Proof.
  intros Ht C level line md. split.
  - assert (Hl : no_newline line = true).
    { unfold line.
      now rewrite !no_newline_app, str_of_N_no_newline, Ht. }
    unfold _structured_content_to_markdown.
    rewrite (split_one LF line Hl). cbn [mapM].
    unfold markdown_of_line.
    change (startswith line (lit "[HEADING_")) with true. cbv iota.
    destruct (str_of_N_digits level) as (dg & D & ED & HD).
    destruct (heading_line_match dg D title HD Ht) as (m & M & G1 & G2).
    rewrite <- ED in M, G1. fold line in M.
    rewrite M. cbv zeta. rewrite G1, G2, int_str_of_N.
    unfold char_repeat.
    destruct (2 ^ 63 <=? level); [reflexivity|].
    destruct (max_alloc <? level); [reflexivity|].
    cbn [bind concat]. unfold level. rewrite Nat2N.id, app_nil_r.
    reflexivity.
  - apply process_heading; [reflexivity | exact Ht |].
    replace (strip (lit " " ++ title)) with title; [exact C|].
    destruct (clean_output_shape _ _ C) as [S _]. rewrite <- S at 1.
    reflexivity.
Qed.

Lemma heading_markdown_round_trip_witness :
  (no_newline (lit "Plan (v2)") = true
   /\ _clean_inline_markdown (lit "Plan (v2)") = Ok (lit "Plan (v2)"))
  /\ _structured_content_to_markdown 1000 (lit "[HEADING_3]Plan (v2)")
     = Ok (lit "### Plan (v2)")
  /\ _process_markdown_line (lit "### Plan (v2)")
     = Ok (lit "[HEADING_3]Plan (v2)").
Proof.
  split; [split; vm_compute; reflexivity|].
  apply (heading_markdown_round_trip 1000 2 (lit "Plan (v2)"));
    vm_compute; reflexivity.
Defined.

Lemma replace_pipe_none (new a : str) :
  forallb (fun x => negb (x =? chr "|")) a = true ->
  replace (lit "|") new a = a.
Proof.
  unfold replace. induction a as [|c a IH]; intros H; [reflexivity|].
  cbn [forallb] in H. apply andb_true_iff in H as [Hc Ha].
  apply negb_true_iff in Hc. cbn -[N.eqb]. change (chr "|") with 124 in Hc.
  rewrite Hc. cbn [andb]. f_equal. now apply IH.
Qed.

Lemma replace_pipe_sep (new a r : str) :
  forallb (fun x => negb (x =? chr "|")) a = true ->
  replace (lit "|") new (a ++ lit "|" ++ r)
  = a ++ new ++ replace (lit "|") new r.
Proof.
  unfold replace. induction a as [|c a IH]; intros H.
  - cbn. reflexivity.
  - cbn [forallb] in H. apply andb_true_iff in H as [Hc Ha].
    apply negb_true_iff in Hc. change (chr "|") with 124 in Hc.
    cbn -[N.eqb]. rewrite Hc. cbn [andb]. f_equal. now apply IH.
Qed.

Lemma replace_join (cells : list str) :
  Forall (fun c => forallb (fun x => negb (x =? chr "|")) c = true) cells ->
  replace (lit "|") (lit " | ") (join (lit "|") cells)
  = join (lit " | ") cells.
Proof.
  induction 1 as [|c cs Hc Hcs IH]; [reflexivity|].
  cbn [join]. destruct cs as [|c' cs]; [now apply replace_pipe_none|].
  rewrite replace_pipe_sep by assumption. now rewrite IH.
Qed.

Lemma split_padded (c : str) (cs : list str) :
  Forall (fun c => forallb (fun x => negb (x =? chr "|")) c = true)
         (c :: cs) ->
  split (chr "|") (lit " " ++ join (lit " | ") (c :: cs) ++ lit " |")
  = List.map (fun c => lit " " ++ c ++ lit " ") (c :: cs) ++ [[]].
Proof.
  revert c. induction cs as [|c' cs IH]; intros c F;
    inversion F as [|? ? Hc Hcs]; subst.
  - cbn [join List.map app].
    replace (lit " " ++ c ++ lit " |")
      with ((lit " " ++ c ++ lit " ") ++ chr "|" :: [])
      by (cbn; now rewrite <- app_assoc).
    rewrite split_sep; [reflexivity|].
    rewrite !forallb_app, Hc. reflexivity.
  - change (join (lit " | ") (c :: c' :: cs))
      with (c ++ lit " | " ++ join (lit " | ") (c' :: cs)).
    rewrite map_cons, <- app_comm_cons, <- (IH c' Hcs).
    replace (lit " " ++ (c ++ lit " | " ++ join (lit " | ") (c' :: cs))
             ++ lit " |")
      with ((lit " " ++ c ++ lit " ") ++ chr "|"
              :: (lit " " ++ join (lit " | ") (c' :: cs) ++ lit " |"))
      by (cbn; rewrite <- !app_assoc; reflexivity).
    rewrite split_sep; [reflexivity|].
    rewrite !forallb_app, Hc. reflexivity.
Qed.

Lemma strip_padded (c : str) :
  strip c = c -> strip (lit " " ++ c ++ lit " ") = c.
Proof.
  intros S. destruct (strip_fixed c) as [L R]. rewrite S in L, R.
  destruct c as [|h u]; [reflexivity|].
  assert (Hh : isspace h = false).
  { destruct (isspace h) eqn:E; [|reflexivity]. exfalso.
    cbn [lstrip] in L. rewrite E in L.
    destruct (lstrip_split u) as (ws & Eu & _).
    apply (f_equal (@length N)) in L. rewrite Eu in L at 2.
    cbn [length] in L. rewrite length_app in L. lia. }
  unfold strip. change (lstrip (lit " " ++ (h :: u) ++ lit " "))
    with (lstrip ((h :: u) ++ lit " ")).
  cbn [app lstrip]. rewrite Hh.
  unfold rstrip in *. change (h :: u ++ lit " ") with ((h :: u) ++ [32]).
  rewrite rev_app_distr. cbn [rev app lstrip].
  change (isspace 32) with true. cbv iota. exact R.
Qed.

Lemma strip_keeps_head (c : char) (u : str) :
  isspace c = false -> exists t, strip (c :: u) = c :: t.
Proof.
  intros H. unfold strip. rewrite lstrip_nonspace by assumption.
  unfold rstrip. cbn [rev]. rewrite lstrip_snoc by assumption.
  rewrite rev_app_distr. cbn [rev app]. eauto.
Qed.

Lemma mapM_fixed {A} (f : A -> result A) (l : list A) :
  Forall (fun a => f a = Ok a) l -> mapM f l = Ok l.
Proof.
  induction 1 as [|a l Ha _ IH]; [reflexivity|].
  cbn [mapM]. rewrite Ha. cbn [bind]. rewrite IH. reflexivity.
Qed.

(** A table row of the structured text is rebuilt as a Markdown table
    line with one padded cell per cell, and parsing that line again gives
    the structured row back, for cells the cleaner leaves as they are. *)
Theorem table_row_markdown_round_trip (max_alloc : N) (cells : list str) :
  Forall (fun c => forallb (fun x => negb (x =? chr "|")) c = true
                   /\ no_newline c = true
                   /\ _clean_inline_markdown c = Ok c) cells ->
  let line := lit "[TABLE_ROW]" ++ join (lit "|") cells in
  let md := lit "| " ++ join (lit " | ") cells ++ lit " |" in
  contains md (lit "---") = false ->
  _structured_content_to_markdown max_alloc line = Ok md
  /\ _process_markdown_line md = Ok line.
Proof.
  intros F line md Hsep.
  assert (Fp : Forall (fun c => forallb (fun x => negb (x =? chr "|")) c
                                = true) cells)
    by (eapply Forall_impl; [|exact F]; now intros c (H & _)).
  assert (Fn : Forall (fun c => no_newline c = true) cells)
    by (eapply Forall_impl; [|exact F]; now intros c (_ & H & _)).
  assert (Fc : Forall (fun c => _clean_inline_markdown c = Ok c) cells)
    by (eapply Forall_impl; [|exact F]; now intros c (_ & _ & H)).
  split.
  - assert (Hl : no_newline line = true).
    { unfold line. rewrite no_newline_app.
      now rewrite (join_no_newline (lit "|") cells eq_refl Fn). }
    unfold _structured_content_to_markdown.
    rewrite (split_one LF line Hl). cbn [mapM].
    unfold markdown_of_line.
    change (startswith line (lit "[HEADING_")) with false.
    change (startswith line (lit "[LIST_BULLET_")) with false.
    change (startswith line (lit "[LIST_NUMBERED_")) with false.
    change (startswith line (lit "[PARAGRAPH]")) with false.
    change (startswith line (lit "[TABLE_ROW]")) with true. cbv iota zeta.
    change (slice_from 11 line) with (join (lit "|") cells).
    rewrite replace_join by assumption. cbn [bind concat].
    now rewrite app_nil_r.
  - destruct cells as [|c cs]; [vm_compute; reflexivity|].
    rewrite table_line_dispatch.
    2:{ destruct (strip_keeps_head (chr "|")
                    (lit " " ++ join (lit " | ") (c :: cs) ++ lit " |")
                    eq_refl) as [t E].
        change (strip md = chr "|" :: t) in E. rewrite E. reflexivity. }
    unfold _process_table_line. rewrite Hsep.
    change md with ([] ++ chr "|"
                      :: (lit " " ++ join (lit " | ") (c :: cs) ++ lit " |")).
    rewrite split_sep by reflexivity. rewrite (split_padded c cs Fp).
    rewrite map_cons, map_app, map_map.
    rewrite (map_ext_in _ (fun c => c)), map_id.
    2:{ intros a Ha. apply strip_padded.
        rewrite Forall_forall in Fc.
        now destruct (clean_output_shape _ _ (Fc a Ha)) as [S _]. }
    change (strip []) with (@nil N).
    change (pop_first_if_empty ([] :: (c :: cs) ++ List.map strip [[]]))
      with ((c :: cs) ++ [[]]).
    unfold pop_last_if_empty. rewrite rev_app_distr. cbn [rev app].
    change (c :: cs ++ [[]]) with ((c :: cs) ++ [@nil N]).
    rewrite removelast_last, (mapM_fixed _ _ Fc). reflexivity.
Qed.

Lemma table_row_markdown_round_trip_witness :
  (Forall (fun c => forallb (fun x => negb (x =? chr "|")) c = true
                    /\ no_newline c = true
                    /\ _clean_inline_markdown c = Ok c)
          [lit "Name"; lit "Unit price"]
   /\ contains (lit "| Name | Unit price |") (lit "---") = false)
  /\ _structured_content_to_markdown 0 (lit "[TABLE_ROW]Name|Unit price")
     = Ok (lit "| Name | Unit price |")
  /\ _process_markdown_line (lit "| Name | Unit price |")
     = Ok (lit "[TABLE_ROW]Name|Unit price").
Proof.
  split; [split; [repeat constructor|]; vm_compute; reflexivity|].
  apply (table_row_markdown_round_trip 0 [lit "Name"; lit "Unit price"]);
    [repeat constructor|]; vm_compute; reflexivity.
Defined.
